(** * The router's logging core ([src/log.c]) as a shallow embedding

    The C module keeps its registries in file-level globals.  Here they are
    the fields of one [state] record that every operation threads through a
    small monad [M] whose results are: normal return, process exit
    ([exit(1)] in [write_log]) and fault (a dereference of a null or dangling
    pointer, a failed [assert], signed overflow).

    Conventions.
    - C strings are [string]s holding the bytes before the terminator.
    - [int] data is [Z]; every value the module computes for a mask stays
      within [-1 .. 127], so no wrap-around arises there.  The [uint64_t]
      histogram counters wrap modulo [2^64], written out in [uint64_incr].
    - A log source is referred to by its position in [source_list]
      (sources are only ever appended before shutdown); a sink by the
      address it was allocated at.
    - The two mutexes are not modelled: the embedding is the sequential
      behaviour of each operation.
    - [assert] is taken as compiled in: a failed one is a fault.  Failures
      of [malloc], [strdup] and of the Python allocations are not
      modelled. *)

From Stdlib Require Import ZArith String Ascii List Lia DecimalString.
From stdpp Require Import base list strings.

Notation "a +++ b" := (String.append a b)
  (at level 60, right associativity).

(** ** C library string functions used by [log.c] *)

Definition tolower (c : ascii) : ascii :=
  let n := nat_of_ascii c in
  if (65 <=? n)%nat && (n <=? 90)%nat then ascii_of_nat (n + 32) else c.

Definition char_code (c : ascii) : Z := Z.of_nat (nat_of_ascii c).

Fixpoint strcmp (s1 s2 : string) : Z :=
  match s1, s2 with
  | EmptyString, EmptyString => 0
  | EmptyString, String c2 _ => - char_code c2
  | String c1 _, EmptyString => char_code c1
  | String c1 t1, String c2 t2 =>
      if Ascii.eqb c1 c2 then strcmp t1 t2 else (char_code c1 - char_code c2)%Z
  end.

Fixpoint strncasecmp (s1 s2 : string) (n : nat) {struct n} : Z :=
  match n with
  | O => 0
  | S n' =>
      match s1, s2 with
      | EmptyString, EmptyString => 0
      | EmptyString, String c2 _ => - char_code (tolower c2)
      | String c1 _, EmptyString => char_code (tolower c1)
      | String c1 t1, String c2 t2 =>
          if Ascii.eqb (tolower c1) (tolower c2) then strncasecmp t1 t2 n'
          else (char_code (tolower c1) - char_code (tolower c2))%Z
      end
  end.

Fixpoint strcasecmp (s1 s2 : string) : Z :=
  match s1, s2 with
  | EmptyString, EmptyString => 0
  | EmptyString, String c2 _ => - char_code (tolower c2)
  | String c1 _, EmptyString => char_code (tolower c1)
  | String c1 t1, String c2 t2 =>
      if Ascii.eqb (tolower c1) (tolower c2) then strcasecmp t1 t2
      else (char_code (tolower c1) - char_code (tolower c2))%Z
  end.

Definition strlen (s : string) : nat := String.length s.

(** [strchr(delim, c) != NULL] for a non-null character [c]. *)
Fixpoint strchr (delim : string) (c : ascii) : bool :=
  match delim with
  | EmptyString => false
  | String d delim' => Ascii.eqb d c || strchr delim' c
  end.

(** [s + strspn(s, delim)]: the string after its leading delimiters. *)
Fixpoint skip_delims (delim s : string) : string :=
  match s with
  | EmptyString => EmptyString
  | String c s' => if strchr delim c then skip_delims delim s' else s
  end.

(** Split at the first delimiter: the token before it, and what follows the
    delimiter (which [strtok_r] overwrites with the terminator). *)
Fixpoint split_token (delim s : string) : string * string :=
  match s with
  | EmptyString => (EmptyString, EmptyString)
  | String c s' =>
      if strchr delim c then (EmptyString, s')
      else let '(tok, rest) := split_token delim s' in (String c tok, rest)
  end.

(** One call of [strtok_r]: [None] is the null result; otherwise the token
    and the new save pointer. *)
Definition strtok_r (s delim : string) : option (string * string) :=
  match skip_delims delim s with
  | EmptyString => None
  | s' => Some (split_token delim s')
  end.

(** The tokens handed out by the loop
    [for (token = strtok_r(enable, ..); token; token = strtok_r(NULL, ..))].
    Every call consumes at least one character, so [S (strlen s)] rounds
    suffice (lemma [strtok_loop_fuel]). *)
Fixpoint strtok_loop (fuel : nat) (s delim : string) : list string :=
  match fuel with
  | O => []
  | S fuel' =>
      match strtok_r s delim with
      | None => []
      | Some (token, save) => token :: strtok_loop fuel' save delim
      end
  end.

Definition strtok_all (s delim : string) : list string :=
  strtok_loop (S (strlen s)) s delim.

(** The last character of a non-empty string: [token[len-1]]. *)
Fixpoint last_char (s : string) : option ascii :=
  match s with
  | EmptyString => None
  | String c EmptyString => Some c
  | String _ s' => last_char s'
  end.

(** What [snprintf(buf, size, "%s", s)] leaves in [buf]: at most [size - 1]
    characters. *)
Definition snprintf (size : nat) (s : string) : string :=
  String.substring 0 (size - 1) s.

(** [%d] *)
Definition string_of_Z (z : Z) : string := NilZero.string_of_int (Z.to_int z).

(** What a [printf]-style function makes of a format that is given no
    arguments: [%%] stands for one percent sign, and every other use of [%]
    asks for an argument that is not there, which is undefined ([None]). *)
Fixpoint printf_no_args (fmt : string) : option string :=
  match fmt with
  | EmptyString => Some EmptyString
  | String c rest =>
      if Ascii.eqb c "%" then
        match rest with
        | String c' rest' =>
            if Ascii.eqb c' "%"
            then option_map (String "%") (printf_no_args rest')
            else None
        | EmptyString => None
        end
      else option_map (String c) (printf_no_args rest)
  end.

(** ** Constants *)

Definition LIST_MAX : nat := 1000.

Definition SINK_STDOUT : string := "stdout".
Definition SINK_STDERR : string := "stderr".
Definition SINK_SYSLOG : string := "syslog".
Definition SOURCE_DEFAULT : string := "DEFAULT".
Definition SOURCE_LOGGING : string := "LOGGING".
Definition SEPARATORS : string := ", ;:".
Definition QD_LOG_STATS_TYPE : string := "logStats".

(** Modelled from the spec: the severity bit flags of [qpid/dispatch/log.h],
    which is not among the sources.  The spec fixes them as TRACE=1,
    DEBUG=2, INFO=4, NOTICE=8, WARNING=16, ERROR=32, CRITICAL=64. *)
Definition QD_LOG_TRACE : Z := 1.
Definition QD_LOG_DEBUG : Z := 2.
Definition QD_LOG_INFO : Z := 4.
Definition QD_LOG_NOTICE : Z := 8.
Definition QD_LOG_WARNING : Z := 16.
Definition QD_LOG_ERROR : Z := 32.
Definition QD_LOG_CRITICAL : Z := 64.

(** The priorities of [<syslog.h>]. *)
Definition LOG_CRIT : Z := 2.
Definition LOG_ERR : Z := 3.
Definition LOG_WARNING : Z := 4.
Definition LOG_NOTICE : Z := 5.
Definition LOG_INFO : Z := 6.
Definition LOG_DEBUG : Z := 7.

Definition INT_MAX : Z := 2147483647.

(** ** The level table *)

(** [level_index_t] *)
Definition DEFAULT : nat := 0.
Definition NONE : nat := 1.
Definition TRACE : nat := 2.
Definition DEBUG : nat := 3.
Definition INFO : nat := 4.
Definition NOTICE : nat := 5.
Definition WARNING : nat := 6.
Definition ERROR : nat := 7.
Definition CRITICAL : nat := 8.
Definition N_LEVELS : nat := 9.
Definition MIN_VALID_LEVEL_INDEX : nat := TRACE.
Definition MAX_VALID_LEVEL_INDEX : nat := CRITICAL.
Definition N_LEVEL_INDICES : nat :=
  MAX_VALID_LEVEL_INDEX - MIN_VALID_LEVEL_INDEX + 1.
Definition LEVEL_INDEX (level : nat) : nat := level - TRACE.

Record level_t := mk_level {
  lvl_name : string;
  lvl_bit : Z;      (* QD_LOG bit *)
  lvl_mask : Z;     (* Bit or higher *)
  lvl_syslog : Z
}.

Definition ALL_BITS : Z := Z.lor QD_LOG_CRITICAL (QD_LOG_CRITICAL - 1).

Definition LEVEL (name : string) (QD_LOG SYSLOG : Z) : level_t :=
  mk_level name QD_LOG (Z.land ALL_BITS (Z.lnot (QD_LOG - 1))) SYSLOG.

Definition levels : list level_t :=
  [ mk_level "default" (-1) (-1) 0;
    mk_level "none" 0 0 0;
    LEVEL "trace" QD_LOG_TRACE LOG_DEBUG;
    LEVEL "debug" QD_LOG_DEBUG LOG_DEBUG;
    LEVEL "info" QD_LOG_INFO LOG_INFO;
    LEVEL "notice" QD_LOG_NOTICE LOG_NOTICE;
    LEVEL "warning" QD_LOG_WARNING LOG_WARNING;
    LEVEL "error" QD_LOG_ERROR LOG_ERR;
    LEVEL "critical" QD_LOG_CRITICAL LOG_CRIT ].

(** ** Data *)

Inductive FILE :=
| stderr
| stdout
| fopened (path : string).

Definition is_stderr (f : FILE) : bool :=
  match f with stderr => true | _ => false end.

Record timeval := mk_timeval { tv_sec : Z; tv_usec : Z }.

Record qd_log_entry_t := mk_entry {
  entry_module : string;
  entry_level : Z;
  entry_file : option string;
  entry_line : Z;
  entry_time : timeval;
  entry_text : string
}.

(** Ref-counted log sink, may be shared by several sources. *)
Record log_sink_t := mk_sink {
  sink_refcount : Z;
  sink_name : string;
  sink_syslog : bool;
  sink_file : option FILE
}.

Record qd_log_source_t := mk_source {
  src_module : string;
  src_mask : Z;
  src_timestamp : Z;            (* boolean or -1 means not set *)
  src_source : Z;               (* boolean or -1 means not set *)
  src_syslog : bool;
  src_sink : option nat;        (* address of a sink, None is the null pointer *)
  src_severity_histogram : list Z
}.

(** Modelled from the spec: the error codes of [qpid/dispatch/error.h], which
    is not among the sources; administrative operations return success or a
    configuration error with a human-readable message. *)
Inductive qd_error_t :=
| QD_ERROR_NONE
| QD_ERROR_CONFIG.

(** What the process does to the outside world, oldest first. *)
Inductive event :=
| ev_fopen (path : string) (ok : bool)
| ev_fclose (f : FILE)
| ev_fputs (f : FILE) (line : string)
| ev_fflush (f : FILE)
| ev_openlog
| ev_closelog
| ev_syslog (priority : Z) (line : string)
| ev_perror (msg : string).

Definition FILE_eqb (f g : FILE) : bool :=
  match f, g with
  | stderr, stderr => true
  | stdout, stdout => true
  | fopened p, fopened q => String.eqb p q
  | _, _ => false
  end.

(** Whether a stream is closed after the I/O of a trace.  [fclose] closes
    it; a standard stream then stays closed, since nothing opens one again,
    and a file is open again after a successful [fopen] of its path.  The
    code keeps no record of this: it goes on to use whatever stream a sink
    holds, and a call on a closed stream is undefined in C. *)
Definition stream_closed (f : FILE) (trace : list event) : bool :=
  fold_left
    (fun closed e =>
       match e with
       | ev_fclose g => if FILE_eqb f g then true else closed
       | ev_fopen p true => if FILE_eqb f (fopened p) then false else closed
       | _ => closed
       end)
    trace false.

Record state := mk_state {
  source_list : list qd_log_source_t;
  default_log_source : option nat;
  logging_log_source : option nat;
  sink_list : list (nat * log_sink_t);   (* address, sink; in list order *)
  sink_next : nat;                       (* next address handed out by NEW *)
  entries : list qd_log_entry_t;         (* oldest first *)
  level_names : string;
  qd_error_slot : option (qd_error_t * string);
  entity_cache : list (string * nat);
  io_trace : list event
}.

Definition with_source_list (v : list qd_log_source_t) (s : state) : state :=
  mk_state v (default_log_source s) (logging_log_source s) (sink_list s)
    (sink_next s) (entries s) (level_names s) (qd_error_slot s)
    (entity_cache s) (io_trace s).

Definition with_default_log_source (v : option nat) (s : state) : state :=
  mk_state (source_list s) v (logging_log_source s) (sink_list s)
    (sink_next s) (entries s) (level_names s) (qd_error_slot s)
    (entity_cache s) (io_trace s).

Definition with_logging_log_source (v : option nat) (s : state) : state :=
  mk_state (source_list s) (default_log_source s) v (sink_list s)
    (sink_next s) (entries s) (level_names s) (qd_error_slot s)
    (entity_cache s) (io_trace s).

Definition with_sink_list (v : list (nat * log_sink_t)) (s : state) : state :=
  mk_state (source_list s) (default_log_source s) (logging_log_source s) v
    (sink_next s) (entries s) (level_names s) (qd_error_slot s)
    (entity_cache s) (io_trace s).

Definition with_sink_next (v : nat) (s : state) : state :=
  mk_state (source_list s) (default_log_source s) (logging_log_source s)
    (sink_list s) v (entries s) (level_names s) (qd_error_slot s)
    (entity_cache s) (io_trace s).

Definition with_entries (v : list qd_log_entry_t) (s : state) : state :=
  mk_state (source_list s) (default_log_source s) (logging_log_source s)
    (sink_list s) (sink_next s) v (level_names s) (qd_error_slot s)
    (entity_cache s) (io_trace s).

Definition with_level_names (v : string) (s : state) : state :=
  mk_state (source_list s) (default_log_source s) (logging_log_source s)
    (sink_list s) (sink_next s) (entries s) v (qd_error_slot s)
    (entity_cache s) (io_trace s).

Definition with_qd_error_slot (v : option (qd_error_t * string)) (s : state)
  : state :=
  mk_state (source_list s) (default_log_source s) (logging_log_source s)
    (sink_list s) (sink_next s) (entries s) (level_names s) v
    (entity_cache s) (io_trace s).

Definition with_entity_cache (v : list (string * nat)) (s : state) : state :=
  mk_state (source_list s) (default_log_source s) (logging_log_source s)
    (sink_list s) (sink_next s) (entries s) (level_names s) (qd_error_slot s)
    v (io_trace s).

Definition with_io_trace (v : list event) (s : state) : state :=
  mk_state (source_list s) (default_log_source s) (logging_log_source s)
    (sink_list s) (sink_next s) (entries s) (level_names s) (qd_error_slot s)
    (entity_cache s) v.

(** ** The monad of the module's operations *)

Inductive result (A : Type) :=
| Ret (a : A) (s : state)      (* the call returns *)
| Exit (code : Z) (s : state)  (* the process terminates in the call *)
| Fault.                       (* undefined behaviour or a failed assert *)
Arguments Ret {A} a s.
Arguments Exit {A} code s.
Arguments Fault {A}.

Definition M (A : Type) : Type := state -> result A.

Definition ret {A} (a : A) : M A := fun s => Ret a s.

Definition bind {A B} (m : M A) (k : A -> M B) : M B :=
  fun s =>
    match m s with
    | Ret a s' => k a s'
    | Exit code s' => Exit code s'
    | Fault => Fault
    end.

Notation "'do' x <- m ; k" := (bind m (fun x => k))
  (at level 10, x name, m at level 100, k at level 200).

Definition get : M state := fun s => Ret s s.
Definition modify (f : state -> state) : M unit := fun s => Ret tt (f s).
Definition fault {A} : M A := fun _ => Fault.
Definition exit {A} (code : Z) : M A := fun s => Exit code s.

(** Dereference of a pointer that may be null or dangling. *)
Definition deref {A} (o : option A) : M A :=
  match o with
  | Some a => ret a
  | None => fault
  end.

Definition emit_event (e : event) : M unit :=
  modify (fun s => with_io_trace (io_trace s ++ [e]) s).

(** Modelled from the spec: the error slot of [error.c], which is not among
    the sources.  [qd_error] records a code with its formatted message,
    [qd_error_clear] resets the slot and [qd_error_code] reads the code. *)
Definition qd_error (code : qd_error_t) (msg : string) : M unit :=
  modify (with_qd_error_slot (Some (code, msg))).

Definition qd_error_clear : M unit := modify (with_qd_error_slot None).

Definition error_code_of (slot : option (qd_error_t * string)) : qd_error_t :=
  match slot with
  | Some (code, _) => code
  | None => QD_ERROR_NONE
  end.

Definition qd_error_code : M qd_error_t :=
  fun s => Ret (error_code_of (qd_error_slot s)) s.

(** ** Level lookups *)

Definition levels_at (i : nat) : level_t :=
  List.nth i levels (mk_level "" 0 0 0).

(** [while (i < i + n && !p(levels[i])) ++i]: the first index from [i] on
    whose level satisfies [p], or [i + n] when none of the next [n] does. *)
Fixpoint scan_levels (p : level_t -> bool) (i n : nat) : nat :=
  match n with
  | O => i
  | S n' => if p (levels_at i) then i else scan_levels p (S i) n'
  end.

(** Return NULL and set qd_error if not a valid bit. *)
Definition level_for_bit (bit : Z) : M (option level_t) :=
  let i := scan_levels (fun lv => (lvl_bit lv =? bit)%Z) 0 N_LEVELS in
  if (i =? N_LEVELS)%nat then
    do _ <- qd_error QD_ERROR_CONFIG
              ("'" +++ string_of_Z bit +++ "' is not a valid log level bit.");
    ret None
  else ret (Some (levels_at i)).

(** Return NULL and set qd_error if not a valid level. *)
Definition level_for_name (name : string) (len : nat) : M (option level_t) :=
  let i := scan_levels
             (fun lv => (strncasecmp (lvl_name lv) name len =? 0)%Z)
             0 N_LEVELS in
  if (i =? N_LEVELS)%nat then
    do s <- get;
    do _ <- qd_error QD_ERROR_CONFIG
              ("'" +++ name +++ "' is not a valid log level. Should be one of {"
               +++ level_names s +++ "}.");
    ret None
  else ret (Some (levels_at i)).

(** Return -1 and set qd_error if not a valid bit.
    Translate so that the min valid level index is 0. *)
Definition level_index_for_bit (bit : Z) : M Z :=
  let i := scan_levels (fun lv => (lvl_bit lv =? bit)%Z)
             MIN_VALID_LEVEL_INDEX N_LEVEL_INDICES in
  if (i <=? MAX_VALID_LEVEL_INDEX)%nat then
    ret (Z.of_nat (i - MIN_VALID_LEVEL_INDEX))
  else
    do _ <- qd_error QD_ERROR_CONFIG
              ("'" +++ string_of_Z bit +++ "' is not a valid log level bit.");
    ret (-1)%Z.

(** Return the name of log level or 0 if not found. *)
Definition level_name (level : Z) : option string :=
  if (0 <=? level)%Z && (level <? Z.of_nat N_LEVELS)%Z
  then Some (lvl_name (levels_at (Z.to_nat level)))
  else None.

(** The body of the token loop of [enable_mask]. *)
Fixpoint enable_mask_loop (tokens : list string) (mask : Z) : M Z :=
  match tokens with
  | [] => ret mask
  | token :: tokens' =>
      let len := strlen token in
      let plus :=
        match last_char token with
        | Some c => if Ascii.eqb c "+" then 1 else 0
        | None => 0
        end in
      do level <- level_for_name token (len - plus);
      match level with
      | None => ret (-1)%Z  (* qd_error already set *)
      | Some lv =>
          enable_mask_loop tokens'
            (Z.lor mask (if (plus =? 1)%nat then lvl_mask lv else lvl_bit lv))
      end
  end.

(** Calculate the bit mask for a log enable string. Return -1 and set
    qd_error on error. *)
Definition enable_mask (enable_ : string) : M Z :=
  enable_mask_loop (strtok_all enable_ SEPARATORS) 0.

(** ** Sinks *)

Fixpoint sink_at (l : list (nat * log_sink_t)) (a : nat) : option log_sink_t :=
  match l with
  | [] => None
  | (a', sk) :: l' => if (a' =? a)%nat then Some sk else sink_at l' a
  end.

Fixpoint set_sink (a : nat) (sk : log_sink_t) (l : list (nat * log_sink_t))
  : list (nat * log_sink_t) :=
  match l with
  | [] => []
  | (a', sk') :: l' =>
      if (a' =? a)%nat then (a', sk) :: l' else (a', sk') :: set_sink a sk l'
  end.

(** [DEQ_REMOVE(sink_list, sink)] *)
Fixpoint remove_sink (a : nat) (l : list (nat * log_sink_t))
  : list (nat * log_sink_t) :=
  match l with
  | [] => []
  | (a', sk') :: l' =>
      if (a' =? a)%nat then l' else (a', sk') :: remove_sink a l'
  end.

(** [DEQ_FIND(sink, strcmp(sink->name, name) == 0)] from the head. *)
Fixpoint find_sink (l : list (nat * log_sink_t)) (name : string) : option nat :=
  match l with
  | [] => None
  | (a, sk) :: l' =>
      if (strcmp (sink_name sk) name =? 0)%Z then Some a else find_sink l' name
  end.

Definition find_log_sink_lh (name : string) : M (option nat) :=
  fun s => Ret (find_sink (sink_list s) name) s.

Definition with_refcount (rc : Z) (sk : log_sink_t) : log_sink_t :=
  mk_sink rc (sink_name sk) (sink_syslog sk) (sink_file sk).

(** Must hold the log_source_lock *)
Definition log_sink_free_lh (sink : option nat) : M unit :=
  match sink with
  | None => ret tt
  | Some a =>
      do s <- get;
      do sk <- deref (sink_at (sink_list s) a);
      if (sink_refcount sk =? 0)%Z then fault      (* assert(sink->refcount) *)
      else if (sink_refcount sk =? - INT_MAX - 1)%Z then fault  (* overflow *)
      else
        let rc := (sink_refcount sk - 1)%Z in
        if (rc =? 0)%Z then
          do _ <- modify (fun s => with_sink_list (remove_sink a (sink_list s)) s);
          do _ <- match sink_file sk with
                  | Some f =>
                      if is_stderr f then ret tt else emit_event (ev_fclose f)
                  | None => ret tt
                  end;
          if sink_syslog sk then emit_event ev_closelog else ret tt
        else
          modify (fun s =>
                    with_sink_list
                      (set_sink a (with_refcount rc sk) (sink_list s)) s)
  end.

(** [QD_LOG_TEXT_MAX] of [qpid/dispatch/log.h] and [aprintf] of [aprintf.h];
    neither header is among the sources, so both are parameters of the
    model.  [aprintf size buf text] is the content of a buffer of [size]
    bytes that held [buf] after [text] has been formatted at its end. *)
Class platform := {
  TEXT_MAX : nat;
  aprintf : nat -> string -> string -> string
}.

Section Log.

Context {pf : platform}.

Definition LOG_MAX : nat := TEXT_MAX + 128.

(** [fopen_ok] tells whether [fopen(name, "a")] succeeds, should it be
    called.  The address of a new sink stands for the allocation, not for
    the place in memory: [sink_next] numbers the allocations, so that an
    address names one sink for good, also where the allocator of the C code
    would hand out a freed block again. *)
Definition log_sink_lh (name : string) (fopen_ok : bool) : M (option nat) :=
  do sink <- find_log_sink_lh name;
  match sink with
  | Some a =>
      do s <- get;
      do sk <- deref (sink_at (sink_list s) a);
      if (sink_refcount sk =? INT_MAX)%Z then fault  (* overflow *)
      else
        do _ <- modify (fun s =>
                  with_sink_list
                    (set_sink a (with_refcount (sink_refcount sk + 1) sk)
                       (sink_list s)) s);
        ret (Some a)
  | None =>
      do opened <-
        (if (strcmp name SINK_STDERR =? 0)%Z then ret (false, Some stderr)
         else if (strcmp name SINK_STDOUT =? 0)%Z then ret (false, Some stdout)
         else if (strcmp name SINK_SYSLOG =? 0)%Z then
           do _ <- emit_event ev_openlog; ret (true, None)
         else
           do _ <- emit_event (ev_fopen name fopen_ok);
           ret (false, if fopen_ok then Some (fopened name) else None));
      let '(syslog, file) := opened in
      (* If file is not there, log an error and return 0. *)
      if negb (bool_decide (is_Some file)) && negb syslog then
        let msg :=
          snprintf TEXT_MAX ("Failed to open log file '" +++ name +++ "'") in
        (* qd_error(QD_ERROR_CONFIG, msg): msg is the format, and there are
           no arguments *)
        do text <- deref (printf_no_args msg);
        do _ <- qd_error QD_ERROR_CONFIG text;
        ret None
      else
        do s <- get;
        let a := sink_next s in
        do _ <- modify (fun s =>
                  with_sink_next (S a)
                    (with_sink_list
                       (sink_list s ++ [(a, mk_sink 1 name syslog file)]) s));
        ret (Some a)
  end.

(** ** Sources *)

Fixpoint find_source (i : nat) (l : list qd_log_source_t) (module : string)
  : option nat :=
  match l with
  | [] => None
  | src :: l' =>
      if (strcasecmp module (src_module src) =? 0)%Z then Some i
      else find_source (S i) l' module
  end.

(** Caller must hold log_source_lock *)
Definition lookup_log_source_lh (module : string) : M (option nat) :=
  fun s =>
    Ret (if (strcasecmp module SOURCE_DEFAULT =? 0)%Z then default_log_source s
         else find_source 0 (source_list s) module) s.

Definition default_bool (value default_value : Z) : bool :=
  negb ((if (value =? -1)%Z then default_value else value) =? 0)%Z.

(** Reset the log source to the default state *)
Definition qd_log_source_defaults (log_source : qd_log_source_t)
  : qd_log_source_t :=
  mk_source (src_module log_source) (-1) (-1) (-1) (src_syslog log_source)
    None (replicate N_LEVEL_INDICES 0%Z).

Definition with_src_mask (v : Z) (src : qd_log_source_t) : qd_log_source_t :=
  mk_source (src_module src) v (src_timestamp src) (src_source src)
    (src_syslog src) (src_sink src) (src_severity_histogram src).

Definition with_src_timestamp (v : Z) (src : qd_log_source_t)
  : qd_log_source_t :=
  mk_source (src_module src) (src_mask src) v (src_source src)
    (src_syslog src) (src_sink src) (src_severity_histogram src).

Definition with_src_source (v : Z) (src : qd_log_source_t) : qd_log_source_t :=
  mk_source (src_module src) (src_mask src) (src_timestamp src) v
    (src_syslog src) (src_sink src) (src_severity_histogram src).

Definition with_src_sink (v : option nat) (src : qd_log_source_t)
  : qd_log_source_t :=
  mk_source (src_module src) (src_mask src) (src_timestamp src)
    (src_source src) (src_syslog src) v (src_severity_histogram src).

Definition with_src_severity_histogram (v : list Z) (src : qd_log_source_t)
  : qd_log_source_t :=
  mk_source (src_module src) (src_mask src) (src_timestamp src)
    (src_source src) (src_syslog src) (src_sink src) v.

(** Read and write of the source a handle points to. *)
Definition load_source (h : nat) : M qd_log_source_t :=
  do s <- get; deref (source_list s !! h).

Definition store_source (h : nat) (f : qd_log_source_t -> qd_log_source_t)
  : M unit :=
  do src <- load_source h;
  modify (fun s => with_source_list (<[h := f src]> (source_list s)) s).

Definition qd_entity_cache_add (type : string) (h : nat) : M unit :=
  modify (fun s => with_entity_cache (entity_cache s ++ [(type, h)]) s).

(** Caller must hold the log_source_lock *)
Definition qd_log_source_lh (module : string) : M nat :=
  do log_source <- lookup_log_source_lh module;
  match log_source with
  | Some h => ret h
  | None =>
      do s <- get;
      let h := length (source_list s) in
      let fresh :=
        qd_log_source_defaults
          (mk_source module 0 0 0 false None (replicate N_LEVEL_INDICES 0%Z)) in
      do _ <- modify (fun s => with_source_list (source_list s ++ [fresh]) s);
      do _ <- qd_entity_cache_add QD_LOG_STATS_TYPE h;
      ret h
  end.

Definition qd_log_source (module : string) : M nat := qd_log_source_lh module.

Definition qd_log_source_reset (module : string) : M nat :=
  do src <- qd_log_source_lh module;
  do _ <- store_source src qd_log_source_defaults;
  ret src.

Definition qd_log_enabled (source : option nat) (level : Z) : M bool :=
  match source with
  | None => ret false
  | Some h =>
      do src <- load_source h;
      do mask <-
        (if (src_mask src =? -1)%Z then
           do s <- get;
           do d <- deref (default_log_source s);
           do dsrc <- load_source d;
           ret (src_mask dsrc)
         else ret (src_mask src));
      ret (negb (Z.land level mask =? 0)%Z)
  end.

(** ** The emission pipeline *)

(** What one [emit] call obtains from its environment: the time read by
    [gettimeofday], the text that [localtime], [strftime] and [snprintf]
    make of it in [buf], and whether [fputs] and [fflush] succeed, should
    they be called.  A write to a buffered stream may succeed in [fputs] and
    fail in [fflush]. *)
Record emit_env := mk_env {
  env_time : timeval;
  env_time_text : string;
  env_fputs_ok : bool;
  env_fflush_ok : bool
}.

Definition write_log (log_source : nat) (entry : qd_log_entry_t)
    (env : emit_env) : M unit :=
  do src <- load_source log_source;
  do sink <-
    match src_sink src with
    | Some a => ret (Some a)
    | None =>
        do s <- get;
        do d <- deref (default_log_source s);
        do dsrc <- load_source d;
        ret (src_sink dsrc)
    end;
  match sink with
  | None => ret tt
  | Some a =>
      do s <- get;
      do sk <- deref (sink_at (sink_list s) a);
      do found <- level_for_bit (entry_level entry);
      do level <-
        match found with
        | Some lv => ret lv
        | None => do _ <- qd_error_clear; ret (levels_at INFO)
        end;
      do d <- deref (default_log_source s);
      do dsrc <- load_source d;
      let b0 := EmptyString in
      let b1 :=
        if default_bool (src_timestamp src) (src_timestamp dsrc)
        then aprintf LOG_MAX b0 (env_time_text env +++ " ")
        else b0 in
      let b2 :=
        aprintf LOG_MAX b1
          (entry_module entry +++ " (" +++ lvl_name level +++ ") "
           +++ entry_text entry) in
      let b3 :=
        match entry_file entry with
        | Some file =>
            if default_bool (src_source src) (src_source dsrc)
            then aprintf LOG_MAX b2
                   (" (" +++ file +++ ":" +++ string_of_Z (entry_line entry)
                    +++ ")")
            else b2
        | None => b2
        end in
      let log_str := aprintf LOG_MAX b3 (String "010" EmptyString) in
      do _ <-
        match sink_file sk with
        | Some f =>
            if env_fputs_ok env then
              do _ <- emit_event (ev_fputs f log_str);
              (* the result of fflush, [env_fflush_ok env], is dropped *)
              emit_event (ev_fflush f)
            else
              do _ <- emit_event
                        (ev_perror
                           (snprintf TEXT_MAX
                              ("Cannot write log output to '"
                               +++ sink_name sk +++ "'")));
              exit 1
        | None => ret tt
        end;
      if sink_syslog sk then
        if (lvl_syslog level =? -1)%Z then ret tt
        else emit_event (ev_syslog (lvl_syslog level) log_str)
      else ret tt
  end.

Definition uint64_incr (n : Z) : Z := ((n + 1) mod 2 ^ 64)%Z.

(** [DEQ_INSERT_TAIL(entries, entry)] followed by the eviction of the head
    when the size exceeds [LIST_MAX]. *)
Definition append_entry (entry : qd_log_entry_t) (l : list qd_log_entry_t)
  : list qd_log_entry_t :=
  let l' := l ++ [entry] in
  if (LIST_MAX <? length l')%nat then tail l' else l'.

(** [text] is the message as [fmt] and [ap] format it; [vsnprintf] keeps at
    most [TEXT_MAX - 1] characters of it. *)
Definition qd_vlog_impl (source : option nat) (level : Z)
    (file : option string) (line : Z) (text : string) (env : emit_env)
  : M unit :=
  (* Count this log-event in this log's histogram
     whether or not this log is currently enabled. *)
  do level_index <- level_index_for_bit level;
  do _ <-
    (if (level_index <? 0)%Z then qd_error_clear
     else
       do h <- deref source;
       do src <- load_source h;
       let i := Z.to_nat level_index in
       do count <- deref (src_severity_histogram src !! i);
       store_source h
         (with_src_severity_histogram
            (<[i := uint64_incr count]> (src_severity_histogram src))));
  do enabled <- qd_log_enabled source level;
  if negb enabled then ret tt
  else
    do h <- deref source;
    do src <- load_source h;
    let entry :=
      mk_entry (src_module src) level file line (env_time env)
        (snprintf TEXT_MAX text) in
    do _ <- write_log h entry env;
    (* Bounded buffer of log entries, keep most recent. *)
    modify (fun s => with_entries (append_entry entry (entries s)) s).

Definition qd_log_impl := qd_vlog_impl.

(** ** The recent-entries query *)

(** The Python values the query builds; a Python list is a [list]. *)
Inductive PyObject :=
| Py_None
| PyString (s : string)
| PyLong (z : Z).

Definition py_entry_of (entry : qd_log_entry_t) : list PyObject :=
    [ PyString (entry_module entry);
      match level_name (entry_level entry) with
      | Some level => PyString level
      | None => Py_None
      end;
      PyString (entry_text entry);
      match entry_file entry with
      | Some file => PyString file
      | None => Py_None
      end;
      match entry_file entry with
      | Some _ => PyLong (entry_line entry)
      | None => Py_None
      end;
      PyLong (tv_sec (entry_time entry)) ].

(** The [while (entry && limit)] loop: [prevs] is the entry the loop is at
    followed by its [DEQ_PREV] chain, [py_list] the Python list so far
    ([PyList_Insert(list, 0, py_entry)] puts the entry in front). *)
Fixpoint recent_loop (prevs : list qd_log_entry_t) (limit : Z)
    (py_list : list (list PyObject)) : list (list PyObject) :=
  match prevs with
  | [] => py_list
  | entry :: prevs' =>
      if (limit =? 0)%Z then py_list
      else
        recent_loop prevs' (if (0 <? limit)%Z then (limit - 1)%Z else limit)
          (py_entry_of entry :: py_list)
  end.

(** Return the log buffer up to limit as a python list.  [py_err] tells
    whether a Python error is pending at the call ([PyErr_Occurred]); the
    Python allocations of the loop are taken to succeed.  [None] is the null
    result. *)
Definition qd_log_recent_py (py_err : bool) (limit : Z)
  : M (option (list (list PyObject))) :=
  if py_err then ret None
  else
    do s <- get;
    ret (Some (recent_loop (reverse (entries s)) limit [])).

(** ** Initialisation *)

Definition initial_state : state :=
  mk_state [] None None [] 0 [] EmptyString None [] [].

(** The initialisation of a process that has not initialised logging
    before, where [default_log_source] is null.  Called a second time the C
    code empties the source list and goes on with the old default source,
    which is then in no list; a handle is a position in the source list
    here, so the model has no such state and faults instead. *)
Definition qd_log_initialize : M unit :=
  do _ <- modify (fun s =>
            with_entries [] (with_source_list [] (with_sink_list [] s)));
  (* Set up level_names for use in error messages. *)
  do _ <- modify
            (with_level_names
               (fold_left
                  (fun buf i =>
                     aprintf TEXT_MAX buf (", " +++ lvl_name (levels_at i)))
                  (seq (NONE + 1) (N_LEVELS - (NONE + 1)))
                  (aprintf TEXT_MAX EmptyString (lvl_name (levels_at NONE)))));
  do d <- qd_log_source SOURCE_DEFAULT;
  do _ <- modify (with_default_log_source (Some d));
  do _ <- store_source d (with_src_mask (lvl_mask (levels_at INFO)));
  do _ <- store_source d (with_src_timestamp 1);
  do _ <- store_source d (with_src_source 0);
  do sink <- log_sink_lh SINK_STDERR false;
  do _ <- store_source d (with_src_sink sink);
  do l <- qd_log_source SOURCE_LOGGING;
  modify (with_logging_log_source (Some l)).

(** ** The administrative update *)

(** Modelled from the spec: the entity record of [entity.h], which is not
    among the sources.  The update operation receives a record with the
    field [module] (required) and the optional fields [output] (sink name),
    [enable] (level spec string), [timestamp] and [source] (booleans); its
    values are already validated by the management layer. *)
Record qd_entity_t := mk_entity {
  ent_module : string;
  ent_output : option string;
  ent_enable : option string;
  ent_timestamp : option bool;
  ent_source : option bool
}.

(** [if (qd_error_code()) break;] in front of the rest [k] of the
    [do { .. } while (0)] body. *)
Definition QD_ERROR_BREAK (k : M unit) : M unit :=
  do code <- qd_error_code;
  match code with
  | QD_ERROR_NONE => k
  | _ => ret tt
  end.

Definition Z_of_bool (b : bool) : Z := if b then 1%Z else 0%Z.

Definition qd_log_entity (entity : qd_entity_t) (fopen_ok : bool)
  : M qd_error_t :=
  do _ <- qd_error_clear;
  do _ <-
    (let module := ent_module entity in
     QD_ERROR_BREAK (
     do src <- qd_log_source_lh module;
     let after_output : M unit :=
       do _ <-
         match ent_enable entity with
         | Some enable =>
             QD_ERROR_BREAK (
               do mask <- enable_mask enable;
               store_source src (with_src_mask mask))
         | None => ret tt
         end;
       QD_ERROR_BREAK (
       do _ <-
         match ent_timestamp entity with
         | Some b => store_source src (with_src_timestamp (Z_of_bool b))
         | None => ret tt
         end;
       QD_ERROR_BREAK (
       do _ <-
         match ent_source entity with
         | Some b => store_source src (with_src_source (Z_of_bool b))
         | None => ret tt
         end;
       QD_ERROR_BREAK (ret tt))) in
     match ent_output entity with
     | Some output =>
         QD_ERROR_BREAK (
         do sink <- log_sink_lh output fopen_ok;
         QD_ERROR_BREAK (
         do cur <- load_source src;
         (* DEFAULT source may already have a sink, so free that sink first *)
         do _ <- log_sink_free_lh (src_sink cur);
         do _ <- store_source src (with_src_sink sink);
         do s <- get;
         do a <- deref sink;
         do sk <- deref (sink_at (sink_list s) a);
         do _ <-
           (if sink_syslog sk then store_source src (with_src_timestamp 0)
            else ret tt);
         after_output))
     | None => after_output
     end));
  qd_error_code.

(** ** Shutdown *)

Definition qd_log_max_len : Z := Z.of_nat TEXT_MAX.

(** [entry] is the position of the record in the history. *)
Definition qd_log_entry_free_lh (entry : nat) : M unit :=
  modify (fun s => with_entries (delete entry (entries s)) s).

(** [DEQ_REMOVE_HEAD] drops the head of the source list whatever [src] is;
    the record of [src] outlives it and is read for its sink.  With the head
    gone the handles of the other sources are one less each. *)
Definition qd_log_source_free_lh (src : nat) : M unit :=
  do cur <- load_source src;
  do _ <- modify (fun s => with_source_list (tail (source_list s)) s);
  log_sink_free_lh (src_sink cur).

(** The three [while (DEQ_HEAD(..))] loops of [qd_log_finalize].  [fuel]
    bounds the number of iterations; a loop that runs out of it has no
    result. *)
Fixpoint free_all_sources (fuel : nat) : M unit :=
  do s <- get;
  match source_list s with
  | [] => ret tt
  | _ :: _ =>
      match fuel with
      | O => fault
      | S fuel' => do _ <- qd_log_source_free_lh 0; free_all_sources fuel'
      end
  end.

Fixpoint free_all_entries (fuel : nat) : M unit :=
  do s <- get;
  match entries s with
  | [] => ret tt
  | _ :: _ =>
      match fuel with
      | O => fault
      | S fuel' => do _ <- qd_log_entry_free_lh 0; free_all_entries fuel'
      end
  end.

Fixpoint free_all_sinks (fuel : nat) : M unit :=
  do s <- get;
  match sink_list s with
  | [] => ret tt
  | (a, _) :: _ =>
      match fuel with
      | O => fault
      | S fuel' => do _ <- log_sink_free_lh (Some a); free_all_sinks fuel'
      end
  end.

Definition qd_log_finalize (fuel : nat) : M unit :=
  do _ <- free_all_sources fuel;
  do _ <- free_all_entries fuel;
  free_all_sinks fuel.

(** ** Statistics *)

(** Modelled from the spec: the attribute setters of [entity.h], which is
    not among the sources.  A refreshed entity is the list of the attributes
    set on it, in the order they are set. *)
Inductive attr_value :=
| attr_long (v : Z)
| attr_string (v : string).

Definition attrs := list (string * attr_value).

Definition qd_entity_set_long (entity : attrs) (key : string) (v : Z) : attrs :=
  entity ++ [(key, attr_long v)].

Definition qd_entity_set_string (entity : attrs) (key : string) (v : string)
  : attrs :=
  entity ++ [(key, attr_string v)].

(** The conversion of a [uint64_t] counter to the [long] the setter takes. *)
Definition long_of_uint64 (v : Z) : Z :=
  if (v <? 2 ^ 63)%Z then v else (v - 2 ^ 64)%Z.

Definition qd_entity_refresh_logStats (entity : attrs) (impl : nat)
  : M (attrs * qd_error_t) :=
  do log <- load_source impl;
  let identity_str := snprintf (TEXT_MAX - 1) ("logStats/" +++ src_module log) in
  let count level : M Z :=
    do c <- deref (src_severity_histogram log !! LEVEL_INDEX level);
    ret (long_of_uint64 c) in
  do c <- count TRACE;
  let entity := qd_entity_set_long entity "traceCount" c in
  do c <- count DEBUG;
  let entity := qd_entity_set_long entity "debugCount" c in
  do c <- count INFO;
  let entity := qd_entity_set_long entity "infoCount" c in
  do c <- count NOTICE;
  let entity := qd_entity_set_long entity "noticeCount" c in
  do c <- count WARNING;
  let entity := qd_entity_set_long entity "warningCount" c in
  do c <- count ERROR;
  let entity := qd_entity_set_long entity "errorCount" c in
  do c <- count CRITICAL;
  let entity := qd_entity_set_long entity "criticalCount" c in
  let entity := qd_entity_set_string entity "name" (src_module log) in
  let entity := qd_entity_set_string entity "identity" identity_str in
  ret (entity, QD_ERROR_NONE).

(** ** Vocabulary: enable strings *)

Fixpoint lower (s : string) : string :=
  match s with
  | EmptyString => EmptyString
  | String c s' => String (tolower c) (lower s')
  end.

Fixpoint all_delims (delim s : string) : bool :=
  match s with
  | EmptyString => true
  | String c s' => strchr delim c && all_delims delim s'
  end.

Fixpoint no_delims (delim s : string) : bool :=
  match s with
  | EmptyString => true
  | String c s' => negb (strchr delim c) && no_delims delim s'
  end.

(** One token of an enable string as the specification describes it: a
    level name in any letter-case, an optional [+], and the separators
    written after it. *)
Record enable_token := mk_token {
  tok_level : nat;
  tok_word : string;
  tok_plus : bool;
  tok_seps : string
}.

Definition token_text (t : enable_token) : string :=
  tok_word t +++ (if tok_plus t then "+" else "").

Fixpoint enable_text (toks : list enable_token) : string :=
  match toks with
  | [] => EmptyString
  | t :: rest => token_text t +++ tok_seps t +++ enable_text rest
  end.

(** The word spells the name of a level from "none" to "critical", and only
    separators follow the token. *)
Definition token_ok (t : enable_token) : Prop :=
  (NONE <= tok_level t <= CRITICAL)%nat /\
  lower (tok_word t) = lvl_name (levels_at (tok_level t)) /\
  all_delims SEPARATORS (tok_seps t) = true.

(** Every token but the last is followed by at least one separator. *)
Fixpoint tokens_ok (toks : list enable_token) : Prop :=
  match toks with
  | [] => True
  | t :: rest =>
      token_ok t /\ (rest <> [] -> tok_seps t <> EmptyString) /\ tokens_ok rest
  end.

(** What the specification lets a token contribute: its level's bit, or with
    [+] the at-or-above mask [(all bits) & ~(bit - 1)]. *)
Definition contribution (t : enable_token) : Z :=
  let bit := lvl_bit (levels_at (tok_level t)) in
  if tok_plus t then Z.land ALL_BITS (Z.lnot (bit - 1)) else bit.


(** ** Vocabulary: well-formed states *)

(** The source the default-source pointer refers to. *)
Definition default_source (s : state) : option qd_log_source_t :=
  match default_log_source s with
  | Some d => source_list s !! d
  | None => None
  end.

(** A sink pointer held by a source is null or refers to a registered
    sink. *)
Definition sink_ref_ok (s : state) (sink : option nat) : Prop :=
  match sink with
  | Some a => is_Some (sink_at (sink_list s) a)
  | None => True
  end.

Definition source_ok (s : state) (src : qd_log_source_t) : Prop :=
  length (src_severity_histogram src) = N_LEVEL_INDICES /\
  sink_ref_ok s (src_sink src).

(** The default source exists, every source has its seven counters and a
    sink pointer that is null or valid, and the history is within its
    capacity.  Initialisation establishes this ([qd_log_initialize_wf]);
    emissions and resets keep it ([qd_vlog_impl_wf],
    [qd_log_source_reset_wf]). *)
Definition wf_state (s : state) : Prop :=
  is_Some (default_source s) /\
  Forall (source_ok s) (source_list s) /\
  (length (entries s) <= LIST_MAX)%nat.

#[global] Instance sink_ref_ok_dec s sink : Decision (sink_ref_ok s sink).
Proof. destruct sink; simpl; apply _. Defined.

#[global] Instance source_ok_dec s src : Decision (source_ok s src).
Proof. unfold source_ok. apply _. Defined.

#[global] Instance wf_state_dec s : Decision (wf_state s).
Proof. unfold wf_state. apply _. Defined.

(** ** Vocabulary: severities and fallback resolution *)

Definition severity_bits : list Z :=
  [ QD_LOG_TRACE; QD_LOG_DEBUG; QD_LOG_INFO; QD_LOG_NOTICE; QD_LOG_WARNING;
    QD_LOG_ERROR; QD_LOG_CRITICAL ].

(** A valid severity is one of the seven bit flags. *)
Definition valid_level (level : Z) : Prop := In level severity_bits.

(** The histogram bucket of a severity: 0 for TRACE up to 6 for CRITICAL. *)
Definition bucket_of (level : Z) : nat := Z.to_nat (Z.log2 level).

(** A tri-state [int] field: -1 means not set. *)
Definition tri_state (v : Z) : option Z :=
  if (v =? -1)%Z then None else Some v.

(** Own value if set, else the default source's. *)
Definition resolve {A} (own : option A) (fallback : A) : A :=
  match own with
  | Some v => v
  | None => fallback
  end.

Definition effective_mask (src dsrc : qd_log_source_t) : Z :=
  resolve (tri_state (src_mask src)) (src_mask dsrc).

Definition effective_timestamp (src dsrc : qd_log_source_t) : bool :=
  negb (resolve (tri_state (src_timestamp src)) (src_timestamp dsrc) =? 0)%Z.

Definition effective_display (src dsrc : qd_log_source_t) : bool :=
  negb (resolve (tri_state (src_source src)) (src_source dsrc) =? 0)%Z.

Definition effective_sink (src dsrc : qd_log_source_t) : option nat :=
  match src_sink src with
  | Some a => Some a
  | None => src_sink dsrc
  end.

Definition passes_filter (level : Z) (src dsrc : qd_log_source_t) : bool :=
  negb (Z.land level (effective_mask src dsrc) =? 0)%Z.

(** ** Vocabulary: what one emission does *)

(** The level whose name and priority a line is written with: the level of
    the bit, "info" when the bit names none. *)
Definition line_level (bit : Z) : level_t :=
  let i := scan_levels (fun lv => (lvl_bit lv =? bit)%Z) 0 N_LEVELS in
  if (i =? N_LEVELS)%nat then levels_at INFO else levels_at i.

Definition known_bit (bit : Z) : bool :=
  negb (scan_levels (fun lv => (lvl_bit lv =? bit)%Z) 0 N_LEVELS =? N_LEVELS)%nat.

(** The output line: optional leading timestamp, then
    [<module> (<level-name>) <text>], then optional trailing
    [ (<file>:<line>)] if call-site display is enabled and a file was
    supplied, then a newline. *)
Definition render_line (with_time with_site : bool) (entry : qd_log_entry_t)
    (time_text : string) : string :=
  let head :=
    if with_time then aprintf LOG_MAX EmptyString (time_text +++ " ")
    else EmptyString in
  let body :=
    aprintf LOG_MAX head
      (entry_module entry +++ " ("
       +++ lvl_name (line_level (entry_level entry)) +++ ") "
       +++ entry_text entry) in
  let site :=
    match entry_file entry with
    | Some file =>
        if with_site
        then aprintf LOG_MAX body
               (" (" +++ file +++ ":" +++ string_of_Z (entry_line entry) +++ ")")
        else body
    | None => body
    end in
  aprintf LOG_MAX site (String "010" EmptyString).

(** The I/O a successful dispatch of [line] to a sink consists of. *)
Definition sink_events (sk : log_sink_t) (bit : Z) (line : string)
  : list event :=
  match sink_file sk with
  | Some f => [ev_fputs f line; ev_fflush f]
  | None => []
  end
  ++
  (if sink_syslog sk then [ev_syslog (lvl_syslog (line_level bit)) line]
   else []).

(** The record an emission puts in the history. *)
Definition entry_of (src : qd_log_source_t) (level : Z) (file : option string)
    (line : Z) (text : string) (env : emit_env) : qd_log_entry_t :=
  mk_entry (src_module src) level file line (env_time env)
    (snprintf TEXT_MAX text).

(** The state after the histogram step of an emission. *)
Definition count_event (h : nat) (level : Z) (s : state) : state :=
  if bool_decide (valid_level level) then
    match source_list s !! h with
    | Some src =>
        let hist := src_severity_histogram src in
        let i := bucket_of level in
        with_source_list
          (<[h := with_src_severity_histogram
                    (<[i := uint64_incr (hist !!! i)]> hist) src]>
             (source_list s)) s
    | None => s
    end
  else with_qd_error_slot None s.

(** The state after the level lookup of [write_log]: a bit that names no
    level leaves the error slot cleared. *)
Definition after_level_lookup (bit : Z) (s : state) : state :=
  if known_bit bit then s else with_qd_error_slot None s.

(** A sequence of emissions. *)
Record emit_call := mk_call {
  call_source : nat;
  call_level : Z;
  call_file : option string;
  call_line : Z;
  call_text : string;
  call_env : emit_env
}.

Definition emit (c : emit_call) : M unit :=
  qd_vlog_impl (Some (call_source c)) (call_level c) (call_file c)
    (call_line c) (call_text c) (call_env c).

Fixpoint emit_all (calls : list emit_call) : M unit :=
  match calls with
  | [] => ret tt
  | c :: calls' => do _ <- emit c; emit_all calls'
  end.

(** The history record of a call, given the state it is issued in. *)
Definition call_entry (s : state) (c : emit_call) : option qd_log_entry_t :=
  match source_list s !! call_source c with
  | Some src =>
      Some (entry_of src (call_level c) (call_file c) (call_line c)
              (call_text c) (call_env c))
  | None => None
  end.

(** The call is let through by the filter in force in [s]. *)
Definition call_passes (s : state) (c : emit_call) : bool :=
  match source_list s !! call_source c, default_source s with
  | Some src, Some dsrc => passes_filter (call_level c) src dsrc
  | _, _ => false
  end.

(** The state a call ends in, whether it returns or exits. *)
Definition final_state {A} (r : result A) : option state :=
  match r with
  | Ret _ s => Some s
  | Exit _ s => Some s
  | Fault => None
  end.

(** The outcome of [write_log] on a sink: the line goes to the stream and to
    the system log, or the failed write ends the process. *)
Definition dispatch (sk : log_sink_t) (entry : qd_log_entry_t)
    (with_time with_site : bool) (env : emit_env) (s : state) : result unit :=
  let line := render_line with_time with_site entry (env_time_text env) in
  let s' := after_level_lookup (entry_level entry) s in
  match sink_file sk with
  | Some f =>
      if env_fputs_ok env then
        Ret tt
          (with_io_trace
             (io_trace s ++ sink_events sk (entry_level entry) line) s')
      else
        Exit 1
          (with_io_trace
             (io_trace s
              ++ [ev_perror
                    (snprintf TEXT_MAX
                       ("Cannot write log output to '"
                        +++ sink_name sk +++ "'"))]) s')
  | None =>
      Ret tt
        (with_io_trace
           (io_trace s ++ sink_events sk (entry_level entry) line) s')
  end.

(** One emission in closed form: the histogram step, the filter, the
    dispatch to the effective sink and the history append. *)
Definition emit_result (h : nat) (level : Z) (file : option string) (line : Z)
    (text : string) (env : emit_env) (src dsrc : qd_log_source_t) (s : state)
  : result unit :=
  let s1 := count_event h level s in
  if passes_filter level src dsrc then
    let entry := entry_of src level file line text env in
    let keep s' := with_entries (append_entry entry (entries s')) s' in
    match effective_sink src dsrc with
    | None => Ret tt (keep s1)
    | Some a =>
        match sink_at (sink_list s1) a with
        | None => Fault
        | Some sk =>
            match dispatch sk entry (effective_timestamp src dsrc)
                    (effective_display src dsrc) env s1 with
            | Ret _ s2 => Ret tt (keep s2)
            | Exit code s2 => Exit code s2
            | Fault => Fault
            end
        end
    end
  else Ret tt s1.

(** Two source records that differ at most in their histograms. *)
Definition same_settings (a b : qd_log_source_t) : Prop :=
  src_module a = src_module b /\ src_mask a = src_mask b /\
  src_timestamp a = src_timestamp b /\ src_source a = src_source b /\
  src_sink a = src_sink b.

(** Every source of [s] is still there in [s'] with the same settings, and
    the default source is the same one. *)
Definition settings_preserved (s s' : state) : Prop :=
  default_log_source s' = default_log_source s /\
  forall j x,
    source_list s !! j = Some x ->
    exists x', source_list s' !! j = Some x' /\ same_settings x x'.

(** ** Vocabulary: the recent-entries query *)

(** How many entries a query with [limit] selects from a history of [size]
    entries, going by the code: none for zero, [min limit size] for a
    positive limit, all for a negative one. *)
Definition recent_count (limit : Z) (size : nat) : nat :=
  if (limit <? 0)%Z then size else Nat.min (Z.to_nat limit) size.

(** The [k] most recent entries of a history, oldest first. *)
Definition most_recent (k : nat) (l : list qd_log_entry_t)
  : list qd_log_entry_t :=
  drop (length l - k) l.

(** ** Vocabulary: the sink registry *)

(** No two registered sinks have the same name, in terms of the registry's
    own lookup. *)
Fixpoint names_unique (l : list (nat * log_sink_t)) : Prop :=
  match l with
  | [] => True
  | p :: l' => find_sink l' (sink_name p.2) = None /\ names_unique l'
  end.

(** The sink registry is keyed by name and by address, every registered
    sink is held at least once, and [sink_next] is beyond every address in
    use.  Initialisation establishes this ([qd_log_initialize_wf]); acquire
    and release keep it ([log_sink_lh_registry_ok],
    [log_sink_free_lh_registry_ok]). *)
Definition registry_ok (s : state) : Prop :=
  NoDup (map fst (sink_list s)) /\
  names_unique (sink_list s) /\
  Forall (fun p => (1 <= sink_refcount p.2)%Z /\ (p.1 < sink_next s)%nat)
    (sink_list s).

#[global] Instance names_unique_dec l : Decision (names_unique l).
Proof. induction l as [|p l IH]; simpl; apply _. Defined.

#[global] Instance registry_ok_dec s : Decision (registry_ok s).
Proof. unfold registry_ok. apply _. Defined.

(** The I/O that closes the resource of a sink: streams other than the
    standard-error stream are closed, so is the system log. *)
Definition close_events (sk : log_sink_t) : list event :=
  match sink_file sk with
  | Some f => if is_stderr f then [] else [ev_fclose f]
  | None => []
  end
  ++ (if sink_syslog sk then [ev_closelog] else []).

(** Acquiring [name] afresh succeeds: it names a standard stream or the
    system log, or the file opens. *)
Definition sink_opens (name : string) (fopen_ok : bool) : bool :=
  (strcmp name SINK_STDERR =? 0)%Z || (strcmp name SINK_STDOUT =? 0)%Z
  || (strcmp name SINK_SYSLOG =? 0)%Z || fopen_ok.

(** ** Vocabulary: enable strings that fail *)

(** The token resolves to a level, by the test of [level_for_name]. *)
Definition token_plus (token : string) : nat :=
  match last_char token with
  | Some c => if Ascii.eqb c "+" then 1 else 0
  | None => 0
  end.

Definition recognized (token : string) : bool :=
  negb (scan_levels
          (fun lv =>
             (strncasecmp (lvl_name lv) token
                (strlen token - token_plus token) =? 0)%Z)
          0 N_LEVELS =? N_LEVELS)%nat.

(** The first token of an enable string that resolves to no level. *)
Definition first_unrecognized (enable : string) : option string :=
  List.find (fun token => negb (recognized token))
    (strtok_all enable SEPARATORS).

Definition unknown_level_message (token names : string) : string :=
  "'" +++ token +++ "' is not a valid log level. Should be one of {"
  +++ names +++ "}.".

(** ** Vocabulary: level lookups *)

(** [p] is a prefix of [s]. *)
Fixpoint is_prefix (p s : string) : bool :=
  match p, s with
  | EmptyString, _ => true
  | String a p', String b s' => Ascii.eqb a b && is_prefix p' s'
  | String _ _, EmptyString => false
  end.

(** No character of the string is the terminator. *)
Fixpoint no_nul (s : string) : bool :=
  match s with
  | EmptyString => true
  | String c s' => negb (Ascii.eqb c zero) && no_nul s'
  end.

(** The first level of the table whose name starts with [p]. *)
Definition first_level_with_prefix (p : string) : option level_t :=
  List.find (fun lv => is_prefix p (lvl_name lv)) levels.

(** No character of the string is a percent sign. *)
Fixpoint no_percent (s : string) : bool :=
  match s with
  | EmptyString => true
  | String c s' => negb (Ascii.eqb c "%") && no_percent s'
  end.

(** The message [log_sink_lh] leaves when a file does not open: what
    [qd_error] makes of the composed text, which it is given as its format;
    [None] where that is undefined. *)
Definition open_failure_message (name : string) : option string :=
  printf_no_args
    (snprintf TEXT_MAX ("Failed to open log file '" +++ name +++ "'")).

(** ** Vocabulary: the history and its query *)

(** Every record of the history has a text of at most [TEXT_MAX - 1]
    characters. *)
Definition texts_bounded (l : list qd_log_entry_t) : Prop :=
  Forall (fun e => (strlen (entry_text e) <= TEXT_MAX - 1)%nat) l.

(** The level field of a tuple the query returns. *)
Definition level_field (row : list PyObject) : PyObject := nth 1 row Py_None.

(** ** Vocabulary: the administrative update *)

(** The part of [qd_log_entity] that follows the [output] field: the
    [enable], [timestamp] and [source] fields, each behind its
    [QD_ERROR_BREAK]. *)
Definition entity_fields (entity : qd_entity_t) (src : nat) : M unit :=
  do _ <-
    match ent_enable entity with
    | Some enable =>
        QD_ERROR_BREAK (
          do mask <- enable_mask enable;
          store_source src (with_src_mask mask))
    | None => ret tt
    end;
  QD_ERROR_BREAK (
  do _ <-
    match ent_timestamp entity with
    | Some b => store_source src (with_src_timestamp (Z_of_bool b))
    | None => ret tt
    end;
  QD_ERROR_BREAK (
  do _ <-
    match ent_source entity with
    | Some b => store_source src (with_src_source (Z_of_bool b))
    | None => ret tt
    end;
  QD_ERROR_BREAK (ret tt))).

(** The enable string of a request, if any, holds recognized tokens only. *)
Definition enable_ok (enable : option string) : Prop :=
  match enable with
  | Some e => first_unrecognized e = None
  | None => True
  end.

(** [s'] differs from [s] in its source list at most. *)
Definition rest_same (s s' : state) : Prop :=
  default_log_source s' = default_log_source s /\
  logging_log_source s' = logging_log_source s /\
  sink_list s' = sink_list s /\ sink_next s' = sink_next s /\
  entries s' = entries s /\ level_names s' = level_names s /\
  qd_error_slot s' = qd_error_slot s /\ entity_cache s' = entity_cache s /\
  io_trace s' = io_trace s.

(** What the [enable], [timestamp] and [source] fields of a request make of
    a source record. *)
Definition fields_applied (s : state) (enable : option string)
    (timestamp source : option bool) (src src' : qd_log_source_t) : Prop :=
  match enable with
  | Some e => enable_mask e s = Ret (src_mask src') s
  | None => src_mask src' = src_mask src
  end /\
  src_source src'
  = match source with
    | Some b => Z_of_bool b
    | None => src_source src
    end /\
  src_module src' = src_module src /\
  src_syslog src' = src_syslog src /\
  src_severity_histogram src' = src_severity_histogram src.


(** ** Vocabulary: statistics *)

(** The value of an attribute of a refreshed entity. *)
Definition attr (key : string) (entity : attrs) : option attr_value :=
  match List.find (fun p => String.eqb (fst p) key) entity with
  | Some p => Some (snd p)
  | None => None
  end.

(** The attribute that counts the events of a severity. *)
Definition count_key (level : Z) : string :=
  if (level =? QD_LOG_TRACE)%Z then "traceCount"
  else if (level =? QD_LOG_DEBUG)%Z then "debugCount"
  else if (level =? QD_LOG_INFO)%Z then "infoCount"
  else if (level =? QD_LOG_NOTICE)%Z then "noticeCount"
  else if (level =? QD_LOG_WARNING)%Z then "warningCount"
  else if (level =? QD_LOG_ERROR)%Z then "errorCount"
  else "criticalCount".

(** ** Vocabulary: shutdown *)

(** The number of sources that hold the sink at [a]. *)
Definition holders (a : nat) (l : list qd_log_source_t) : nat :=
  length (List.filter (fun src => bool_decide (src_sink src = Some a)) l).

(** Every registered sink counts at least the sources that hold it. *)
Definition refcounts_cover (s : state) : Prop :=
  Forall (fun p => (Z.of_nat (holders (fst p) (source_list s))
                    <= sink_refcount (snd p))%Z)
    (sink_list s).

(** The I/O that closes the resources of all sinks of a registry. *)
Definition closes (l : list (nat * log_sink_t)) : list event :=
  concat (map (fun p => close_events (snd p)) l).

(** The number of releases that empty a registry. *)
Definition total_refs (l : list (nat * log_sink_t)) : nat :=
  sum_list (map (fun p => Z.to_nat (sink_refcount (snd p))) l).

#[global] Instance refcounts_cover_dec s : Decision (refcounts_cover s).
Proof. unfold refcounts_cover. apply _. Defined.

(** ** Vocabulary: sound reference counts *)

(** The state is well formed, its registry is in order and every reference
    count covers the sources that hold the sink. *)
Definition sound (s : state) : Prop :=
  wf_state s /\ registry_ok s /\ refcounts_cover s.

#[global] Instance sound_dec s : Decision (sound s).
Proof. unfold sound. apply _. Defined.

(** A step that leaves the registry, the history and the default pointer
    alone and at most replaces the record of the source [h] by one with the
    same sink pointer and as many counters. *)
Definition settings_step (h : nat) (s s' : state) : Prop :=
  default_log_source s' = default_log_source s /\
  sink_list s' = sink_list s /\ sink_next s' = sink_next s /\
  entries s' = entries s /\
  (source_list s' = source_list s \/
   exists x x',
     source_list s !! h = Some x /\
     source_list s' = <[h := x']> (source_list s) /\
     src_sink x' = src_sink x /\
     length (src_severity_histogram x')
     = length (src_severity_histogram x)).

End Log.

(** ** Concrete inputs *)

(** A platform to run the model on: 2048-byte texts and an [aprintf] that
    appends and truncates to the buffer size. *)
Definition reference_platform : platform :=
  {| TEXT_MAX := 2048;
     aprintf := fun size buf text => snprintf size (buf +++ text) |}.

(** The state a computation ends in, started in [s]. *)
Definition run {A} (m : M A) (s : state) : state :=
  match m s with
  | Ret _ s' => s'
  | Exit _ s' => s'
  | Fault => s
  end.

(** After [qd_log_initialize]: the sources DEFAULT (handle 0, mask 124,
    sink "stderr") and LOGGING (handle 1, nothing set). *)
Definition booted : state :=
  run (qd_log_initialize (pf := reference_platform)) initial_state.

(** A source ROUTER (handle 2) with the mask of "info". *)
Definition router_info : state :=
  run (qd_log_entity (pf := reference_platform)
         (mk_entity "ROUTER" None (Some "info") None None) false) booted.

(** A source ROUTER (handle 2) that holds the sink "stdout" (address 1). *)
Definition router_stdout : state :=
  run (qd_log_entity (pf := reference_platform)
         (mk_entity "ROUTER" (Some "stdout") None None None) false) booted.

(** DEFAULT given the mask of "trace+" after the other sources were
    created. *)
Definition default_trace : state :=
  run (qd_log_entity (pf := reference_platform)
         (mk_entity "DEFAULT" None (Some "trace+") None None) false) booted.

(** The default source reset: it has no mask and no sink any more. *)
Definition default_reset : state :=
  run (qd_log_source_reset "DEFAULT") booted.

Definition sample_env : emit_env :=
  mk_env (mk_timeval 1700000000 0) "2023-11-14 22:13:20.000 +0000" true true.

Definition sample_call (source : nat) (level : Z) (text : string)
  : emit_call :=
  mk_call source level (Some "router.c") 42 text sample_env.

(** The records of DEFAULT and LOGGING in [booted]. *)
Definition booted_default : qd_log_source_t :=
  mk_source "DEFAULT" 124 1 0 false (Some 0%nat) (replicate N_LEVEL_INDICES 0%Z).

Definition booted_logging : qd_log_source_t :=
  mk_source "LOGGING" (-1) (-1) (-1) false None (replicate N_LEVEL_INDICES 0%Z).

(** The sink "stderr" as registered by initialisation. *)
Definition stderr_sink : log_sink_t := mk_sink 1 "stderr" false (Some stderr).

Definition stdout_sink : log_sink_t := mk_sink 1 "stdout" false (Some stdout).

(** Five TRACE events on LOGGING, which inherits the mask 124 (INFO and
    above) of DEFAULT. *)
Definition five_traces : list emit_call :=
  replicate 5 (sample_call 1 QD_LOG_TRACE "trace event").

(** 1001 INFO events on DEFAULT with the texts "0" .. "1000". *)
Definition numbered_calls : list emit_call :=
  map (fun i => sample_call 0 QD_LOG_INFO (string_of_Z (Z.of_nat i)))
    (seq 0 1001).

(** [booted] after one INFO event on DEFAULT. *)
Definition logged_once : state :=
  run (emit (pf := reference_platform) (sample_call 0 QD_LOG_INFO "m1"))
    booted.

(** The enable string [" Info+, DEBUG"] token by token. *)
Definition sample_tokens : list enable_token :=
  [ mk_token INFO "Info" true ", "; mk_token DEBUG "DEBUG" false "" ].

Definition failing_env : emit_env :=
  mk_env (mk_timeval 1700000000 0) "2023-11-14 22:13:20.000 +0000" false true.


(** The enable string ["debug;INFO+"]: the levels of [sample_tokens] in the
    other order and letter-case. *)
Definition swapped_tokens : list enable_token :=
  [ mk_token DEBUG "debug" false ";"; mk_token INFO "INFO" true "" ].

(** Three INFO events on DEFAULT. *)
Definition three_calls : list emit_call :=
  [ sample_call 0 QD_LOG_INFO "m1"; sample_call 0 QD_LOG_INFO "m2";
    sample_call 0 QD_LOG_INFO "m3" ].

(** [default_trace] after one TRACE event on DEFAULT, and the tuple the
    query returns for it. *)
Definition traced_once : state :=
  run (emit (pf := reference_platform) (sample_call 0 QD_LOG_TRACE "t"))
    default_trace.

Definition traced_row : list PyObject :=
  [ PyString "DEFAULT"; PyString "none"; PyString "t"; PyString "router.c";
    PyLong 42; PyLong 1700000000 ].

(** [booted] with the sink "stdout" acquired (address 1). *)
Definition stdout_acquired : state :=
  run (log_sink_lh (pf := reference_platform) "stdout" false) booted.

(** [booted] after a failed attempt to open a log file whose name holds a
    doubled percent sign. *)
Definition open_failed : state :=
  run (log_sink_lh (pf := reference_platform) "/tmp/100%%full.log" false)
    booted.

(** ROUTER, which held "stdout" in [router_stdout], given "stderr" (this
    releases "stdout"), and then "stdout" again. *)
Definition router_back_on_stderr : state :=
  run (qd_log_entity (pf := reference_platform)
         (mk_entity "ROUTER" (Some "stderr") None None None) false)
    router_stdout.

Definition router_stdout_again : state :=
  run (qd_log_entity (pf := reference_platform)
         (mk_entity "ROUTER" (Some "stdout") None None None) false)
    router_back_on_stderr.

(** A source ROUTER (handle 2) that logs to a file (sink address 1). *)
Definition router_file : state :=
  run (qd_log_entity (pf := reference_platform)
         (mk_entity "ROUTER" (Some "/var/log/router.log") None None None) true)
    booted.

Definition router_file_source : qd_log_source_t :=
  mk_source "ROUTER" (-1) (-1) (-1) false (Some 1%nat)
    (replicate N_LEVEL_INDICES 0%Z).

Definition router_file_sink : log_sink_t :=
  mk_sink 1 "/var/log/router.log" false
    (Some (fopened "/var/log/router.log")).

(** The disk is full: [fputs] stores the line in the buffer of the stream,
    [fflush] fails to write it. *)
Definition flush_failing_env : emit_env :=
  mk_env (mk_timeval 1700000000 0) "2023-11-14 22:13:20.000 +0000" true false.
Section Properties.

Context {pf : platform}.
(** ** Strings *)

Lemma append_nil (b : string) : EmptyString +++ b = b.
Proof. reflexivity. Qed.

Lemma append_cons (c : ascii) (a b : string) :
  String c a +++ b = String c (a +++ b).
Proof. reflexivity. Qed.

Lemma append_empty_r (s : string) : s +++ EmptyString = s.
Proof.
  induction s as [|c s IH]; [reflexivity |]. now rewrite append_cons, IH.
Qed.

Lemma append_assoc (a b c : string) : (a +++ b) +++ c = a +++ b +++ c.
Proof.
  induction a as [|x a IH]; [reflexivity |]. now rewrite !append_cons, IH.
Qed.

Lemma length_append (a b : string) :
  String.length (a +++ b) = (String.length a + String.length b)%nat.
Proof.
  induction a as [|x a IH]; [reflexivity |].
  rewrite append_cons. simpl. now rewrite IH.
Qed.

Lemma length_lower (s : string) : String.length (lower s) = String.length s.
Proof. induction s as [|c s IH]; simpl; [reflexivity | now rewrite IH]. Qed.

Lemma tolower_idem (c : ascii) : tolower (tolower c) = tolower c.
Proof. destruct c as [[] [] [] [] [] [] [] []]; reflexivity. Qed.

Lemma tolower_delim (c : ascii) :
  strchr SEPARATORS (tolower c) = strchr SEPARATORS c.
Proof. destruct c as [[] [] [] [] [] [] [] []]; reflexivity. Qed.

Lemma tolower_plus (c : ascii) :
  Ascii.eqb (tolower c) "+" = Ascii.eqb c "+".
Proof. destruct c as [[] [] [] [] [] [] [] []]; reflexivity. Qed.

(** Only the first [n] characters of the second string matter when it has
    that many. *)
Lemma strncasecmp_prefix (w sfx : string) : forall a,
  strncasecmp a (w +++ sfx) (String.length w) = strncasecmp a w (String.length w).
Proof.
  induction w as [|c w IH]; intros a; [reflexivity |].
  rewrite append_cons. simpl.
  destruct a as [|x a]; [reflexivity |].
  destruct (Ascii.eqb (tolower x) (tolower c)); [apply IH | reflexivity].
Qed.

Lemma strncasecmp_lower (b : string) : forall a n,
  strncasecmp a (lower b) n = strncasecmp a b n.
Proof.
  induction b as [|c b IH]; intros a n; [reflexivity |].
  destruct n as [|n]; [reflexivity |]. simpl.
  rewrite tolower_idem.
  destruct a as [|x a]; [reflexivity |].
  destruct (Ascii.eqb (tolower x) (tolower c)); [apply IH | reflexivity].
Qed.

Lemma scan_levels_ext (p q : level_t -> bool) :
  (forall lv, p lv = q lv) -> forall n i, scan_levels p i n = scan_levels q i n.
Proof.
  intros E n. induction n as [|n IH]; intros i; simpl; [reflexivity |].
  rewrite E, IH. reflexivity.
Qed.

Lemma last_char_lower (s : string) :
  last_char (lower s) = option_map tolower (last_char s).
Proof.
  induction s as [|c s IH]; [reflexivity |].
  destruct s as [|d s]; [reflexivity |].
  change (last_char (lower (String c (String d s))))
    with (last_char (lower (String d s))).
  rewrite IH. reflexivity.
Qed.

Lemma last_char_append_plus (w : string) :
  last_char (w +++ "+") = Some "+"%char.
Proof.
  induction w as [|c w IH]; [reflexivity |].
  rewrite append_cons. simpl. destruct (w +++ "+") eqn:E; [| exact IH].
  destruct w; discriminate.
Qed.




Lemma skip_delims_length (delim s : string) :
  (String.length (skip_delims delim s) <= String.length s)%nat.
Proof.
  induction s as [|c s IH]; [reflexivity |].
  cbn [skip_delims]. destruct (strchr delim c); cbn [String.length]; lia.
Qed.

Lemma split_token_snd (delim : string) (c : ascii) (s : string) :
  snd (split_token delim (String c s))
  = if strchr delim c then s else snd (split_token delim s).
Proof.
  cbn [split_token]. destruct (strchr delim c); [reflexivity |].
  now destruct (split_token delim s).
Qed.

Lemma split_token_length_le (delim s : string) :
  (String.length (snd (split_token delim s)) <= String.length s)%nat.
Proof.
  induction s as [|c s IH]; [reflexivity |].
  rewrite split_token_snd. cbn [String.length].
  destruct (strchr delim c); lia.
Qed.

Lemma split_token_length (delim s : string) :
  s <> EmptyString ->
  (String.length (snd (split_token delim s)) < String.length s)%nat.
Proof.
  destruct s as [|c s]; [congruence |]. intros _.
  rewrite split_token_snd. cbn [String.length].
  pose proof (split_token_length_le delim s).
  destruct (strchr delim c); lia.
Qed.

Lemma strtok_r_shorter (s delim token save : string) :
  strtok_r s delim = Some (token, save) ->
  (String.length save < String.length s)%nat.
Proof.
  unfold strtok_r. pose proof (skip_delims_length delim s) as Hl.
  destruct (skip_delims delim s) as [|c s'] eqn:E; [discriminate |].
  intros H. apply (f_equal (option_map snd)) in H.
  cbn [option_map] in H. injection H as <-.
  assert (Hne : String c s' <> EmptyString) by discriminate.
  apply (split_token_length delim) in Hne.
  change (String.length (snd (split_token delim (String c s')))
          < String.length s)%nat.
  lia.
Qed.

(** The fuel of [strtok_all] is enough: more fuel hands out the same
    tokens. *)
Lemma strtok_loop_fuel (delim : string) (n : nat) :
  forall (m : nat) (s : string),
    (String.length s < n)%nat -> (String.length s < m)%nat ->
    strtok_loop n s delim = strtok_loop m s delim.
Proof.
  induction n as [|n IH]; intros m s Hn Hm; [lia |].
  destruct m as [|m]; [lia |]. cbn [strtok_loop].
  destruct (strtok_r s delim) as [[token save]|] eqn:E; [| reflexivity].
  apply strtok_r_shorter in E. f_equal. apply IH; lia.
Qed.

Lemma no_delims_lower (w : string) :
  no_delims SEPARATORS (lower w) = no_delims SEPARATORS w.
Proof.
  induction w as [|c w IH]; [reflexivity |].
  cbn [lower no_delims]. now rewrite tolower_delim, IH.
Qed.

Lemma no_delims_append (a b : string) :
  no_delims SEPARATORS (a +++ b)
  = no_delims SEPARATORS a && no_delims SEPARATORS b.
Proof.
  induction a as [|c a IH]; [reflexivity |].
  rewrite append_cons. cbn [no_delims]. rewrite IH. now rewrite andb_assoc.
Qed.

Lemma skip_delims_lead (lead x : string) :
  all_delims SEPARATORS lead = true ->
  skip_delims SEPARATORS (lead +++ x) = skip_delims SEPARATORS x.
Proof.
  induction lead as [|c lead IH]; intros H; [reflexivity |].
  cbn [all_delims] in H. apply andb_prop in H as [Hc Hl].
  rewrite append_cons. cbn [skip_delims]. rewrite Hc. now apply IH.
Qed.

Lemma skip_delims_word (w x : string) :
  w <> EmptyString -> no_delims SEPARATORS w = true ->
  skip_delims SEPARATORS (w +++ x) = w +++ x.
Proof.
  destruct w as [|c w]; [congruence |]. intros _ H.
  cbn [no_delims] in H. apply andb_prop in H as [Hc _].
  rewrite append_cons. cbn [skip_delims].
  now destruct (strchr SEPARATORS c).
Qed.

Lemma split_token_word (w x : string) :
  no_delims SEPARATORS w = true ->
  split_token SEPARATORS (w +++ x)
  = (w +++ fst (split_token SEPARATORS x), snd (split_token SEPARATORS x)).
Proof.
  induction w as [|c w IH]; intros H.
  - rewrite !append_nil. now destruct (split_token SEPARATORS x).
  - cbn [no_delims] in H. apply andb_prop in H as [Hc Hw].
    rewrite !append_cons. cbn [split_token].
    destruct (strchr SEPARATORS c); [discriminate |].
    rewrite (IH Hw). reflexivity.
Qed.

(** The facts about a word that spells a level name. *)
Lemma level_word_facts (i : nat) (w : string) :
  (NONE <= i <= CRITICAL)%nat -> lower w = lvl_name (levels_at i) ->
  w <> EmptyString /\ no_delims SEPARATORS w = true /\
  (forall c, last_char w = Some c -> Ascii.eqb c "+" = false).
Proof.
  intros Hi E.
  assert (Hname : lower w <> EmptyString /\
                  no_delims SEPARATORS (lower w) = true /\
                  (forall c, last_char (lower w) = Some c ->
                             Ascii.eqb c "+" = false)).
  { rewrite E. unfold NONE, CRITICAL in Hi.
    do 9 (destruct i as [|i]; [try lia; repeat split; try discriminate;
           (intros c [= <-]; reflexivity) |]).
    lia. }
  destruct Hname as (Hne & Hnd & Hlast). repeat split.
  - intros ->. now apply Hne.
  - now rewrite <- no_delims_lower.
  - intros c Hc. rewrite <- tolower_plus. apply Hlast.
    rewrite last_char_lower, Hc. reflexivity.
Qed.

Lemma token_text_facts (t : enable_token) :
  token_ok t ->
  token_text t <> EmptyString /\ no_delims SEPARATORS (token_text t) = true.
Proof.
  intros (Hi & E & _).
  destruct (level_word_facts _ _ Hi E) as (Hne & Hnd & _).
  unfold token_text. split.
  - destruct (tok_word t); [congruence | discriminate].
  - rewrite no_delims_append, Hnd. now destruct (tok_plus t).
Qed.

(** The token loop hands out exactly the tokens that were written. *)
Lemma strtok_loop_enable_text (toks : list enable_token) :
  forall fuel lead,
    all_delims SEPARATORS lead = true -> tokens_ok toks ->
    (String.length (lead +++ enable_text toks) < fuel)%nat ->
    strtok_loop fuel (lead +++ enable_text toks) SEPARATORS
    = map token_text toks.
Proof.
  induction toks as [|t rest IH]; intros fuel lead Hlead Hok Hfuel.
  - destruct fuel as [|fuel]; [lia |]. simpl. unfold strtok_r.
    rewrite skip_delims_lead by assumption. reflexivity.
  - destruct Hok as (Ht & Hsep & Hrest).
    destruct (token_text_facts t Ht) as (Hne & Hnd).
    destruct fuel as [|fuel]; [lia |].
    cbn [strtok_loop enable_text map]. unfold strtok_r.
    rewrite skip_delims_lead by assumption.
    rewrite skip_delims_word by assumption.
    destruct (token_text t +++ tok_seps t +++ enable_text rest) eqn:Etxt.
    { destruct (token_text t); [congruence | discriminate]. }
    rewrite <- Etxt, split_token_word by assumption.
    rewrite length_append in Hfuel. cbn [enable_text] in Hfuel.
    rewrite !length_append in Hfuel.
    destruct Ht as (_ & _ & Hseps).
    destruct (tok_seps t) as [|c seps] eqn:Es.
    + destruct rest as [|t' rest]; [| exfalso; now apply Hsep].
      cbn. rewrite append_empty_r. f_equal.
      destruct fuel; reflexivity.
    + cbn [all_delims] in Hseps. apply andb_prop in Hseps as [Hc Hs].
      rewrite append_cons. cbn [split_token]. rewrite Hc. cbn [fst snd].
      rewrite append_empty_r. f_equal.
      apply IH; try assumption.
      rewrite length_append. simpl in Hfuel. lia.
Qed.

Lemma level_for_name_token (t : enable_token) (st : state) :
  token_ok t ->
  level_for_name (token_text t) (String.length (tok_word t)) st
  = Ret (Some (levels_at (tok_level t))) st.
Proof.
  intros (Hi & E & _). unfold level_for_name.
  rewrite (scan_levels_ext _
             (fun lv =>
                (strncasecmp (lvl_name lv) (lvl_name (levels_at (tok_level t)))
                   (String.length (lvl_name (levels_at (tok_level t)))) =? 0)%Z)).
  2:{ intros lv. unfold token_text. rewrite strncasecmp_prefix.
      rewrite <- E, length_lower. now rewrite strncasecmp_lower. }
  unfold NONE, CRITICAL in Hi.
  destruct (tok_level t) as [|i]; [lia |].
  do 8 (destruct i as [|i]; [reflexivity |]). lia.
Qed.

Lemma level_contribution (t : enable_token) :
  token_ok t ->
  (if tok_plus t then lvl_mask (levels_at (tok_level t))
   else lvl_bit (levels_at (tok_level t))) = contribution t.
Proof.
  intros (Hi & _). unfold contribution.
  destruct (tok_plus t); [| reflexivity].
  unfold NONE, CRITICAL in Hi.
  destruct (tok_level t) as [|i]; [lia |].
  do 8 (destruct i as [|i]; [reflexivity |]). lia.
Qed.

Lemma enable_mask_loop_tokens (toks : list enable_token) :
  forall mask st,
    Forall token_ok toks ->
    enable_mask_loop (map token_text toks) mask st
    = Ret (fold_left Z.lor (map contribution toks) mask) st.
Proof.
  induction toks as [|t rest IH]; intros mask st Hok; [reflexivity |].
  inversion Hok as [|? ? Ht Hrest]; subst.
  cbn [map enable_mask_loop fold_left]. unfold bind.
  destruct Ht as (Hi & E & Hs).
  destruct (level_word_facts _ _ Hi E) as (Hne & Hnd & Hlast).
  assert (Hlen :
    (strlen (token_text t)
     - match last_char (token_text t) with
       | Some c => if Ascii.eqb c "+" then 1 else 0
       | None => 0
       end)%nat = String.length (tok_word t)
    /\ (match last_char (token_text t) with
        | Some c => if Ascii.eqb c "+" then 1 else 0
        | None => 0
        end =? 1)%nat = tok_plus t).
  { unfold token_text, strlen. destruct (tok_plus t).
    - rewrite last_char_append_plus, length_append. simpl. split; [lia | easy].
    - rewrite append_empty_r.
      destruct (last_char (tok_word t)) as [c|] eqn:El.
      + rewrite (Hlast c eq_refl). split; [lia | easy].
      + split; [lia | easy]. }
  destruct Hlen as [-> ->].
  rewrite level_for_name_token by exact (conj Hi (conj E Hs)).
  rewrite level_contribution by exact (conj Hi (conj E Hs)).
  now apply IH.
Qed.

Lemma tokens_ok_Forall (toks : list enable_token) :
  tokens_ok toks -> Forall token_ok toks.
Proof.
  induction toks as [|t rest IH]; intros H; constructor.
  - apply H.
  - apply IH, H.
Qed.

(** C6.  [enable_mask] resolves the names of the levels "none" to
    "critical" in any letter-case and returns the bitwise OR of what the
    tokens of the enable string contribute: a bare name its level's bit, a
    name with [+] the at-or-above mask [(all bits) & ~(bit - 1)].  With the
    flags TRACE=1 .. CRITICAL=64 the string "info" gives 4 and "info+"
    gives 124. *)
Theorem enable_mask_spec (lead : string) (toks : list enable_token) (st : state) :
  all_delims SEPARATORS lead = true -> tokens_ok toks ->
  enable_mask (lead +++ enable_text toks) st
  = Ret (fold_left Z.lor (map contribution toks) 0%Z) st
  /\ enable_mask "info" st = Ret 4%Z st
  /\ enable_mask "info+" st = Ret 124%Z st.
Proof.
  intros Hlead Hok. split; [| split; reflexivity].
  unfold enable_mask, strtok_all, strlen.
  rewrite strtok_loop_enable_text by (try assumption; lia).
  apply enable_mask_loop_tokens. now apply tokens_ok_Forall.
Qed.

(** ** The monad *)

Lemma bind_ret {A B} (m : M A) (k : A -> M B) (s s' : state) (a : A) :
  m s = Ret a s' -> bind m k s = k a s'.
Proof. intros E. unfold bind. now rewrite E. Qed.

Lemma load_source_eq (h : nat) (src : qd_log_source_t) (s : state) :
  source_list s !! h = Some src -> load_source h s = Ret src s.
Proof. intros E. unfold load_source, bind, get, deref. now rewrite E. Qed.

Lemma store_source_eq (h : nat) (f : qd_log_source_t -> qd_log_source_t)
    (src : qd_log_source_t) (s : state) :
  source_list s !! h = Some src ->
  store_source h f s
  = Ret tt (with_source_list (<[h := f src]> (source_list s)) s).
Proof.
  intros E. unfold store_source. now rewrite (bind_ret _ _ _ _ _ (load_source_eq _ _ _ E)).
Qed.

(** ** Levels *)

Lemma valid_level_cases (level : Z) :
  valid_level level ->
  level = 1%Z \/ level = 2%Z \/ level = 4%Z \/ level = 8%Z \/
  level = 16%Z \/ level = 32%Z \/ level = 64%Z.
Proof.
  unfold valid_level, severity_bits. simpl.
  unfold QD_LOG_TRACE, QD_LOG_DEBUG, QD_LOG_INFO, QD_LOG_NOTICE,
    QD_LOG_WARNING, QD_LOG_ERROR, QD_LOG_CRITICAL. intuition.
Qed.

Lemma level_index_for_bit_valid (level : Z) (s : state) :
  valid_level level ->
  level_index_for_bit level s = Ret (Z.of_nat (bucket_of level)) s.
Proof.
  intros H. apply valid_level_cases in H.
  destruct H as [-> | [-> | [-> | [-> | [-> | [-> | ->]]]]]]; reflexivity.
Qed.

Lemma level_index_for_bit_invalid (level : Z) (s : state) :
  ~ valid_level level ->
  exists msg,
    level_index_for_bit level s
    = Ret (-1)%Z (with_qd_error_slot (Some (QD_ERROR_CONFIG, msg)) s).
Proof.
  intros H. eexists. unfold level_index_for_bit.
  assert (E : scan_levels (fun lv => (lvl_bit lv =? level)%Z)
                MIN_VALID_LEVEL_INDEX N_LEVEL_INDICES = N_LEVELS).
  { unfold valid_level, severity_bits in H. simpl in H.
    cbv [scan_levels MIN_VALID_LEVEL_INDEX N_LEVEL_INDICES TRACE
         MAX_VALID_LEVEL_INDEX CRITICAL Nat.sub Nat.add levels_at levels
         List.nth LEVEL lvl_bit].
    repeat match goal with
           | |- context [(?a =? level)%Z] =>
               destruct (Z.eqb_spec a level); [exfalso; intuition |]
           end.
    reflexivity. }
  rewrite E. reflexivity.
Qed.

Lemma valid_bucket (level : Z) :
  valid_level level -> (bucket_of level < N_LEVEL_INDICES)%nat.
Proof.
  intros H. apply valid_level_cases in H.
  destruct H as [-> | [-> | [-> | [-> | [-> | [-> | ->]]]]]];
    vm_compute; lia.
Qed.

Lemma default_source_eq (s : state) (dsrc : qd_log_source_t) :
  default_source s = Some dsrc ->
  exists d, default_log_source s = Some d /\ source_list s !! d = Some dsrc.
Proof.
  unfold default_source. destruct (default_log_source s) as [d|]; [| easy].
  intros E. now exists d.
Qed.

Lemma qd_log_enabled_eq (h : nat) (level : Z) (src dsrc : qd_log_source_t)
    (s : state) :
  source_list s !! h = Some src -> default_source s = Some dsrc ->
  qd_log_enabled (Some h) level s = Ret (passes_filter level src dsrc) s.
Proof.
  intros Hs Hd. apply default_source_eq in Hd as (d & Hd & Hds).
  unfold qd_log_enabled, passes_filter, effective_mask, tri_state.
  rewrite (bind_ret _ _ _ _ _ (load_source_eq _ _ _ Hs)).
  destruct (src_mask src =? -1)%Z.
  - unfold bind, get, deref. rewrite Hd. unfold ret at 1.
    rewrite (load_source_eq _ _ _ Hds). reflexivity.
  - reflexivity.
Qed.

Lemma line_level_cases (bit : Z) :
  In (line_level bit) levels.
Proof.
  unfold line_level.
  cbv [scan_levels N_LEVELS levels_at levels List.nth LEVEL lvl_bit INFO].
  repeat match goal with
         | |- context [(?a =? bit)%Z] => destruct (a =? bit)%Z
         end; cbn; tauto.
Qed.

Lemma line_level_syslog (bit : Z) :
  (lvl_syslog (line_level bit) =? -1)%Z = false.
Proof.
  pose proof (line_level_cases bit) as H. simpl in H.
  repeat (destruct H as [<- | H]; [reflexivity |]). contradiction.
Qed.

Lemma level_for_bit_eq (bit : Z) (s : state) :
  exists s',
    level_for_bit bit s
    = Ret (if known_bit bit then Some (line_level bit) else None) s'
    /\ (if known_bit bit then s' = s
        else exists msg,
            s' = with_qd_error_slot (Some (QD_ERROR_CONFIG, msg)) s).
Proof.
  unfold level_for_bit, known_bit, line_level.
  destruct (_ =? N_LEVELS)%nat; cbn.
  - eexists. split; [reflexivity |]. eexists. reflexivity.
  - eexists. split; reflexivity.
Qed.

Lemma default_bool_timestamp (src dsrc : qd_log_source_t) :
  default_bool (src_timestamp src) (src_timestamp dsrc)
  = effective_timestamp src dsrc.
Proof.
  unfold default_bool, effective_timestamp, tri_state.
  now destruct (src_timestamp src =? -1)%Z.
Qed.

Lemma default_bool_display (src dsrc : qd_log_source_t) :
  default_bool (src_source src) (src_source dsrc)
  = effective_display src dsrc.
Proof.
  unfold default_bool, effective_display, tri_state.
  now destruct (src_source src =? -1)%Z.
Qed.

Lemma line_level_unknown (bit : Z) :
  known_bit bit = false -> line_level bit = levels_at INFO.
Proof.
  unfold known_bit, line_level.
  destruct (_ =? N_LEVELS)%nat; [reflexivity | discriminate].
Qed.

Ltac run_io :=
  cbv [bind emit_event modify ret exit qd_error_clear];
  cbn [io_trace with_io_trace with_qd_error_slot source_list
       default_log_source logging_log_source sink_list sink_next entries
       level_names qd_error_slot entity_cache];
  rewrite <- ?app_assoc; cbn [app]; rewrite ?app_nil_r;
  try reflexivity.

Lemma write_log_eq (h : nat) (src dsrc : qd_log_source_t)
    (entry : qd_log_entry_t) (env : emit_env) (s : state) :
  source_list s !! h = Some src -> default_source s = Some dsrc ->
  write_log h entry env s
  = match effective_sink src dsrc with
    | None => Ret tt s
    | Some a =>
        match sink_at (sink_list s) a with
        | None => Fault
        | Some sk =>
            dispatch sk entry (effective_timestamp src dsrc)
              (effective_display src dsrc) env s
        end
    end.
Proof.
  intros Hs Hd. apply default_source_eq in Hd as (d & Hd & Hds).
  unfold write_log.
  rewrite (bind_ret _ _ _ _ _ (load_source_eq _ _ _ Hs)).
  assert (Hsink :
    match src_sink src with
    | Some a => ret (Some a)
    | None =>
        do s0 <- get;
        do d0 <- deref (default_log_source s0);
        do dsrc0 <- load_source d0; ret (src_sink dsrc0)
    end s = Ret (effective_sink src dsrc) s).
  { unfold effective_sink. destruct (src_sink src); [reflexivity |].
    unfold bind, get, deref. rewrite Hd. unfold ret at 1.
    now rewrite (load_source_eq _ _ _ Hds). }
  rewrite (bind_ret _ _ _ _ _ Hsink). clear Hsink.
  destruct (effective_sink src dsrc) as [a|]; [| reflexivity].
  unfold bind at 1. unfold get at 1.
  destruct (sink_at (sink_list s) a) as [sk|]; [| reflexivity].
  cbn [deref]. unfold bind at 1. unfold ret at 1.
  destruct (level_for_bit_eq (entry_level entry) s) as (s1 & E1 & Hs1).
  unfold bind at 1. rewrite E1.
  unfold dispatch, after_level_lookup, sink_events, render_line.
  destruct (known_bit (entry_level entry)) eqn:Ek.
  - subst s1. unfold bind at 1. unfold ret at 1.
    unfold bind at 1. rewrite Hd. cbn [deref]. unfold ret at 1.
    rewrite (bind_ret _ _ _ _ _ (load_source_eq _ _ _ Hds)).
    rewrite line_level_syslog.
    rewrite !default_bool_timestamp, ?default_bool_display.
    destruct (sink_file sk), (env_fputs_ok env), (sink_syslog sk); run_io;
      destruct s; reflexivity.
  - destruct Hs1 as (msg & ->).
    rewrite (line_level_unknown _ Ek).
    unfold bind at 1. unfold bind at 1. unfold qd_error_clear at 1.
    unfold modify at 1. unfold ret at 1.
    unfold bind at 1. cbn [default_log_source with_qd_error_slot].
    rewrite Hd. cbn [deref]. unfold ret at 1.
    unfold bind at 1. unfold load_source at 1. unfold bind at 1.
    unfold get at 1. cbn [source_list with_qd_error_slot].
    rewrite Hds. cbn [deref]. unfold ret at 1.
    change (lvl_syslog (levels_at INFO) =? -1)%Z with false.
    rewrite !default_bool_timestamp, ?default_bool_display.
    destruct (sink_file sk), (env_fputs_ok env), (sink_syslog sk); run_io;
      destruct s; reflexivity.
Qed.

(** ** One emission *)

Lemma same_settings_refl (a : qd_log_source_t) : same_settings a a.
Proof. repeat split. Qed.

Lemma same_settings_hist (v : list Z) (a : qd_log_source_t) :
  same_settings a (with_src_severity_histogram v a).
Proof. repeat split. Qed.

Lemma same_settings_effective (a a' b b' : qd_log_source_t) (level : Z) :
  same_settings a a' -> same_settings b b' ->
  passes_filter level a' b' = passes_filter level a b /\
  effective_sink a' b' = effective_sink a b /\
  effective_timestamp a' b' = effective_timestamp a b /\
  effective_display a' b' = effective_display a b.
Proof.
  intros (_ & Hm & Ht & Hs & Hk) (_ & Hm' & Ht' & Hs' & Hk').
  unfold passes_filter, effective_mask, effective_sink, effective_timestamp,
    effective_display.
  now rewrite Hm, Hm', Ht, Ht', Hs, Hs', Hk, Hk'.
Qed.

Lemma count_event_source (h : nat) (level : Z) (s : state) (j : nat)
    (x : qd_log_source_t) :
  source_list s !! j = Some x ->
  exists x', source_list (count_event h level s) !! j = Some x'
             /\ same_settings x x'.
Proof.
  intros Hj. unfold count_event.
  destruct (bool_decide (valid_level level)).
  - destruct (source_list s !! h) as [src|] eqn:Hs.
    + cbn [source_list with_source_list].
      destruct (decide (h = j)) as [-> | Hne].
      * rewrite list_lookup_insert_eq by (now apply lookup_lt_Some in Hj).
        eexists. split; [reflexivity |].
        rewrite Hj in Hs. injection Hs as ->. apply same_settings_hist.
      * rewrite list_lookup_insert_ne by assumption.
        exists x. split; [assumption | apply same_settings_refl].
    + exists x. split; [assumption | apply same_settings_refl].
  - exists x. split; [assumption | apply same_settings_refl].
Qed.

Lemma count_event_frame (h : nat) (level : Z) (s : state) :
  let s1 := count_event h level s in
  default_log_source s1 = default_log_source s /\
  sink_list s1 = sink_list s /\ entries s1 = entries s /\
  io_trace s1 = io_trace s /\ sink_next s1 = sink_next s /\
  length (source_list s1) = length (source_list s).
Proof.
  unfold count_event.
  destruct (bool_decide (valid_level level)); [| now repeat split].
  destruct (source_list s !! h); [| now repeat split].
  cbn. repeat split. apply length_insert.
Qed.

Lemma count_event_default (h : nat) (level : Z) (s : state)
    (dsrc : qd_log_source_t) :
  default_source s = Some dsrc ->
  exists dsrc', default_source (count_event h level s) = Some dsrc'
                /\ same_settings dsrc dsrc'.
Proof.
  intros Hd. apply default_source_eq in Hd as (d & Hd & Hds).
  destruct (count_event_source h level s d dsrc Hds) as (x & Hx & Hsame).
  exists x. split; [| assumption].
  unfold default_source.
  destruct (count_event_frame h level s) as (-> & _). now rewrite Hd.
Qed.

(** The part of an emission after the histogram step. *)
Lemma emit_tail (h : nat) (level : Z) (file : option string) (line : Z)
    (text : string) (env : emit_env) (src dsrc : qd_log_source_t) (s : state) :
  source_list s !! h = Some src -> default_source s = Some dsrc ->
  (do enabled <- qd_log_enabled (Some h) level;
   if negb enabled then ret tt
   else
     do h' <- deref (Some h);
     do src' <- load_source h';
     let entry :=
       mk_entry (src_module src') level file line (env_time env)
         (snprintf TEXT_MAX text) in
     do _ <- write_log h' entry env;
     modify (fun s => with_entries (append_entry entry (entries s)) s)) s
  = if passes_filter level src dsrc then
      let entry := entry_of src level file line text env in
      let keep s' := with_entries (append_entry entry (entries s')) s' in
      match effective_sink src dsrc with
      | None => Ret tt (keep s)
      | Some a =>
          match sink_at (sink_list s) a with
          | None => Fault
          | Some sk =>
              match dispatch sk entry (effective_timestamp src dsrc)
                      (effective_display src dsrc) env s with
              | Ret _ s2 => Ret tt (keep s2)
              | Exit code s2 => Exit code s2
              | Fault => Fault
              end
          end
      end
    else Ret tt s.
Proof.
  intros Hs Hd.
  rewrite (bind_ret _ _ _ _ _ (qd_log_enabled_eq _ level _ _ _ Hs Hd)).
  destruct (passes_filter level src dsrc); [| reflexivity].
  cbn [negb deref]. unfold bind at 1. unfold ret at 1.
  rewrite (bind_ret _ _ _ _ _ (load_source_eq _ _ _ Hs)).
  unfold bind. rewrite (write_log_eq _ _ _ _ _ _ Hs Hd).
  fold (entry_of src level file line text env).
  destruct (effective_sink src dsrc) as [a|]; [| reflexivity].
  destruct (sink_at (sink_list s) a) as [sk|]; [| reflexivity].
  destruct (dispatch sk _ _ _ env s); reflexivity.
Qed.

Lemma qd_vlog_impl_eq (h : nat) (level : Z) (file : option string) (line : Z)
    (text : string) (env : emit_env) (src dsrc : qd_log_source_t) (s : state) :
  source_list s !! h = Some src -> default_source s = Some dsrc ->
  length (src_severity_histogram src) = N_LEVEL_INDICES ->
  qd_vlog_impl (Some h) level file line text env s
  = emit_result h level file line text env src dsrc s.
Proof.
  intros Hs Hd Hlen.
  destruct (count_event_source h level s h src Hs) as (src1 & Hs1 & Hsame).
  destruct (count_event_default h level s dsrc Hd) as (dsrc1 & Hd1 & Hsamed).
  pose proof (emit_tail h level file line text env src1 dsrc1 _ Hs1 Hd1) as T.
  destruct (same_settings_effective _ _ _ _ level Hsame Hsamed)
    as (Ep & Ek & Et & Ed).
  rewrite Ep, Ek, Et, Ed in T.
  assert (Ee : entry_of src1 level file line text env
               = entry_of src level file line text env).
  { unfold entry_of. destruct Hsame as (<- & _). reflexivity. }
  rewrite Ee in T.
  etransitivity; [| exact T]. clear T.
  unfold qd_vlog_impl.
  destruct (decide (valid_level level)) as [Hv | Hv].
  - rewrite (bind_ret _ _ _ _ _ (level_index_for_bit_valid level s Hv)).
    assert (Hneg : (Z.of_nat (bucket_of level) <? 0)%Z = false)
      by (apply Z.ltb_ge; lia).
    rewrite Hneg, Nat2Z.id. clear Hneg.
    pose proof (valid_bucket level Hv) as Hb. rewrite <- Hlen in Hb.
    erewrite (bind_ret _ _ s (count_event h level s) tt); [reflexivity |].
    cbn [deref]. unfold bind at 1. unfold ret at 1.
    rewrite (bind_ret _ _ _ _ _ (load_source_eq _ _ _ Hs)).
    unfold bind at 1.
    rewrite (list_lookup_lookup_total_lt _ _ Hb). cbn [deref]. unfold ret at 1.
    rewrite (store_source_eq _ _ _ _ Hs).
    unfold count_event. rewrite bool_decide_eq_true_2 by assumption.
    now rewrite Hs.
  - destruct (level_index_for_bit_invalid level s Hv) as (msg & E).
    rewrite (bind_ret _ _ _ _ _ E).
    erewrite (bind_ret _ _ _ (count_event h level s) tt); [reflexivity |].
    unfold count_event. rewrite bool_decide_eq_false_2 by assumption.
    reflexivity.
Qed.

(** ** Consequences of well-formedness *)

Ltac state_cbn :=
  cbn [source_list default_log_source logging_log_source sink_list sink_next
       entries level_names qd_error_slot entity_cache io_trace
       with_source_list with_default_log_source with_logging_log_source
       with_sink_list with_sink_next with_entries with_level_names
       with_qd_error_slot with_entity_cache with_io_trace final_state] in *.

Lemma wf_source (s : state) (h : nat) (src : qd_log_source_t) :
  wf_state s -> source_list s !! h = Some src -> source_ok s src.
Proof.
  intros (_ & Hall & _) Hs. exact (proj1 (Forall_lookup _ _) Hall _ _ Hs).
Qed.

Lemma wf_default (s : state) :
  wf_state s -> exists dsrc, default_source s = Some dsrc /\ source_ok s dsrc.
Proof.
  intros Hwf. destruct Hwf as ([dsrc Hd] & Hall & Hlen).
  exists dsrc. split; [assumption |].
  apply default_source_eq in Hd as (d & _ & Hds).
  exact (proj1 (Forall_lookup _ _) Hall _ _ Hds).
Qed.

Lemma wf_effective_sink (s : state) (h : nat) (src dsrc : qd_log_source_t)
    (a : nat) :
  wf_state s -> source_list s !! h = Some src ->
  default_source s = Some dsrc -> effective_sink src dsrc = Some a ->
  exists sk, sink_at (sink_list s) a = Some sk.
Proof.
  intros Hwf Hs Hd Ha.
  destruct (wf_source _ _ _ Hwf Hs) as (_ & Hk).
  destruct (wf_default _ Hwf) as (dsrc' & Hd' & _ & Hk').
  rewrite Hd in Hd'. injection Hd' as <-.
  unfold effective_sink in Ha. unfold sink_ref_ok in Hk, Hk'.
  destruct (src_sink src) as [b|].
  - injection Ha as <-. exact Hk.
  - rewrite Ha in Hk'. exact Hk'.
Qed.

(** The three ways an emission on a well-formed state can go. *)
Lemma emit_cases (h : nat) (level : Z) (file : option string) (line : Z)
    (text : string) (env : emit_env) (src dsrc : qd_log_source_t) (s : state) :
  wf_state s -> source_list s !! h = Some src ->
  default_source s = Some dsrc ->
  let s1 := count_event h level s in
  let entry := entry_of src level file line text env in
  let keep s' := with_entries (append_entry entry (entries s')) s' in
  let r := qd_vlog_impl (Some h) level file line text env s in
  (passes_filter level src dsrc = false /\ r = Ret tt s1) \/
  (passes_filter level src dsrc = true /\ effective_sink src dsrc = None /\
   r = Ret tt (keep s1)) \/
  (passes_filter level src dsrc = true /\
   exists a sk,
     effective_sink src dsrc = Some a /\
     sink_at (sink_list s) a = Some sk /\
     r = match dispatch sk entry (effective_timestamp src dsrc)
                 (effective_display src dsrc) env s1 with
         | Ret _ s2 => Ret tt (keep s2)
         | Exit code s2 => Exit code s2
         | Fault => Fault
         end).
Proof.
  intros Hwf Hs Hd s1 entry keep r.
  destruct (wf_source _ _ _ Hwf Hs) as (Hlen & _).
  subst r s1. rewrite (qd_vlog_impl_eq _ _ _ _ _ _ _ _ _ Hs Hd Hlen).
  unfold emit_result.
  destruct (passes_filter level src dsrc); [| now left].
  right. destruct (effective_sink src dsrc) as [a|] eqn:Ea; [right | now left].
  split; [reflexivity |].
  destruct (wf_effective_sink _ _ _ _ _ Hwf Hs Hd Ea) as (sk & Hsk).
  exists a, sk. repeat split; [assumption |].
  destruct (count_event_frame h level s) as (_ & -> & _). now rewrite Hsk.
Qed.

(** What a dispatch leaves untouched and how it ends. *)
Lemma dispatch_cases (sk : log_sink_t) (entry : qd_log_entry_t)
    (with_time with_site : bool) (env : emit_env) (s : state) :
  let line := render_line with_time with_site entry (env_time_text env) in
  let s' := after_level_lookup (entry_level entry) s in
  (dispatch sk entry with_time with_site env s
   = Ret tt (with_io_trace
               (io_trace s ++ sink_events sk (entry_level entry) line) s')
   /\ (env_fputs_ok env = true \/ sink_file sk = None))
  \/
  (exists msg,
     dispatch sk entry with_time with_site env s
     = Exit 1 (with_io_trace (io_trace s ++ [ev_perror msg]) s')
     /\ env_fputs_ok env = false /\ is_Some (sink_file sk)).
Proof.
  intros line s'. unfold dispatch. fold line s'.
  destruct (sink_file sk) as [f|]; [| left; now split; [| right]].
  destruct (env_fputs_ok env); [left; now split; [| left] |].
  right. eexists. repeat split. now exists f.
Qed.

Lemma after_level_lookup_frame (bit : Z) (s : state) :
  let s' := after_level_lookup bit s in
  source_list s' = source_list s /\
  default_log_source s' = default_log_source s /\
  sink_list s' = sink_list s /\ entries s' = entries s /\
  io_trace s' = io_trace s /\
  (qd_error_slot s' = qd_error_slot s \/ qd_error_slot s' = None).
Proof.
  unfold after_level_lookup. destruct (known_bit bit); state_cbn; tauto.
Qed.

Lemma count_event_error (h : nat) (level : Z) (s : state) :
  qd_error_slot (count_event h level s) = qd_error_slot s \/
  qd_error_slot (count_event h level s) = None.
Proof.
  unfold count_event. destruct (bool_decide (valid_level level)).
  - destruct (source_list s !! h); now left.
  - now right.
Qed.

(** The state an emission ends in, whether it returns or exits: apart from
    the histogram step only the history, the I/O trace and the error slot
    can have changed. *)
Lemma emit_final (h : nat) (level : Z) (file : option string) (line : Z)
    (text : string) (env : emit_env) (src dsrc : qd_log_source_t) (s : state) :
  wf_state s -> source_list s !! h = Some src ->
  default_source s = Some dsrc ->
  exists s',
    final_state (qd_vlog_impl (Some h) level file line text env s) = Some s' /\
    source_list s' = source_list (count_event h level s) /\
    default_log_source s' = default_log_source s /\
    sink_list s' = sink_list s /\
    (qd_error_slot s' = qd_error_slot s \/ qd_error_slot s' = None).
Proof.
  intros Hwf Hs Hd.
  destruct (count_event_frame h level s) as (Fd & Fk & _).
  pose proof (count_event_error h level s) as Fe.
  destruct (emit_cases h level file line text env _ _ _ Hwf Hs Hd)
    as [(_ & ->) | [(_ & _ & ->) | (_ & a & sk & _ & _ & ->)]].
  - eexists. split; [reflexivity |]. now repeat split.
  - eexists. split; [reflexivity |]. now repeat split.
  - match goal with |- context [dispatch ?k ?e ?t ?d ?v ?x] =>
      destruct (dispatch_cases k e t d v x) as [(-> & _) | (msg & -> & _)];
      destruct (after_level_lookup_frame (entry_level e) x)
        as (As & Ad & Ak & _ & _ & Ae)
    end.
    + eexists. split; [reflexivity |]. state_cbn. rewrite As, Ad, Ak.
      repeat split; try assumption.
      destruct Ae as [-> | ->]; [assumption | now right].
    + eexists. split; [reflexivity |]. state_cbn. rewrite As, Ad, Ak.
      repeat split; try assumption.
      destruct Ae as [-> | ->]; [assumption | now right].
Qed.

(** ** Preservation of well-formedness *)

Lemma source_ok_frame (s s' : state) (x : qd_log_source_t) :
  sink_list s' = sink_list s -> source_ok s x -> source_ok s' x.
Proof.
  intros E (Hl & Hk). split; [assumption |].
  unfold sink_ref_ok in *. now rewrite E.
Qed.

Lemma count_event_valid (h : nat) (level : Z) (s : state)
    (src : qd_log_source_t) :
  valid_level level -> source_list s !! h = Some src ->
  source_list (count_event h level s)
  = <[h := with_src_severity_histogram
             (<[bucket_of level :=
                  uint64_incr (src_severity_histogram src !!! bucket_of level)]>
                (src_severity_histogram src)) src]> (source_list s).
Proof.
  intros Hv Hs. unfold count_event.
  rewrite bool_decide_eq_true_2 by assumption. now rewrite Hs.
Qed.

Lemma count_event_wf (h : nat) (level : Z) (s : state) :
  wf_state s -> wf_state (count_event h level s).
Proof.
  intros Hwf. pose proof Hwf as (Hd & Hall & Hlen).
  destruct (count_event_frame h level s) as (Fd & Fk & Fe & _).
  repeat split.
  - destruct Hd as [dsrc Hd].
    destruct (count_event_default h level s dsrc Hd) as (x & -> & _).
    now exists x.
  - unfold count_event in *.
    destruct (bool_decide (valid_level level)).
    + destruct (source_list s !! h) as [src|] eqn:Hs; [| assumption].
      state_cbn. apply Forall_insert.
      * eapply Forall_impl; [exact Hall |].
        intros x Hx. now apply (source_ok_frame s).
      * destruct (wf_source _ _ _ Hwf Hs) as (Hl & Hk).
        split; cbn [src_severity_histogram src_sink
                       with_src_severity_histogram];
          [now rewrite length_insert | exact Hk].
    + exact Hall.
  - now rewrite Fe.
Qed.

Lemma wf_state_frame (s s' : state) :
  wf_state s ->
  source_list s' = source_list s ->
  default_log_source s' = default_log_source s ->
  sink_list s' = sink_list s ->
  (length (entries s') <= LIST_MAX)%nat ->
  wf_state s'.
Proof.
  intros (Hd & Hall & _) Es Ed Ek Hlen. repeat split.
  - unfold default_source in *. now rewrite Ed, Es.
  - rewrite Es. eapply Forall_impl; [exact Hall |].
    intros x Hx. now apply (source_ok_frame s).
  - assumption.
Qed.

Lemma append_entry_length (e : qd_log_entry_t) (l : list qd_log_entry_t) :
  (length l <= LIST_MAX)%nat -> (length (append_entry e l) <= LIST_MAX)%nat.
Proof.
  intros H. unfold append_entry.
  destruct (Nat.ltb_spec LIST_MAX (length (l ++ [e]))) as [Hgt | Hle].
  - rewrite length_tl, length_app. cbn [length] in *. lia.
  - exact Hle.
Qed.

(** ** The histogram *)

Lemma uint64_incr_iter (n : nat) (c : Z) :
  (0 < n)%nat ->
  Nat.iter n uint64_incr c = ((c + Z.of_nat n) mod 2 ^ 64)%Z.
Proof.
  intros Hn. induction n as [|n IH]; [lia |].
  destruct n as [|n].
  - reflexivity.
  - change (Nat.iter (S (S n)) uint64_incr c)
      with (uint64_incr (Nat.iter (S n) uint64_incr c)).
    rewrite IH by lia. unfold uint64_incr.
    rewrite Zplus_mod_idemp_l. f_equal. lia.
Qed.

(** Emissions the filter stops: each one returns, counts in its bucket and
    leaves the history and the I/O trace alone. *)
Lemma emit_all_filtered (h : nat) (level : Z) (calls : list emit_call) :
  valid_level level ->
  Forall (fun c => call_source c = h /\ call_level c = level) calls ->
  forall (s : state) (src dsrc : qd_log_source_t),
    wf_state s -> source_list s !! h = Some src ->
    default_source s = Some dsrc ->
    passes_filter level src dsrc = false ->
    exists s' src',
      emit_all calls s = Ret tt s' /\
      source_list s' !! h = Some src' /\
      src_severity_histogram src' !! bucket_of level
      = Some (Nat.iter (length calls) uint64_incr
                (src_severity_histogram src !!! bucket_of level)) /\
      entries s' = entries s /\ io_trace s' = io_trace s.
Proof.
  intros Hv Hcalls. induction Hcalls as [|c calls (Hc & Hl) _ IH];
    intros s src dsrc Hwf Hs Hd Hp.
  - exists s, src. repeat split; try reflexivity; try assumption.
    apply list_lookup_lookup_total_lt.
    destruct (wf_source _ _ _ Hwf Hs) as (-> & _). now apply valid_bucket.
  - cbn [emit_all length Nat.iter]. unfold emit. rewrite Hc, Hl.
    destruct (emit_cases h level (call_file c) (call_line c) (call_text c)
                (call_env c) _ _ _ Hwf Hs Hd)
      as [(_ & E) | [(Hp' & _) | (Hp' & _)]]; try congruence.
    rewrite (bind_ret _ _ _ _ _ E).
    pose proof (count_event_wf h level s Hwf) as Hwf1.
    pose proof (count_event_valid h level s src Hv Hs) as Hsl.
    destruct (count_event_default h level s dsrc Hd) as (dsrc1 & Hd1 & Sd).
    destruct (count_event_frame h level s) as (_ & _ & Fe & Fi & _).
    assert (Hs1 : source_list (count_event h level s) !! h
                  = Some (with_src_severity_histogram
                            (<[bucket_of level :=
                                 uint64_incr
                                   (src_severity_histogram src
                                    !!! bucket_of level)]>
                               (src_severity_histogram src)) src)).
    { rewrite Hsl. apply list_lookup_insert_eq. now apply lookup_lt_Some in Hs. }
    destruct (same_settings_effective _ _ _ _ level
                (same_settings_hist
                   (<[bucket_of level :=
                        uint64_incr
                          (src_severity_histogram src !!! bucket_of level)]>
                      (src_severity_histogram src)) src) Sd) as (Ep & _).
    rewrite Hp in Ep.
    destruct (IH _ _ _ Hwf1 Hs1 Hd1 Ep) as (s' & src' & E' & Hs' & Hh & He & Hi).
    exists s', src'. repeat split; try assumption.
    + rewrite Hh. f_equal. cbn [src_severity_histogram
                                 with_src_severity_histogram].
      rewrite list_lookup_total_insert_eq.
      * now rewrite Nat.iter_succ_r.
      * destruct (wf_source _ _ _ Hwf Hs) as (-> & _). now apply valid_bucket.
    + now rewrite He.
    + now rewrite Hi.
Qed.

(** C1.  Every emission with a valid severity increments the bucket of that
    severity in the source's histogram by exactly one (in [uint64_t]
    arithmetic; below [2^64 - 1] that is the successor), whether or not the
    filter lets the event through, and leaves every other counter as it was.
    In particular five TRACE events against a source filtered to INFO and
    above add five to its TRACE bucket and nothing to the history or to the
    output. *)
Theorem histogram_counts_every_emit (s : state) (h : nat)
    (src dsrc : qd_log_source_t) (level : Z) (file : option string) (line : Z)
    (text : string) (env : emit_env) (calls : list emit_call) :
  wf_state s -> source_list s !! h = Some src ->
  default_source s = Some dsrc ->
  (valid_level level ->
   let count := src_severity_histogram src !!! bucket_of level in
   exists s' src',
     final_state (qd_vlog_impl (Some h) level file line text env s) = Some s' /\
     source_list s' !! h = Some src' /\
     src_severity_histogram src'
     = <[bucket_of level := uint64_incr count]> (src_severity_histogram src) /\
     ((0 <= count < 2 ^ 64 - 1)%Z -> uint64_incr count = (count + 1)%Z) /\
     (forall j, j <> h -> source_list s' !! j = source_list s !! j))
  /\
  (effective_mask src dsrc = lvl_mask (levels_at INFO) ->
   length calls = 5%nat ->
   Forall (fun c => call_source c = h /\ call_level c = QD_LOG_TRACE) calls ->
   exists s' src',
     emit_all calls s = Ret tt s' /\
     source_list s' !! h = Some src' /\
     src_severity_histogram src' !! LEVEL_INDEX TRACE
     = Some ((src_severity_histogram src !!! LEVEL_INDEX TRACE + 5)
             mod 2 ^ 64)%Z /\
     entries s' = entries s /\ io_trace s' = io_trace s).
Proof.
  intros Hwf Hs Hd. split.
  - intros Hv count.
    destruct (emit_final h level file line text env _ _ _ Hwf Hs Hd)
      as (s' & E & Es & _).
    pose proof (count_event_valid h level s src Hv Hs) as Hsl.
    exists s'. eexists. split; [exact E |]. rewrite Es, Hsl.
    split; [| split; [| split]].
    + apply list_lookup_insert_eq. now apply lookup_lt_Some in Hs.
    + reflexivity.
    + intros Hc. unfold uint64_incr. apply Z.mod_small. lia.
    + intros j Hj. now apply list_lookup_insert_ne.
  - intros Hm Hn Hcalls.
    assert (Hv : valid_level QD_LOG_TRACE) by (now left).
    assert (Hp : passes_filter QD_LOG_TRACE src dsrc = false).
    { unfold passes_filter. now rewrite Hm. }
    destruct (emit_all_filtered h QD_LOG_TRACE calls Hv Hcalls s src dsrc
                Hwf Hs Hd Hp) as (s' & src' & E & Hs' & Hh & He & Hi).
    exists s', src'. repeat split; try assumption.
    rewrite Hn, uint64_incr_iter in Hh by lia. exact Hh.
Qed.

(** ** The history buffer *)

Lemma LIST_MAX_pos : (0 < LIST_MAX)%nat.
Proof. unfold LIST_MAX. lia. Qed.

Lemma append_entry_room (e : qd_log_entry_t) (l : list qd_log_entry_t) :
  (length l < LIST_MAX)%nat -> append_entry e l = l ++ [e].
Proof.
  intros H. unfold append_entry.
  destruct (Nat.ltb_spec LIST_MAX (length (l ++ [e]))) as [Hgt | _];
    [| reflexivity].
  rewrite length_app in Hgt. cbn [length] in Hgt. lia.
Qed.

Lemma append_entry_full (e : qd_log_entry_t) (l : list qd_log_entry_t) :
  length l = LIST_MAX -> append_entry e l = tail l ++ [e].
Proof.
  intros H. unfold append_entry.
  destruct (Nat.ltb_spec LIST_MAX (length (l ++ [e]))) as [_ | Hle].
  - destruct l as [|x l]; [| reflexivity].
    pose proof LIST_MAX_pos. cbn [length] in H. lia.
  - rewrite length_app in Hle. cbn [length] in Hle. lia.
Qed.

Lemma append_entry_drop (e : qd_log_entry_t) (l : list qd_log_entry_t) :
  (length l <= LIST_MAX)%nat ->
  append_entry e l = drop (length l + 1 - LIST_MAX) (l ++ [e]).
Proof.
  intros H. destruct (decide (length l = LIST_MAX)) as [E | N].
  - rewrite append_entry_full by assumption.
    replace (length l + 1 - LIST_MAX)%nat with 1%nat by lia.
    destruct l as [|x l]; [| reflexivity].
    pose proof LIST_MAX_pos. cbn [length] in E. lia.
  - rewrite append_entry_room by lia.
    replace (length l + 1 - LIST_MAX)%nat with 0%nat by lia. reflexivity.
Qed.

(** Appending one by one keeps the last [LIST_MAX] records. *)
Lemma append_entries_drop (emitted : list qd_log_entry_t) :
  forall l : list qd_log_entry_t,
    (length l <= LIST_MAX)%nat ->
    fold_left (fun l e => append_entry e l) emitted l
    = drop (length l + length emitted - LIST_MAX) (l ++ emitted).
Proof.
  induction emitted as [|e es IH]; intros l Hl.
  - cbn [fold_left length]. rewrite app_nil_r.
    replace (length l + 0 - LIST_MAX)%nat with 0%nat by lia. reflexivity.
  - cbn [fold_left]. rewrite IH by now apply append_entry_length.
    rewrite append_entry_drop by assumption.
    rewrite length_drop, length_app. cbn [length].
    rewrite <- drop_app_le by (rewrite length_app; cbn [length]; lia).
    rewrite drop_drop, <- app_assoc. cbn [app]. f_equal. lia.
Qed.

Lemma settings_preserved_refl (s : state) : settings_preserved s s.
Proof.
  split; [reflexivity |]. intros j x H. exists x.
  split; [assumption | apply same_settings_refl].
Qed.

Lemma same_settings_trans (a b c : qd_log_source_t) :
  same_settings a b -> same_settings b c -> same_settings a c.
Proof.
  intros (A1 & A2 & A3 & A4 & A5) (B1 & B2 & B3 & B4 & B5).
  repeat split; congruence.
Qed.

Lemma settings_preserved_trans (s1 s2 s3 : state) :
  settings_preserved s1 s2 -> settings_preserved s2 s3 ->
  settings_preserved s1 s3.
Proof.
  intros (D1 & H1) (D2 & H2). split; [congruence |].
  intros j x Hx. destruct (H1 j x Hx) as (y & Hy & Sy).
  destruct (H2 j y Hy) as (z & Hz & Sz). exists z.
  split; [assumption | now apply (same_settings_trans x y z)].
Qed.

Lemma call_passes_inv (s : state) (c : emit_call) :
  call_passes s c = true ->
  exists src dsrc,
    source_list s !! call_source c = Some src /\
    default_source s = Some dsrc /\
    passes_filter (call_level c) src dsrc = true.
Proof.
  unfold call_passes.
  destruct (source_list s !! call_source c) as [src|]; [| discriminate].
  destruct (default_source s) as [dsrc|]; [| discriminate].
  intros H. now exists src, dsrc.
Qed.

Lemma settings_preserved_passes (s s' : state) (c : emit_call) :
  settings_preserved s s' -> call_passes s c = true ->
  call_passes s' c = true.
Proof.
  intros (Hd & Hp) H.
  apply call_passes_inv in H as (src & dsrc & Hs & Hds & Hpass).
  destruct (Hp _ _ Hs) as (src' & Hs' & Ss).
  apply default_source_eq in Hds as (d & Ed & Hdd).
  destruct (Hp _ _ Hdd) as (dsrc' & Hdd' & Sd).
  unfold call_passes, default_source. rewrite Hs', Hd, Ed, Hdd'.
  destruct (same_settings_effective _ _ _ _ (call_level c) Ss Sd)
    as (-> & _). assumption.
Qed.

Lemma settings_preserved_entry (s s' : state) (c : emit_call)
    (e : qd_log_entry_t) :
  settings_preserved s s' -> call_entry s c = Some e ->
  call_entry s' c = Some e.
Proof.
  intros (_ & Hp). unfold call_entry.
  destruct (source_list s !! call_source c) as [src|] eqn:Hs; [| easy].
  destruct (Hp _ _ Hs) as (src' & -> & (Em & _)).
  unfold entry_of. now rewrite Em.
Qed.

(** An emission that passes the filter and whose write succeeds returns
    with its record appended. *)
Lemma emit_passing (h : nat) (level : Z) (file : option string) (line : Z)
    (text : string) (env : emit_env) (src dsrc : qd_log_source_t) (s : state) :
  wf_state s -> source_list s !! h = Some src ->
  default_source s = Some dsrc ->
  passes_filter level src dsrc = true -> env_fputs_ok env = true ->
  exists s',
    qd_vlog_impl (Some h) level file line text env s = Ret tt s' /\
    entries s'
    = append_entry (entry_of src level file line text env) (entries s) /\
    wf_state s' /\ settings_preserved s s'.
Proof.
  intros Hwf Hs Hd Hp Hok.
  pose proof (count_event_wf h level s Hwf) as Hwf1.
  destruct (count_event_frame h level s) as (Fd & Fk & Fe & Fi & _).
  assert (Hpres : settings_preserved s (count_event h level s)).
  { split; [assumption |]. intros j x. apply count_event_source. }
  assert (Hlen : (length (append_entry (entry_of src level file line text env)
                            (entries s)) <= LIST_MAX)%nat).
  { apply append_entry_length. apply Hwf. }
  destruct (emit_cases h level file line text env _ _ _ Hwf Hs Hd)
    as [(Hp' & _) | [(_ & _ & ->) | (_ & a & sk & _ & _ & ->)]];
    [congruence | |].
  - eexists. split; [reflexivity |]. state_cbn. rewrite Fe.
    split; [reflexivity |]. split; [| exact Hpres].
    apply (wf_state_frame (count_event h level s)); state_cbn;
      try reflexivity; try assumption.
  - match goal with |- context [dispatch ?k ?e ?t ?d ?v ?x] =>
      destruct (dispatch_cases k e t d v x)
        as [(-> & _) | (msg & _ & Hno & _)]; [| congruence];
      destruct (after_level_lookup_frame (entry_level e) x)
        as (As & Ad & Ak & Ae & _)
    end.
    eexists. split; [reflexivity |]. state_cbn. rewrite Ae, Fe.
    split; [reflexivity |]. split.
    + apply (wf_state_frame (count_event h level s)); state_cbn;
        try assumption; try (now rewrite ?Ae, ?Fe).
    + destruct Hpres as (Pd & Pl). split; state_cbn.
      * now rewrite Ad.
      * intros j x Hx. rewrite As. now apply Pl.
Qed.

(** A run of emissions that all pass the filter and whose writes succeed. *)
Lemma emit_all_passing (calls : list emit_call) :
  forall s : state,
    wf_state s ->
    Forall (fun c => call_passes s c = true) calls ->
    Forall (fun c => env_fputs_ok (call_env c) = true) calls ->
    exists s' emitted,
      emit_all calls s = Ret tt s' /\
      Forall2 (fun c e => call_entry s c = Some e) calls emitted /\
      entries s'
      = fold_left (fun l e => append_entry e l) emitted (entries s) /\
      wf_state s' /\ settings_preserved s s'.
Proof.
  induction calls as [|c calls IH]; intros s Hwf Hpass Hok.
  - exists s, []. split; [reflexivity |]. split; [constructor |].
    split; [reflexivity |]. split; [assumption |].
    apply settings_preserved_refl.
  - inversion Hpass as [|? ? Hc Hpass']; subst.
    apply call_passes_inv in Hc as (src & dsrc & Hs & Hd & Hp).
    inversion Hok as [|? ? Hokc Hok']; subst.
    destruct (emit_passing (call_source c) (call_level c) (call_file c)
                (call_line c) (call_text c) (call_env c) _ _ _
                Hwf Hs Hd Hp Hokc) as (s1 & E1 & He1 & Hwf1 & Hpres1).
    assert (Hpass1 : Forall (fun c => call_passes s1 c = true) calls).
    { eapply Forall_impl; [exact Hpass' |].
      intros x. now apply settings_preserved_passes. }
    destruct (IH s1 Hwf1 Hpass1 Hok')
      as (s' & emitted & E' & Hem & He' & Hwf' & Hpres').
    exists s', (entry_of src (call_level c) (call_file c) (call_line c)
                  (call_text c) (call_env c) :: emitted).
    split; [| split; [| split; [| split]]].
    + cbn [emit_all]. unfold emit at 1. now rewrite (bind_ret _ _ _ _ _ E1).
    + constructor.
      * unfold call_entry. now rewrite Hs.
      * clear - Hem Hpass' Hpres1. revert emitted Hem.
        induction Hpass' as [|x calls Hx _ IHc];
          intros emitted Hem; inversion Hem; subst; constructor.
        -- apply call_passes_inv in Hx as (sx & dx & Hx & _).
           match goal with H : call_entry s1 x = Some ?e |- _ =>
             revert H end.
           unfold call_entry. rewrite Hx.
           destruct Hpres1 as (_ & Hl).
           destruct (Hl _ _ Hx) as (sx' & -> & (Em & _)).
           unfold entry_of. now rewrite Em.
        -- now apply IHc.
    + cbn [fold_left]. now rewrite He', He1.
    + assumption.
    + now apply (settings_preserved_trans s s1 s').
Qed.

Lemma tail_map {A B} (f : A -> B) (l : list A) :
  tail (map f l) = map f (tail l).
Proof. now destruct l. Qed.

(** The records of calls that all go to sources with the record [src]. *)
Lemma call_entries_of (s : state) (src : qd_log_source_t)
    (calls : list emit_call) (emitted : list qd_log_entry_t) :
  Forall (fun c => source_list s !! call_source c = Some src) calls ->
  Forall2 (fun c e => call_entry s c = Some e) calls emitted ->
  emitted
  = map (fun c =>
           entry_of src (call_level c) (call_file c) (call_line c)
             (call_text c) (call_env c)) calls.
Proof.
  intros H0. revert emitted.
  induction H0 as [|c calls Hc _ IH]; intros emitted Hem;
    inversion Hem as [|? e ? emitted' He Hrest]; subst; [reflexivity |].
  cbn [map]. f_equal; [| now apply IH].
  unfold call_entry in He. rewrite Hc in He. now injection He as <-.
Qed.

(** The history after one emission: untouched, or the record appended. *)
Lemma emit_entries (h : nat) (level : Z) (file : option string) (line : Z)
    (text : string) (env : emit_env) (src dsrc : qd_log_source_t) (s : state) :
  wf_state s -> source_list s !! h = Some src ->
  default_source s = Some dsrc ->
  exists s',
    final_state (qd_vlog_impl (Some h) level file line text env s) = Some s' /\
    (entries s' = entries s \/
     entries s'
     = append_entry (entry_of src level file line text env) (entries s)).
Proof.
  intros Hwf Hs Hd.
  destruct (count_event_frame h level s) as (_ & _ & Fe & _).
  destruct (emit_cases h level file line text env _ _ _ Hwf Hs Hd)
    as [(_ & ->) | [(_ & _ & ->) | (_ & a & sk & _ & _ & ->)]].
  - eexists. split; [reflexivity |]. now left.
  - eexists. split; [reflexivity |]. state_cbn. rewrite Fe. now right.
  - match goal with |- context [dispatch ?k ?e ?t ?d ?v ?x] =>
      destruct (dispatch_cases k e t d v x) as [(-> & _) | (msg & -> & _)];
      destruct (after_level_lookup_frame (entry_level e) x)
        as (_ & _ & _ & Ae & _)
    end.
    + eexists. split; [reflexivity |]. state_cbn. rewrite Ae, Fe. now right.
    + eexists. split; [reflexivity |]. state_cbn. rewrite Ae, Fe. now left.
Qed.

(** C2.  After every emission the history holds at most [LIST_MAX] = 1000
    records: it is either untouched or has the new record appended at the
    newest end, and when it was full exactly the oldest record is evicted.
    After 1001 successive emissions that pass the filter, starting from an
    empty history, the size is exactly 1000 and the history is the emitted
    records without the first one. *)
Theorem history_never_exceeds_capacity (s : state) (c : emit_call)
    (src dsrc : qd_log_source_t) (calls : list emit_call) :
  wf_state s ->
  (source_list s !! call_source c = Some src ->
   default_source s = Some dsrc ->
   let e := entry_of src (call_level c) (call_file c) (call_line c)
              (call_text c) (call_env c) in
   exists s',
     final_state (emit c s) = Some s' /\
     (length (entries s') <= LIST_MAX)%nat /\
     (entries s' = entries s \/
      ((length (entries s) < LIST_MAX)%nat /\ entries s' = entries s ++ [e]) \/
      (length (entries s) = LIST_MAX /\ entries s' = tail (entries s) ++ [e])))
  /\
  (entries s = [] ->
   length calls = S LIST_MAX ->
   forallb (fun c => call_passes s c && env_fputs_ok (call_env c)) calls
   = true ->
   exists s' emitted,
     emit_all calls s = Ret tt s' /\
     Forall2 (fun c e => call_entry s c = Some e) calls emitted /\
     length (entries s') = LIST_MAX /\
     entries s' = tail emitted /\
     (forall e1, head emitted = Some e1 -> ~ In e1 (tail emitted) ->
                 ~ In e1 (entries s'))).
Proof.
  intros Hwf. split.
  - intros Hs Hd e.
    destruct (emit_entries (call_source c) (call_level c) (call_file c)
                (call_line c) (call_text c) (call_env c) _ _ _ Hwf Hs Hd)
      as (s' & E & He).
    assert (Hlen : (length (entries s) <= LIST_MAX)%nat) by apply Hwf.
    exists s'. split; [exact E |]. fold e in He. destruct He as [-> | ->].
    + split; [assumption | now left].
    + split; [now apply append_entry_length |]. right.
      destruct (decide (length (entries s) = LIST_MAX)) as [Hf | Hf].
      * right. split; [assumption | now apply append_entry_full].
      * left. split; [lia | apply append_entry_room; lia].
  - intros Hnil Hn Hcalls.
    assert (Hpass : Forall (fun c => call_passes s c = true) calls
                    /\ Forall (fun c => env_fputs_ok (call_env c) = true) calls).
    { rewrite forallb_forall in Hcalls. split; apply Forall_forall;
        intros x Hx; apply list_elem_of_In, Hcalls, andb_prop in Hx; apply Hx. }
    destruct Hpass as (Hpass & Hok).
    destruct (emit_all_passing calls s Hwf Hpass Hok)
      as (s' & emitted & E & Hem & He & _).
    assert (Hlen : length emitted = S LIST_MAX).
    { rewrite <- Hn. symmetry. exact (Forall2_length _ _ _ Hem). }
    assert (Het : entries s' = tail emitted).
    { rewrite He, Hnil, append_entries_drop by (cbn; lia).
      cbn [length app]. rewrite Hlen.
      replace (0 + S LIST_MAX - LIST_MAX)%nat with 1%nat by lia.
      now destruct emitted. }
    exists s', emitted. split; [exact E |]. split; [exact Hem |].
    split; [| split]; [| exact Het |].
    + rewrite Het, length_tl, Hlen. lia.
    + intros e1 _ Hnot. now rewrite Het.
Qed.

(** ** The recent-entries query *)

Lemma recent_loop_eq (prevs : list qd_log_entry_t) :
  forall (limit : Z) (acc : list (list PyObject)),
    recent_loop prevs limit acc
    = map py_entry_of
        (reverse (take (recent_count limit (length prevs)) prevs)) ++ acc.
Proof.
  induction prevs as [|e prevs IH]; intros limit acc.
  { now rewrite take_nil. }
  cbn [recent_loop length]. unfold recent_count.
  destruct (Z.eqb_spec limit 0) as [-> | Hne]; [reflexivity |].
  rewrite IH. unfold recent_count.
  destruct (Z.ltb_spec 0 limit) as [Hpos | Hneg].
  - destruct (Z.ltb_spec limit 0) as [? | _]; [lia |].
    destruct (Z.ltb_spec (limit - 1) 0) as [? | _]; [lia |].
    replace (Z.to_nat limit) with (S (Z.to_nat (limit - 1))) by lia.
    cbn [Nat.min take]. rewrite reverse_cons, map_app, <- app_assoc.
    reflexivity.
  - destruct (Z.ltb_spec limit 0) as [_ | ?]; [| lia].
    cbn [take]. rewrite reverse_cons, map_app, <- app_assoc. reflexivity.
Qed.

Lemma recent_query_eq (limit : Z) (s : state) :
  qd_log_recent_py false limit s
  = Ret (Some (map py_entry_of
                 (most_recent (recent_count limit (length (entries s)))
                    (entries s)))) s.
Proof.
  unfold qd_log_recent_py, bind, get, ret. rewrite recent_loop_eq.
  rewrite app_nil_r, length_reverse, take_reverse, reverse_involutive.
  reflexivity.
Qed.

(** C3, as amended.  For every history and every limit the query returns,
    oldest first, the [min limit size] most recent entries when the limit is
    positive, no entry when the limit is zero, and all entries when the
    limit is negative. *)
Theorem recent_returns_newest_window (s : state) (limit : Z) :
  let size := length (entries s) in
  let window :=
    if (limit <? 0)%Z then entries s
    else drop (size - Nat.min (Z.to_nat limit) size) (entries s) in
  qd_log_recent_py false limit s = Ret (Some (map py_entry_of window)) s /\
  length window
  = (if (limit <? 0)%Z then size else Nat.min (Z.to_nat limit) size) /\
  (limit = 0%Z -> window = []).
Proof.
  intros size window. subst window size. rewrite recent_query_eq.
  unfold most_recent, recent_count.
  destruct (Z.ltb_spec limit 0) as [Hneg | Hpos].
  - rewrite Nat.sub_diag, drop_0. repeat split. intros ->. lia.
  - split; [reflexivity |]. split.
    + rewrite length_drop. lia.
    + intros ->. cbn [Z.to_nat Nat.min]. rewrite Nat.sub_0_r.
      apply drop_all.
Qed.

(** ** Fallback resolution and the filter *)

(** C5.  For every emission the effective filter mask, timestamp flag,
    call-site-display flag and sink are the source's own value if set, else
    the value the default source has in the state of that very call: the
    filter decision is taken with the effective mask, and a dispatched line
    is rendered with the effective flags and written to the effective sink.
    Whenever [level & effective-mask] is zero the call returns without a
    history entry and without any sink I/O. *)
Theorem emit_uses_effective_settings (s : state) (h : nat)
    (src dsrc : qd_log_source_t) (level : Z) (file : option string) (line : Z)
    (text : string) (env : emit_env) :
  wf_state s -> source_list s !! h = Some src ->
  default_source s = Some dsrc ->
  let r := qd_vlog_impl (Some h) level file line text env s in
  let mask := resolve (tri_state (src_mask src)) (src_mask dsrc) in
  let with_time :=
    negb (resolve (tri_state (src_timestamp src)) (src_timestamp dsrc) =? 0)%Z in
  let with_site :=
    negb (resolve (tri_state (src_source src)) (src_source dsrc) =? 0)%Z in
  let sink :=
    match src_sink src with Some a => Some a | None => src_sink dsrc end in
  qd_log_enabled (Some h) level s = Ret (negb (Z.land level mask =? 0)%Z) s /\
  (Z.land level mask = 0%Z ->
   exists s',
     r = Ret tt s' /\ entries s' = entries s /\ io_trace s' = io_trace s) /\
  (Z.land level mask <> 0%Z -> env_fputs_ok env = true ->
   forall a sk,
     sink = Some a -> sink_at (sink_list s) a = Some sk ->
     exists s',
       r = Ret tt s' /\
       io_trace s'
       = io_trace s
         ++ sink_events sk level
              (render_line with_time with_site
                 (entry_of src level file line text env)
                 (env_time_text env))).
Proof.
  intros Hwf Hs Hd r mask with_time with_site sink.
  destruct (count_event_frame h level s) as (_ & _ & Fe & Fi & _).
  pose proof (emit_cases h level file line text env _ _ _ Hwf Hs Hd) as C.
  cbv zeta in C. fold r in C.
  change (passes_filter level src dsrc)
    with (negb (Z.land level mask =? 0)%Z) in C.
  change (effective_sink src dsrc) with sink in C.
  split; [| split].
  - now apply qd_log_enabled_eq.
  - intros Hz. rewrite Hz in C. cbn [Z.eqb negb] in C.
    destruct C as [(_ & ->) | [(? & _) | (? & _)]]; try discriminate.
    eexists. split; [reflexivity |]. now split.
  - intros Hnz Hok a sk Ha Hsk.
    destruct C as [(Hp & _) | [(_ & Hn & _) | (_ & a' & sk' & Ha' & Hsk' & ->)]].
    + apply negb_false_iff, Z.eqb_eq in Hp. contradiction.
    + congruence.
    + assert (a' = a) as -> by congruence.
      assert (sk' = sk) as -> by congruence.
      match goal with |- context [dispatch ?k ?e ?t ?d ?v ?x] =>
        destruct (dispatch_cases k e t d v x)
          as [(-> & _) | (msg & _ & Hno & _)]; [| congruence]
      end.
      eexists. split; [reflexivity |]. state_cbn. now rewrite Fi.
Qed.

(** ** Fatal and non-fatal paths *)

(** With a null source and a valid severity the histogram update comes
    before any look at the source. *)
Lemma qd_vlog_impl_null_source (level : Z) (file : option string) (line : Z)
    (text : string) (env : emit_env) (s : state) :
  valid_level level ->
  qd_vlog_impl None level file line text env s = Fault.
Proof.
  intros Hv. unfold qd_vlog_impl.
  rewrite (bind_ret _ _ _ _ _ (level_index_for_bit_valid level s Hv)).
  destruct (Z.ltb_spec (Z.of_nat (bucket_of level)) 0) as [? | _]; [lia |].
  reflexivity.
Qed.

(** C9.  What ends an emission.  On a registered source an emission returns
    (with no value) or ends the process with [exit(1)], and leaves no error
    behind.  It ends the process exactly when the event passes the filter,
    the effective sink is stream-backed and [fputs] fails.  The result of
    [fflush] is dropped: a write that [fputs] accepts and [fflush] fails to
    carry out goes unnoticed, the call returns normally and the record is in
    the history.  With a null source and a valid severity the call
    dereferences the null pointer. *)
Theorem flush_failure_is_not_fatal (s : state) (h : nat)
    (src dsrc : qd_log_source_t) (level : Z) (file : option string) (line : Z)
    (text : string) (env : emit_env) :
  wf_state s -> source_list s !! h = Some src ->
  default_source s = Some dsrc ->
  let r := qd_vlog_impl (Some h) level file line text env s in
  let to_stream a sk f :=
    passes_filter level src dsrc = true /\
    effective_sink src dsrc = Some a /\
    sink_at (sink_list s) a = Some sk /\ sink_file sk = Some f in
  (exists s',
     (r = Ret tt s' \/ r = Exit 1 s') /\
     (qd_error_slot s' = qd_error_slot s \/ qd_error_slot s' = None)) /\
  ((exists code s', r = Exit code s')
   <-> (env_fputs_ok env = false /\ exists a sk f, to_stream a sk f)) /\
  (forall a sk f,
     to_stream a sk f ->
     env_fputs_ok env = true -> env_fflush_ok env = false ->
     exists s',
       r = Ret tt s' /\
       io_trace s'
       = io_trace s
         ++ sink_events sk level
              (render_line (effective_timestamp src dsrc)
                 (effective_display src dsrc)
                 (entry_of src level file line text env)
                 (env_time_text env)) /\
       In (ev_fflush f) (io_trace s') /\
       entries s'
       = append_entry (entry_of src level file line text env) (entries s)) /\
  (valid_level level ->
   qd_vlog_impl None level file line text env s = Fault).
Proof.
  intros Hwf Hs Hd r to_stream.
  pose proof (count_event_error h level s) as Fe.
  destruct (count_event_frame h level s) as (_ & _ & Fn & Fi & _).
  pose proof (emit_cases h level file line text env _ _ _ Hwf Hs Hd) as C.
  cbv zeta in C. fold r in C.
  split; [| split; [| split]].
  4:{ apply qd_vlog_impl_null_source. }
  - destruct C as [(Hp & E) | [(Hp & Hn & E) | (Hp & a & sk & Ha & Hsk & E)]].
    + eexists. split; [left; exact E | exact Fe].
    + eexists. split; [left; exact E | exact Fe].
    + match type of E with context [dispatch ?k ?e ?t ?d ?v ?x] =>
        destruct (dispatch_cases k e t d v x)
          as [(D & Hok) | (msg & D & Hno & (f & Hf))];
        destruct (after_level_lookup_frame (entry_level e) x)
          as (_ & _ & _ & _ & _ & Ae)
      end; rewrite D in E.
      * eexists. split; [left; exact E |]. state_cbn.
        destruct Ae as [-> | ->]; [exact Fe | now right].
      * eexists. split; [right; exact E |]. state_cbn.
        destruct Ae as [-> | ->]; [exact Fe | now right].
  - destruct C as [(Hp & E) | [(Hp & Hn & E) | (Hp & a & sk & Ha & Hsk & E)]].
    + split.
      * intros (code & s' & E'). congruence.
      * intros (_ & a & sk & f & Hp' & _). congruence.
    + split.
      * intros (code & s' & E'). congruence.
      * intros (_ & a & sk & f & _ & Ha & _). congruence.
    + match type of E with context [dispatch ?k ?e ?t ?d ?v ?x] =>
        destruct (dispatch_cases k e t d v x)
          as [(D & Hok) | (msg & D & Hno & (f & Hf))]
      end; rewrite D in E.
      * split.
        -- intros (code & s' & E'). congruence.
        -- intros (Hno & a' & sk' & f & _ & Ha' & Hsk' & Hf).
           assert (sk' = sk) as -> by congruence.
           destruct Hok; congruence.
      * split.
        -- intros _. split; [assumption |]. now exists a, sk, f.
        -- intros _. eexists _, _. exact E.
  - intros a sk f (Hp & Ha & Hsk & Hf) Hok _.
    destruct C as [(Hp' & _) | [(_ & Hn & _)
                                | (_ & a' & sk' & Ha' & Hsk' & E)]];
      [congruence | congruence |].
    assert (a' = a) as -> by congruence.
    assert (sk' = sk) as -> by congruence.
    match type of E with context [dispatch ?k ?e ?t ?d ?v ?x] =>
      destruct (dispatch_cases k e t d v x)
        as [(D & _) | (msg & _ & Hno & _)]; [| congruence];
      destruct (after_level_lookup_frame (entry_level e) x)
        as (_ & _ & _ & Ae & _)
    end.
    rewrite D in E. eexists. split; [exact E |]. state_cbn.
    rewrite Fi. split; [reflexivity |]. split.
    + apply in_or_app. right. unfold sink_events. rewrite Hf.
      apply in_or_app. left. right. now left.
    + now rewrite Ae, Fn.
Qed.

(** ** Emission without any sink *)

Lemma most_recent_one (l : list qd_log_entry_t) (e : qd_log_entry_t) :
  most_recent (recent_count 1 (length (l ++ [e]))) (l ++ [e]) = [e].
Proof.
  unfold most_recent, recent_count. rewrite length_app.
  change (1 <? 0)%Z with false. change (Z.to_nat 1) with 1%nat.
  cbn [length].
  replace (length l + 1 - Nat.min 1 (length l + 1))%nat with (length l)
    by lia.
  apply drop_app_length.
Qed.

Lemma most_recent_all (l : list qd_log_entry_t) :
  most_recent (recent_count (-1) (length l)) l = l.
Proof.
  unfold most_recent, recent_count. change (-1 <? 0)%Z with true.
  now rewrite Nat.sub_diag, drop_0.
Qed.

(** C10.  When a filter-passing emission resolves no sink (neither the
    source nor the default source has one), nothing is written, yet the
    record is appended to the history, and the recent-entries query returns
    it as its newest entry. *)
Theorem unsinked_emission_is_recorded (s : state) (h : nat)
    (src dsrc : qd_log_source_t) (level : Z) (file : option string) (line : Z)
    (text : string) (env : emit_env) :
  wf_state s -> source_list s !! h = Some src ->
  default_source s = Some dsrc ->
  src_sink src = None -> src_sink dsrc = None ->
  passes_filter level src dsrc = true ->
  let e := entry_of src level file line text env in
  exists s',
    qd_vlog_impl (Some h) level file line text env s = Ret tt s' /\
    io_trace s' = io_trace s /\
    entries s' = append_entry e (entries s) /\
    last (entries s') = Some e /\
    qd_log_recent_py false 1 s' = Ret (Some [py_entry_of e]) s' /\
    exists older,
      qd_log_recent_py false (-1) s'
      = Ret (Some (map py_entry_of older ++ [py_entry_of e])) s'.
Proof.
  intros Hwf Hs Hd Hk Hdk Hp e.
  destruct (count_event_frame h level s) as (_ & _ & Fe & Fi & _).
  assert (Hlen : (length (entries s) <= LIST_MAX)%nat) by apply Hwf.
  assert (Hshape : exists older, append_entry e (entries s) = older ++ [e]).
  { destruct (decide (length (entries s) = LIST_MAX)) as [Hf | Hf].
    - exists (tail (entries s)). now apply append_entry_full.
    - exists (entries s). apply append_entry_room. lia. }
  destruct Hshape as (older & Hshape).
  destruct (emit_cases h level file line text env _ _ _ Hwf Hs Hd)
    as [(Hp' & _) | [(_ & _ & E) | (_ & a & sk & Ha & _)]].
  - congruence.
  - eexists. split; [exact E |]. state_cbn. rewrite Fe, Fi. fold e.
    split; [reflexivity |]. split; [reflexivity |].
    rewrite !recent_query_eq. state_cbn. rewrite ?Fe. fold e.
    rewrite Hshape. split; [apply last_snoc |].
    rewrite most_recent_one, most_recent_all. split; [reflexivity |].
    exists older. now rewrite map_app.
  - unfold effective_sink in Ha. rewrite Hk, Hdk in Ha. discriminate.
Qed.

(** ** The sink registry *)


Lemma char_code_inj (c d : ascii) : char_code c = char_code d -> c = d.
Proof.
  unfold char_code. intros H. apply Nat2Z.inj in H.
  rewrite <- (ascii_nat_embedding c), <- (ascii_nat_embedding d).
  now rewrite H.
Qed.

Lemma strcmp_sym (a : string) : forall b,
  strcmp a b = 0%Z -> strcmp b a = 0%Z.
Proof.
  induction a as [|c a IH]; intros [|d b]; cbn [strcmp]; try easy.
  - lia.
  - intros H. lia.
  - rewrite (Ascii.eqb_sym d c). destruct (Ascii.eqb_spec c d) as [-> | Hne].
    + apply IH.
    + intros H. exfalso. apply Hne, char_code_inj. lia.
Qed.

Lemma find_sink_None (l : list (nat * log_sink_t)) (name : string) :
  find_sink l name = None <->
  Forall (fun p => strcmp (sink_name p.2) name <> 0%Z) l.
Proof.
  induction l as [|[a sk] l IH]; cbn [find_sink].
  - split; [constructor | reflexivity].
  - destruct (Z.eqb_spec (strcmp (sink_name sk) name) 0) as [E | N].
    + split; [discriminate |]. intros H. inversion H; subst. now cbn in *.
    + rewrite IH. split; [now constructor | now inversion 1].
Qed.

Lemma sink_at_In (l : list (nat * log_sink_t)) (a : nat) (sk : log_sink_t) :
  sink_at l a = Some sk -> In (a, sk) l.
Proof.
  induction l as [|[a' sk'] l IH]; cbn [sink_at]; [discriminate |].
  destruct (Nat.eqb_spec a' a) as [-> | _].
  - intros [= ->]. now left.
  - intros H. right. now apply IH.
Qed.

Lemma remove_sink_gone (l : list (nat * log_sink_t)) (a : nat) :
  NoDup (map fst l) -> sink_at (remove_sink a l) a = None.
Proof.
  induction l as [|[a' sk'] l IH]; intros Hnd; [reflexivity |].
  cbn [map fst] in Hnd. apply NoDup_cons in Hnd as (Hnot & Hnd).
  cbn [remove_sink]. destruct (Nat.eqb_spec a' a) as [-> | Hne].
  - destruct (sink_at l a) as [sk|] eqn:E; [| reflexivity].
    exfalso. apply Hnot. apply sink_at_In in E.
    apply list_elem_of_In. now apply (in_map fst) in E.
  - cbn [sink_at]. destruct (Nat.eqb_spec a' a); [contradiction |].
    now apply IH.
Qed.

Lemma remove_sink_name_free (l : list (nat * log_sink_t)) (a : nat)
    (sk : log_sink_t) :
  names_unique l -> sink_at l a = Some sk ->
  find_sink (remove_sink a l) (sink_name sk) = None.
Proof.
  induction l as [|[a' sk'] l IH]; intros Hu Hat; [discriminate |].
  cbn [names_unique snd] in Hu. destruct Hu as (Hfree & Hu).
  cbn [sink_at] in Hat. cbn [remove_sink].
  destruct (Nat.eqb_spec a' a) as [-> | Hne].
  - injection Hat as <-. exact Hfree.
  - cbn [find_sink].
    destruct (Z.eqb_spec (strcmp (sink_name sk') (sink_name sk)) 0)
      as [E | _]; [| now apply IH].
    exfalso. apply strcmp_sym in E.
    apply find_sink_None in Hfree.
    rewrite Forall_forall in Hfree.
    apply sink_at_In, list_elem_of_In in Hat.
    exact (Hfree _ Hat E).
Qed.

Lemma sink_at_set (l : list (nat * log_sink_t)) (a : nat)
    (sk sk' : log_sink_t) :
  sink_at l a = Some sk -> sink_at (set_sink a sk' l) a = Some sk'.
Proof.
  induction l as [|[b x] l IH]; cbn [sink_at set_sink]; [discriminate |].
  destruct (Nat.eqb_spec b a) as [-> | Hne]; cbn [sink_at].
  - now rewrite Nat.eqb_refl.
  - destruct (Nat.eqb_spec b a); [contradiction | exact IH].
Qed.

Lemma sink_at_app_fresh (l : list (nat * log_sink_t)) (a : nat)
    (sk : log_sink_t) :
  Forall (fun p => (p.1 < a)%nat) l -> sink_at (l ++ [(a, sk)]) a = Some sk.
Proof.
  induction l as [|[b x] l IH]; intros H; cbn [app sink_at].
  - now rewrite Nat.eqb_refl.
  - inversion H as [|? ? Hb Hl]; subst. cbn [fst] in Hb.
    destruct (Nat.eqb_spec b a); [lia | now apply IH].
Qed.

Lemma remove_sink_incl (l : list (nat * log_sink_t)) (a : nat)
    (P : nat * log_sink_t -> Prop) :
  Forall P l -> Forall P (remove_sink a l).
Proof.
  induction l as [|[b x] l IH]; intros H; [constructor |].
  inversion H; subst. cbn [remove_sink].
  destruct (b =? a)%nat; [assumption | constructor; auto].
Qed.

Lemma log_sink_free_lh_last (s : state) (a : nat) (sk : log_sink_t) :
  sink_at (sink_list s) a = Some sk -> sink_refcount sk = 1%Z ->
  log_sink_free_lh (Some a) s
  = Ret tt (with_io_trace (io_trace s ++ close_events sk)
              (with_sink_list (remove_sink a (sink_list s)) s)).
Proof.
  intros Hat Hrc. unfold log_sink_free_lh, close_events.
  unfold bind at 1. unfold get at 1. unfold bind at 1. rewrite Hat.
  cbn [deref]. unfold ret at 1. rewrite Hrc.
  change (1 =? 0)%Z with false. change (1 =? - INT_MAX - 1)%Z with false.
  change (1 - 1 =? 0)%Z with true. cbv iota.
  destruct (sink_file sk) as [f|]; [destruct (is_stderr f) |];
    destruct (sink_syslog sk); run_io.
Qed.

Lemma log_sink_free_lh_shared (s : state) (a : nat) (sk : log_sink_t) :
  sink_at (sink_list s) a = Some sk -> (1 < sink_refcount sk)%Z ->
  log_sink_free_lh (Some a) s
  = Ret tt (with_sink_list
              (set_sink a (with_refcount (sink_refcount sk - 1) sk)
                 (sink_list s)) s).
Proof.
  intros Hat Hrc. unfold log_sink_free_lh.
  unfold bind at 1. unfold get at 1. unfold bind at 1. rewrite Hat.
  cbn [deref]. unfold ret at 1.
  destruct (Z.eqb_spec (sink_refcount sk) 0) as [? | _]; [lia |].
  destruct (Z.eqb_spec (sink_refcount sk) (- INT_MAX - 1)) as [E | _].
  { unfold INT_MAX in E. lia. }
  destruct (Z.eqb_spec (sink_refcount sk - 1) 0) as [? | _]; [lia |].
  reflexivity.
Qed.

Lemma log_sink_lh_fresh (s : state) (name : string) (fopen_ok : bool) :
  find_sink (sink_list s) name = None -> sink_opens name fopen_ok = true ->
  exists syslog file evs,
    log_sink_lh name fopen_ok s
    = Ret (Some (sink_next s))
        (with_sink_next (S (sink_next s))
           (with_sink_list
              (sink_list s ++ [(sink_next s, mk_sink 1 name syslog file)])
              (with_io_trace (io_trace s ++ evs) s))).
Proof.
  intros Hfree Hopen. unfold log_sink_lh, find_log_sink_lh.
  unfold bind at 1. rewrite Hfree. unfold sink_opens in Hopen.
  destruct (strcmp name SINK_STDERR =? 0)%Z.
  { exists false, (Some stderr), []. run_io. }
  destruct (strcmp name SINK_STDOUT =? 0)%Z.
  { exists false, (Some stdout), []. run_io. }
  destruct (strcmp name SINK_SYSLOG =? 0)%Z.
  { exists true, None, [ev_openlog]. run_io. }
  cbn [orb] in Hopen. subst fopen_ok.
  exists false, (Some (fopened name)), [ev_fopen name true]. run_io.
Qed.

Lemma FILE_eqb_refl (f : FILE) : FILE_eqb f f = true.
Proof. destruct f; [reflexivity | reflexivity | apply String.eqb_refl]. Qed.

Lemma stream_closed_app (f : FILE) (t u : list event) :
  stream_closed f (t ++ u)
  = fold_left
      (fun closed e =>
         match e with
         | ev_fclose g => if FILE_eqb f g then true else closed
         | ev_fopen p true => if FILE_eqb f (fopened p) then false else closed
         | _ => closed
         end)
      u (stream_closed f t).
Proof. unfold stream_closed. apply fold_left_app. Qed.

(** The stream of a sink that is not the standard-error stream is closed
    once the sink's resource has been closed. *)
Lemma stream_closed_after_close (sk : log_sink_t) (f : FILE)
    (t : list event) :
  sink_file sk = Some f -> is_stderr f = false ->
  In (ev_fclose f) (close_events sk) /\
  stream_closed f (t ++ close_events sk) = true.
Proof.
  intros Hf Hne. unfold close_events. rewrite Hf, Hne. split.
  - now left.
  - rewrite stream_closed_app. cbn [app fold_left].
    rewrite FILE_eqb_refl. now destruct (sink_syslog sk).
Qed.

(** Acquiring "stdout" when no sink of that name is registered: nothing is
    opened, the new sink holds the standard-output stream as it is. *)
Lemma log_sink_lh_stdout (s : state) (fopen_ok : bool) :
  find_sink (sink_list s) SINK_STDOUT = None ->
  log_sink_lh SINK_STDOUT fopen_ok s
  = Ret (Some (sink_next s))
      (with_sink_next (S (sink_next s))
         (with_sink_list
            (sink_list s
             ++ [(sink_next s, mk_sink 1 SINK_STDOUT false (Some stdout))])
            s)).
Proof.
  intros Hf. unfold log_sink_lh, find_log_sink_lh. unfold bind at 1.
  rewrite Hf.
  change (strcmp SINK_STDOUT SINK_STDERR =? 0)%Z with false.
  change (strcmp SINK_STDOUT SINK_STDOUT =? 0)%Z with true.
  reflexivity.
Qed.

(** C7.  What a release does.  Releasing a registered sink decrements its
    reference count.  While the count stays positive the sink remains
    registered and nothing is closed.  When the count reaches zero the sink
    is removed from the registry and its resource is closed: a stream with
    [fclose], the system log with [closelog].  The guard of the [fclose]
    exempts the standard-error stream and no other: the standard-output
    stream of the sink named "stdout" is closed like a file.  A subsequent
    acquire of the same name, when the resource opens, registers a fresh
    sink with reference count 1; for "stdout", which like "stderr" is
    handed out without opening anything, the fresh sink holds the stream
    that the release has closed. *)
Theorem release_closes_standard_output (s : state) (a : nat)
    (sk : log_sink_t) (fopen_ok : bool) :
  registry_ok s -> sink_at (sink_list s) a = Some sk ->
  ((1 < sink_refcount sk)%Z ->
   exists s',
     log_sink_free_lh (Some a) s = Ret tt s' /\
     sink_at (sink_list s') a
     = Some (with_refcount (sink_refcount sk - 1) sk) /\
     io_trace s' = io_trace s)
  /\
  (sink_refcount sk = 1%Z ->
   exists s',
     log_sink_free_lh (Some a) s = Ret tt s' /\
     sink_list s' = remove_sink a (sink_list s) /\
     sink_at (sink_list s') a = None /\
     find_sink (sink_list s') (sink_name sk) = None /\
     io_trace s' = io_trace s ++ close_events sk /\
     ~ In (ev_fclose stderr) (close_events sk) /\
     (forall f,
        sink_file sk = Some f -> is_stderr f = false ->
        In (ev_fclose f) (close_events sk) /\
        stream_closed f (io_trace s') = true) /\
     (sink_opens (sink_name sk) fopen_ok = true ->
      exists a' s'' fresh,
        log_sink_lh (sink_name sk) fopen_ok s' = Ret (Some a') s'' /\
        sink_at (sink_list s'') a' = Some fresh /\
        sink_refcount fresh = 1%Z /\ sink_name fresh = sink_name sk /\
        (sink_name sk = SINK_STDOUT -> sink_file sk = Some stdout ->
         sink_file fresh = Some stdout /\
         io_trace s'' = io_trace s' /\
         stream_closed stdout (io_trace s'') = true))).
Proof.
  intros (Hnd & Hu & Hall) Hat. split.
  - intros Hrc. eexists.
    split; [exact (log_sink_free_lh_shared s a sk Hat Hrc) |].
    state_cbn. split; [| reflexivity]. now apply (sink_at_set _ _ sk).
  - intros Hrc. eexists.
    split; [exact (log_sink_free_lh_last s a sk Hat Hrc) |].
    state_cbn. split; [reflexivity |].
    split; [now apply remove_sink_gone |].
    split; [now apply remove_sink_name_free |].
    split; [reflexivity |]. split.
    { unfold close_events. intros Hin. apply in_app_or in Hin as [Hin | Hin].
      - destruct (sink_file sk) as [[| |p]|]; cbn in Hin;
          intuition discriminate.
      - destruct (sink_syslog sk); cbn in Hin; intuition discriminate. }
    split.
    { intros f Hf Hne. now apply stream_closed_after_close. }
    intros Hopen.
    assert (Hfree : find_sink (remove_sink a (sink_list s)) (sink_name sk)
                    = None) by (now apply remove_sink_name_free).
    assert (Hlt : Forall (fun p : nat * log_sink_t => (p.1 < sink_next s)%nat)
                    (remove_sink a (sink_list s))).
    { apply remove_sink_incl. eapply Forall_impl; [exact Hall |].
      now intros p (_ & ?). }
    destruct (string_dec (sink_name sk) SINK_STDOUT) as [Hname | Hname].
    + rewrite Hname in *.
      match goal with |- context [log_sink_lh _ _ ?x] =>
        pose proof (log_sink_lh_stdout x fopen_ok Hfree) as E
      end.
      state_cbn. eexists _, _, _. split; [exact E |]. state_cbn.
      split; [now apply sink_at_app_fresh |].
      split; [reflexivity |]. split; [reflexivity |].
      intros _ Hf. split; [reflexivity |]. split; [reflexivity |].
      now apply (stream_closed_after_close sk stdout).
    + match goal with |- context [log_sink_lh _ _ ?x] =>
        destruct (log_sink_lh_fresh x (sink_name sk) fopen_ok)
          as (syslog & file & evs & E)
      end; [exact Hfree | assumption |].
      state_cbn. eexists _, _, _. split; [exact E |]. state_cbn.
      split; [now apply sink_at_app_fresh |].
      split; [reflexivity |]. split; [reflexivity |].
      intros Hn. contradiction.
Qed.

(** ** Sources: lookup, creation and reset *)

Lemma strcasecmp_refl (a : string) : strcasecmp a a = 0%Z.
Proof.
  induction a as [|c a IH]; [reflexivity |].
  cbn [strcasecmp]. now rewrite Ascii.eqb_refl.
Qed.

Lemma find_source_modules (l l' : list qd_log_source_t) (module : string) :
  map src_module l = map src_module l' ->
  forall i, find_source i l module = find_source i l' module.
Proof.
  revert l'. induction l as [|x l IH]; intros [|x' l'] E i;
    try discriminate; [reflexivity |].
  cbn [map] in E. injection E as Ex El. cbn [find_source].
  rewrite Ex. destruct (_ =? 0)%Z; [reflexivity | now apply IH].
Qed.

Lemma find_source_app (l l' : list qd_log_source_t) (module : string) :
  forall i,
    find_source i l module = None ->
    find_source i (l ++ l') module = find_source (i + length l) l' module.
Proof.
  induction l as [|x l IH]; intros i H; cbn [app length].
  - now rewrite Nat.add_0_r.
  - cbn [find_source] in *. destruct (_ =? 0)%Z; [discriminate |].
    rewrite IH by assumption. f_equal. lia.
Qed.

Lemma find_source_lt (l : list qd_log_source_t) (module : string) :
  forall i h, find_source i l module = Some h ->
              (i <= h < i + length l)%nat.
Proof.
  induction l as [|x l IH]; intros i h H; [discriminate |].
  cbn [find_source length] in *. destruct (_ =? 0)%Z.
  - injection H as <-. lia.
  - apply IH in H. lia.
Qed.

Lemma modules_insert_defaults (l : list qd_log_source_t) (h : nat)
    (src : qd_log_source_t) :
  l !! h = Some src ->
  map src_module (<[h := qd_log_source_defaults src]> l) = map src_module l.
Proof.
  intros H. change (map src_module) with (fmap (M := list) src_module).
  rewrite list_fmap_insert. apply list_insert_id.
  now rewrite list_lookup_fmap, H.
Qed.

(** The handle [qd_log_source_lh] returns is that of a registered source;
    the call touches neither the sink registry nor the outside world. *)
Lemma qd_log_source_lh_eq (module : string) (s : state) :
  wf_state s ->
  exists h s1 src,
    qd_log_source_lh module s = Ret h s1 /\
    source_list s1 !! h = Some src /\
    lookup_log_source_lh module s1 = Ret (Some h) s1 /\
    default_log_source s1 = default_log_source s /\
    sink_list s1 = sink_list s /\ io_trace s1 = io_trace s /\
    (forall j x, source_list s !! j = Some x -> source_list s1 !! j = Some x).
Proof.
  intros (Hd & _). destruct Hd as [dsrc Hd].
  apply default_source_eq in Hd as (d & Hd & Hds).
  unfold qd_log_source_lh. unfold bind at 1.
  unfold lookup_log_source_lh at 1.
  destruct (if (strcasecmp module SOURCE_DEFAULT =? 0)%Z
            then default_log_source s
            else find_source 0 (source_list s) module) as [h|] eqn:El.
  - assert (Hh : exists src, source_list s !! h = Some src).
    { destruct (strcasecmp module SOURCE_DEFAULT =? 0)%Z.
      - rewrite Hd in El. injection El as <-. now exists dsrc.
      - apply find_source_lt in El. apply lookup_lt_is_Some. lia. }
    destruct Hh as (src & Hh). exists h, s, src.
    unfold lookup_log_source_lh. rewrite El. now repeat split.
  - destruct (strcasecmp module SOURCE_DEFAULT =? 0)%Z eqn:Ed;
      [congruence |].
    eexists _, _, _. split; [run_io |]. state_cbn.
    split; [apply list_lookup_middle; reflexivity |].
    split; [| split; [reflexivity | split; [reflexivity | split;
                                            [reflexivity |]]]].
    + unfold lookup_log_source_lh. state_cbn. rewrite Ed.
      rewrite find_source_app by assumption. cbn [find_source].
      cbn [src_module qd_log_source_defaults]. now rewrite strcasecmp_refl.
    + intros j x Hj. now apply lookup_app_l_Some.
Qed.

(** C8.  What [qd_log_source_reset] does: the source's mask, timestamp and
    call-site-display fields are unset, its sink pointer is null, its seven
    counters are zero, and the same module resolves to the same source
    afterwards.  The sink registry and the outside world are left exactly as
    they were: the sink the source held is neither released (its reference
    count is not decremented) nor closed. *)
Theorem reset_drops_sink_without_release (s : state) (module : string) :
  wf_state s ->
  exists h s' src',
    qd_log_source_reset module s = Ret h s' /\
    source_list s' !! h = Some src' /\
    src_mask src' = (-1)%Z /\ src_timestamp src' = (-1)%Z /\
    src_source src' = (-1)%Z /\ src_sink src' = None /\
    src_severity_histogram src' = replicate N_LEVEL_INDICES 0%Z /\
    (forall src, source_list s !! h = Some src ->
                 src_module src' = src_module src) /\
    qd_log_source_lh module s' = Ret h s' /\
    sink_list s' = sink_list s /\ io_trace s' = io_trace s.
Proof.
  intros Hwf.
  destruct (qd_log_source_lh_eq module s Hwf)
    as (h & s1 & src & E & Hs & Hl & Hd & Hk & Hi & Hkeep).
  unfold qd_log_source_reset. rewrite (bind_ret _ _ _ _ _ E).
  unfold bind at 1. rewrite (store_source_eq _ _ _ _ Hs). unfold ret at 1.
  eexists _, _, _. split; [reflexivity |]. state_cbn.
  split; [apply list_lookup_insert_eq; now apply lookup_lt_Some in Hs |].
  do 5 (split; [reflexivity |]).
  split; [| split; [| now split]].
  - intros src0 H0. apply Hkeep in H0. rewrite Hs in H0.
    now injection H0 as ->.
  - unfold qd_log_source_lh. unfold bind at 1.
    unfold lookup_log_source_lh in *. state_cbn.
    injection Hl as Hl. 
    rewrite (find_source_modules _ (source_list s1))
      by now apply modules_insert_defaults.
    now rewrite Hl.
Qed.

(** ** The administrative update with an invalid enable string *)

Lemma level_for_name_recognized (token : string) (s : state) :
  recognized token = true ->
  exists lv,
    level_for_name token (strlen token - token_plus token) s = Ret (Some lv) s.
Proof.
  unfold recognized, level_for_name. intros H.
  apply negb_true_iff in H. rewrite H. eexists. reflexivity.
Qed.

Lemma level_for_name_unrecognized (token : string) (s : state) :
  recognized token = false ->
  level_for_name token (strlen token - token_plus token) s
  = Ret None
      (with_qd_error_slot
         (Some (QD_ERROR_CONFIG, unknown_level_message token (level_names s)))
         s).
Proof.
  unfold recognized, level_for_name. intros H.
  apply negb_false_iff in H. rewrite H. reflexivity.
Qed.

(** The token loop stops at the first token that resolves to no level, with
    -1 and the error that names the token. *)
Lemma enable_mask_loop_unrecognized (tokens : list string) (token : string) :
  List.find (fun t => negb (recognized t)) tokens = Some token ->
  forall (mask : Z) (s : state),
    enable_mask_loop tokens mask s
    = Ret (-1)%Z
        (with_qd_error_slot
           (Some (QD_ERROR_CONFIG,
                  unknown_level_message token (level_names s))) s).
Proof.
  induction tokens as [|t tokens IH]; intros H mask s; [discriminate |].
  cbn [List.find] in H. cbn [enable_mask_loop]. fold (token_plus t).
  destruct (recognized t) eqn:Er; cbn [negb] in H.
  - destruct (level_for_name_recognized t s Er) as (lv & E).
    rewrite (bind_ret _ _ _ _ _ E). now apply IH.
  - injection H as <-.
    now rewrite (bind_ret _ _ _ _ _ (level_for_name_unrecognized t s Er)).
Qed.

(** C4.  What [qd_log_entity] does with an enable string that holds an
    unrecognized token (and no [output] field): it returns the
    configuration error whose message names the first such token and lists
    the valid level names, and it stores the -1 that [enable_mask] returned
    as the source's mask, whatever the mask was before the call; the
    [timestamp] and [source] fields of the request are not applied. *)
Theorem invalid_enable_overwrites_mask (s : state) (module enable : string)
    (timestamp source : option bool) (fopen_ok : bool) (h : nat)
    (src : qd_log_source_t) (token : string) :
  lookup_log_source_lh module s = Ret (Some h) s ->
  source_list s !! h = Some src ->
  first_unrecognized enable = Some token ->
  exists s',
    qd_log_entity (mk_entity module None (Some enable) timestamp source)
      fopen_ok s
    = Ret QD_ERROR_CONFIG s' /\
    qd_error_slot s'
    = Some (QD_ERROR_CONFIG, unknown_level_message token (level_names s)) /\
    source_list s' !! h = Some (with_src_mask (-1) src).
Proof.
  intros Hl Hs Hbad. unfold qd_log_entity.
  unfold bind at 1. unfold qd_error_clear at 1. unfold modify at 1.
  set (s0 := with_qd_error_slot None s).
  assert (Hl0 : lookup_log_source_lh module s0 = Ret (Some h) s0).
  { unfold lookup_log_source_lh in *. injection Hl as Hl.
    subst s0. state_cbn. now rewrite Hl. }
  assert (Hsrc : qd_log_source_lh module s0 = Ret h s0).
  { unfold qd_log_source_lh. now rewrite (bind_ret _ _ _ _ _ Hl0). }
  assert (Hmask :
    enable_mask enable s0
    = Ret (-1)%Z
        (with_qd_error_slot
           (Some (QD_ERROR_CONFIG,
                  unknown_level_message token (level_names s))) s0)).
  { unfold enable_mask.
    now rewrite (enable_mask_loop_unrecognized _ token Hbad). }
  cbn [ent_module ent_output ent_enable ent_timestamp ent_source].
  unfold bind at 1. unfold QD_ERROR_BREAK at 1. unfold bind at 1.
  unfold qd_error_code at 1. subst s0. state_cbn. cbn [error_code_of].
  rewrite (bind_ret _ _ _ _ _ Hsrc).
  unfold bind at 1. unfold QD_ERROR_BREAK at 1. unfold bind at 1.
  unfold qd_error_code at 1. state_cbn. cbn [error_code_of].
  rewrite (bind_ret _ _ _ _ _ Hmask).
  erewrite store_source_eq by (state_cbn; exact Hs).
  state_cbn.
  unfold QD_ERROR_BREAK at 1. unfold bind at 1.
  unfold qd_error_code at 1. state_cbn. cbn [error_code_of].
  unfold ret at 1. unfold qd_error_code. state_cbn. cbn [error_code_of].
  eexists. split; [reflexivity |]. state_cbn.
  split; [reflexivity |].
  apply list_lookup_insert_eq. now apply lookup_lt_Some in Hs.
Qed.

(** ** Well-formedness is established and kept *)

(** Initialisation, on any platform, ends in a well-formed state with a
    well-formed sink registry. *)
Lemma qd_log_initialize_wf :
  exists s,
    qd_log_initialize initial_state = Ret tt s /\
    wf_state s /\ registry_ok s.
Proof.
  exists (run qd_log_initialize initial_state). split; [| split].
  - vm_compute. reflexivity.
  - apply (bool_decide_unpack _). vm_compute. exact I.
  - apply (bool_decide_unpack _). vm_compute. exact I.
Qed.

(** Every emission that does not fault ends in a well-formed state. *)
Lemma qd_vlog_impl_wf (h : nat) (level : Z) (file : option string) (line : Z)
    (text : string) (env : emit_env) (src : qd_log_source_t) (s : state) :
  wf_state s -> source_list s !! h = Some src ->
  exists s',
    final_state (qd_vlog_impl (Some h) level file line text env s) = Some s' /\
    wf_state s'.
Proof.
  intros Hwf Hs. destruct (wf_default _ Hwf) as (dsrc & Hd & _).
  destruct (emit_final h level file line text env _ _ _ Hwf Hs Hd)
    as (s' & E & Es & Ed & Ek & _).
  destruct (emit_entries h level file line text env _ _ _ Hwf Hs Hd)
    as (s'' & E' & He).
  rewrite E in E'. injection E' as <-.
  exists s'. split; [exact E |].
  destruct (count_event_frame h level s) as (Fd & Fk & _).
  apply (wf_state_frame (count_event h level s)).
  - now apply count_event_wf.
  - exact Es.
  - now rewrite Ed, Fd.
  - now rewrite Ek, Fk.
  - destruct He as [-> | ->]; [apply Hwf |].
    apply append_entry_length, Hwf.
Qed.

(** Looking a source up, which may create it, keeps well-formedness. *)
Lemma qd_log_source_lh_wf (module : string) (s : state) :
  wf_state s ->
  exists h s1 src,
    qd_log_source_lh module s = Ret h s1 /\
    source_list s1 !! h = Some src /\ wf_state s1.
Proof.
  intros Hwf. pose proof Hwf as (Hd & Hall & Hlen).
  destruct Hd as [dsrc Hd].
  apply default_source_eq in Hd as (d & Hd & Hds).
  unfold qd_log_source_lh. unfold bind at 1.
  unfold lookup_log_source_lh at 1.
  destruct (if (strcasecmp module SOURCE_DEFAULT =? 0)%Z
            then default_log_source s
            else find_source 0 (source_list s) module) as [h|] eqn:El.
  - assert (Hh : exists src, source_list s !! h = Some src).
    { destruct (strcasecmp module SOURCE_DEFAULT =? 0)%Z.
      - rewrite Hd in El. injection El as <-. now exists dsrc.
      - apply find_source_lt in El. apply lookup_lt_is_Some. lia. }
    destruct Hh as (src & Hh). now exists h, s, src.
  - eexists _, _, _. split; [run_io |]. state_cbn.
    split; [apply list_lookup_middle; reflexivity |].
    split; [| split]; state_cbn.
    + unfold default_source. state_cbn. rewrite Hd.
      rewrite lookup_app_l by (now apply lookup_lt_Some in Hds).
      now exists dsrc.
    + apply Forall_app. split.
      * eapply Forall_impl; [exact Hall |]. intros x Hx.
        now apply (source_ok_frame s).
      * constructor; [| constructor].
        split; [apply length_replicate | exact I].
    + exact Hlen.
Qed.

(** A reset, which may create the source, ends in a well-formed state. *)
Lemma qd_log_source_reset_wf (module : string) (s : state) :
  wf_state s ->
  exists h s', qd_log_source_reset module s = Ret h s' /\ wf_state s'.
Proof.
  intros Hwf.
  destruct (qd_log_source_lh_wf module s Hwf)
    as (h & s1 & src & E & Hs & Hd & Hall & Hlen).
  unfold qd_log_source_reset. rewrite (bind_ret _ _ _ _ _ E).
  unfold bind at 1. rewrite (store_source_eq _ _ _ _ Hs). unfold ret.
  eexists _, _. split; [reflexivity |].
  destruct Hd as [dsrc Hd].
  apply default_source_eq in Hd as (d & Hd & Hds).
  split; [| split]; state_cbn.
  - unfold default_source. state_cbn. rewrite Hd.
    destruct (decide (h = d)) as [-> | Hne].
    + rewrite list_lookup_insert_eq by (now apply lookup_lt_Some in Hds).
      now eexists.
    + rewrite list_lookup_insert_ne by assumption. now exists dsrc.
  - apply Forall_insert.
    + eapply Forall_impl; [exact Hall |]. intros x Hx.
      now apply (source_ok_frame s1).
    + split; [apply length_replicate | exact I].
  - exact Hlen.
Qed.

(** ** The registry invariant is kept by acquire and release *)

Lemma set_sink_addresses (a : nat) (sk : log_sink_t)
    (l : list (nat * log_sink_t)) :
  map fst (set_sink a sk l) = map fst l.
Proof.
  induction l as [|[b x] l IH]; [reflexivity |].
  cbn [set_sink]. destruct (b =? a)%nat; cbn [map fst]; [reflexivity |].
  now rewrite IH.
Qed.

Lemma find_sink_set (a : nat) (sk : log_sink_t) (name : string)
    (l : list (nat * log_sink_t)) :
  (forall x, sink_at l a = Some x -> sink_name sk = sink_name x) ->
  find_sink (set_sink a sk l) name = find_sink l name.
Proof.
  induction l as [|[b x] l IH]; intros H; [reflexivity |].
  cbn [set_sink sink_at] in *. destruct (Nat.eqb_spec b a) as [-> | Hne].
  - cbn [find_sink]. now rewrite (H x eq_refl).
  - cbn [find_sink]. destruct (_ =? 0)%Z; [reflexivity | now apply IH].
Qed.

Lemma names_unique_set (a : nat) (sk : log_sink_t)
    (l : list (nat * log_sink_t)) :
  (forall x, sink_at l a = Some x -> sink_name sk = sink_name x) ->
  NoDup (map fst l) ->
  names_unique l -> names_unique (set_sink a sk l).
Proof.
  induction l as [|[b x] l IH]; intros H Hnd Hu; [exact I |].
  cbn [map fst] in Hnd. apply NoDup_cons in Hnd as (Hnot & Hnd).
  cbn [names_unique snd] in Hu. destruct Hu as (Hfree & Hu).
  cbn [set_sink sink_at] in *. destruct (Nat.eqb_spec b a) as [-> | Hne].
  - cbn [names_unique snd]. split; [| exact Hu].
    now rewrite (H x eq_refl).
  - cbn [names_unique snd]. split; [| now apply IH].
    rewrite find_sink_set; assumption.
Qed.

Lemma remove_sink_sub (a : nat) (l : list (nat * log_sink_t)) :
  forall p, In p (remove_sink a l) -> In p l.
Proof.
  induction l as [|[b x] l IH]; intros p Hp; [contradiction |].
  cbn [remove_sink] in Hp. destruct (b =? a)%nat; [now right |].
  destruct Hp as [<- | Hp]; [now left | right; now apply IH].
Qed.

Lemma remove_sink_NoDup (a : nat) (l : list (nat * log_sink_t)) :
  NoDup (map fst l) -> NoDup (map fst (remove_sink a l)).
Proof.
  induction l as [|[b x] l IH]; intros Hnd; [constructor |].
  cbn [map fst] in Hnd. apply NoDup_cons in Hnd as (Hnot & Hnd).
  cbn [remove_sink]. destruct (b =? a)%nat; [assumption |].
  cbn [map fst]. apply NoDup_cons. split; [| now apply IH].
  intros Hin. apply Hnot. apply list_elem_of_In in Hin.
  apply list_elem_of_In. apply in_map_iff in Hin as (p & <- & Hp).
  apply in_map. now apply (remove_sink_sub a).
Qed.

Lemma find_sink_remove (a : nat) (name : string)
    (l : list (nat * log_sink_t)) :
  find_sink l name = None -> find_sink (remove_sink a l) name = None.
Proof.
  rewrite !find_sink_None, !Forall_forall. intros H p Hp.
  apply H. apply list_elem_of_In. apply list_elem_of_In in Hp.
  now apply (remove_sink_sub a).
Qed.

Lemma names_unique_remove (a : nat) (l : list (nat * log_sink_t)) :
  names_unique l -> names_unique (remove_sink a l).
Proof.
  induction l as [|[b x] l IH]; intros Hu; [exact I |].
  cbn [names_unique snd] in Hu. destruct Hu as (Hfree & Hu).
  cbn [remove_sink]. destruct (b =? a)%nat; [assumption |].
  cbn [names_unique snd]. split; [now apply find_sink_remove | now apply IH].
Qed.

Lemma find_sink_app (l l' : list (nat * log_sink_t)) (name : string) :
  find_sink l name = None -> find_sink (l ++ l') name = find_sink l' name.
Proof.
  induction l as [|[b x] l IH]; intros H; [reflexivity |].
  cbn [app find_sink] in *. destruct (_ =? 0)%Z; [discriminate |].
  now apply IH.
Qed.

Lemma names_unique_snoc (l : list (nat * log_sink_t)) (a : nat)
    (sk : log_sink_t) :
  names_unique l -> find_sink l (sink_name sk) = None ->
  names_unique (l ++ [(a, sk)]).
Proof.
  induction l as [|[b x] l IH]; intros Hu Hfree.
  - cbn. now split.
  - cbn [names_unique snd] in Hu. destruct Hu as (Hx & Hu).
    cbn [find_sink] in Hfree.
    destruct (Z.eqb_spec (strcmp (sink_name x) (sink_name sk)) 0)
      as [? | Hne]; [discriminate |].
    cbn [app names_unique snd]. split; [| now apply IH].
    rewrite find_sink_app by assumption. cbn [find_sink].
    destruct (Z.eqb_spec (strcmp (sink_name sk) (sink_name x)) 0)
      as [E | _]; [| reflexivity].
    exfalso. apply Hne. now apply strcmp_sym.
Qed.

Lemma sink_at_set_other (l : list (nat * log_sink_t)) (a b : nat)
    (sk : log_sink_t) :
  a <> b -> sink_at (set_sink a sk l) b = sink_at l b.
Proof.
  intros Hne. induction l as [|[c x] l IH]; [reflexivity |].
  cbn [set_sink]. destruct (Nat.eqb_spec c a) as [-> | Hc]; cbn [sink_at].
  - destruct (Nat.eqb_spec a b); [contradiction | reflexivity].
  - destruct (c =? b)%nat; [reflexivity | exact IH].
Qed.

Lemma set_sink_Forall (P : nat * log_sink_t -> Prop) (a : nat)
    (sk : log_sink_t) (l : list (nat * log_sink_t)) :
  P (a, sk) -> Forall P l -> Forall P (set_sink a sk l).
Proof.
  intros Hp. induction l as [|[b x] l IH]; intros H; [constructor |].
  inversion H; subst. cbn [set_sink].
  destruct (Nat.eqb_spec b a) as [-> | _]; constructor; auto.
Qed.

(** A release that returns keeps the registry invariant. *)
Lemma log_sink_free_lh_registry_ok (sink : option nat) (s s' : state) :
  registry_ok s -> log_sink_free_lh sink s = Ret tt s' -> registry_ok s'.
Proof.
  intros (Hnd & Hu & Hall) E. destruct sink as [a|];
    [| injection E as <-; now repeat split].
  destruct (sink_at (sink_list s) a) as [sk|] eqn:Hat.
  2:{ unfold log_sink_free_lh, bind, get, deref in E.
      rewrite Hat in E. discriminate. }
  assert (Hrc : (1 <= sink_refcount sk)%Z).
  { apply sink_at_In, list_elem_of_In in Hat.
    rewrite Forall_forall in Hall. apply (Hall _ Hat). }
  destruct (decide (sink_refcount sk = 1%Z)) as [H1 | Hn1].
  - rewrite (log_sink_free_lh_last s a sk Hat H1) in E.
    injection E as <-. unfold registry_ok. state_cbn.
    split; [now apply remove_sink_NoDup |].
    split; [now apply names_unique_remove |].
    now apply remove_sink_incl.
  - rewrite (log_sink_free_lh_shared s a sk Hat) in E by lia.
    injection E as <-. unfold registry_ok. state_cbn.
    split; [now rewrite set_sink_addresses |].
    split.
    + apply names_unique_set; try assumption.
      intros x Hx. rewrite Hat in Hx. now injection Hx as <-.
    + apply set_sink_Forall; [| assumption]. cbn [fst snd with_refcount
                                                  sink_refcount].
      split; [lia |].
      apply sink_at_In, list_elem_of_In in Hat.
      rewrite Forall_forall in Hall. apply (Hall _ Hat).
Qed.

(** An acquire that returns keeps the registry invariant. *)
Lemma log_sink_lh_registry_ok (name : string) (fopen_ok : bool)
    (sink : option nat) (s s' : state) :
  registry_ok s -> log_sink_lh name fopen_ok s = Ret sink s' ->
  registry_ok s'.
Proof.
  intros (Hnd & Hu & Hall) E. unfold log_sink_lh, find_log_sink_lh in E.
  unfold bind at 1 in E.
  destruct (find_sink (sink_list s) name) as [a|] eqn:Hf.
  - unfold bind at 1 in E. unfold get at 1 in E. unfold bind at 1 in E.
    destruct (sink_at (sink_list s) a) as [sk|] eqn:Hat; [| discriminate].
    cbn [deref] in E. unfold ret at 1 in E.
    destruct (Z.eqb_spec (sink_refcount sk) INT_MAX); [discriminate |].
    cbv [bind modify ret] in E. injection E as _ <-.
    unfold registry_ok. state_cbn.
    split; [now rewrite set_sink_addresses |].
    split.
    + apply names_unique_set; try assumption.
      intros x Hx. rewrite Hat in Hx. now injection Hx as <-.
    + apply sink_at_In, list_elem_of_In in Hat.
      rewrite Forall_forall in Hall. destruct (Hall _ Hat) as (Hrc & Hlt).
      apply set_sink_Forall; [| now apply Forall_forall].
      cbn [fst snd with_refcount sink_refcount] in *. split; [lia | exact Hlt].
  - assert (Hnew : forall syslog file evs,
              registry_ok
                (with_sink_next (S (sink_next s))
                   (with_sink_list
                      (sink_list s
                       ++ [(sink_next s, mk_sink 1 name syslog file)])
                      (with_io_trace (io_trace s ++ evs) s)))).
    { intros syslog file evs. unfold registry_ok. state_cbn.
      split; [| split].
      - rewrite map_app. cbn [map fst]. apply NoDup_app.
        split; [assumption |]. split; [| apply NoDup_singleton].
        intros b Hb Hin. apply list_elem_of_singleton in Hin. subst b.
        apply list_elem_of_In, in_map_iff in Hb as (p & Hp1 & Hp).
        rewrite Forall_forall in Hall. apply list_elem_of_In in Hp.
        destruct (Hall _ Hp) as (_ & Hlt). lia.
      - now apply names_unique_snoc.
      - apply Forall_app. split.
        + eapply Forall_impl; [exact Hall |]. intros p (? & ?).
          split; [assumption | lia].
        + constructor; [| constructor]. cbn. split; lia. }
    destruct (strcmp name SINK_STDERR =? 0)%Z.
    { cbv [bind ret get modify] in E. state_cbn. injection E as _ <-.
      specialize (Hnew false (Some stderr) []).
      rewrite app_nil_r in Hnew. exact Hnew. }
    destruct (strcmp name SINK_STDOUT =? 0)%Z.
    { cbv [bind ret get modify] in E. state_cbn. injection E as _ <-.
      specialize (Hnew false (Some stdout) []).
      rewrite app_nil_r in Hnew. exact Hnew. }
    destruct (strcmp name SINK_SYSLOG =? 0)%Z.
    { cbv [bind ret get modify emit_event] in E. state_cbn.
      injection E as _ <-. exact (Hnew true None [ev_openlog]). }
    destruct fopen_ok.
    + cbv [bind ret get modify emit_event] in E. state_cbn.
      injection E as _ <-.
      exact (Hnew false (Some (fopened name)) [ev_fopen name true]).
    + cbv [bind ret get modify emit_event qd_error deref fault] in E.
      state_cbn. destruct (printf_no_args _) in E; [| discriminate].
      injection E as _ <-. unfold registry_ok. state_cbn.
      now repeat split.
Qed.

(** ** Level lookups: abbreviations, thresholds, ranges *)

Lemma tolower_nul (c : ascii) :
  Ascii.eqb (tolower c) zero = Ascii.eqb c zero.
Proof. destruct c as [[] [] [] [] [] [] [] []]; reflexivity. Qed.

Lemma char_code_nul (c : ascii) :
  Ascii.eqb c zero = false -> char_code c <> 0%Z.
Proof.
  intros H E. apply (char_code_inj c zero) in E. subst c. discriminate.
Qed.

(** [strncasecmp] against the first [n] characters of [b]: zero exactly
    when their lower-case form is a prefix of the lower-case [a]. *)
Lemma strncasecmp_is_prefix (n : nat) :
  forall a b : string,
    (n <= String.length b)%nat ->
    no_nul (String.substring 0 n b) = true ->
    (strncasecmp a b n =? 0)%Z
    = is_prefix (lower (String.substring 0 n b)) (lower a).
Proof.
  induction n as [|n IH]; intros a b Hn Hnul.
  - destruct b; reflexivity.
  - destruct b as [|c b]; [cbn in Hn; lia |].
    cbn [String.substring] in *. cbn [no_nul] in Hnul.
    apply andb_prop in Hnul as [Hc Hnul]. apply negb_true_iff in Hc.
    cbn [String.length] in Hn. cbn [lower strncasecmp].
    destruct a as [|x a].
    + cbn [lower is_prefix].
      apply Z.eqb_neq. rewrite <- tolower_nul in Hc.
      pose proof (char_code_nul _ Hc). lia.
    + cbn [lower is_prefix]. rewrite (Ascii.eqb_sym (tolower c) (tolower x)).
      destruct (Ascii.eqb_spec (tolower x) (tolower c)) as [E | Hne].
      * cbn [andb]. apply IH; [lia | assumption].
      * cbn [andb]. apply Z.eqb_neq. intros E. apply Hne, char_code_inj. lia.
Qed.

Lemma scan_levels_find (p : level_t -> bool) :
  (let i := scan_levels p 0 N_LEVELS in
   if (i =? N_LEVELS)%nat then None else Some (levels_at i))
  = List.find p levels.
Proof.
  cbv [scan_levels N_LEVELS List.find levels levels_at List.nth].
  repeat match goal with
         | |- context [if p ?lv then _ else _] => destruct (p lv)
         end; reflexivity.
Qed.

Lemma lower_levels : Forall (fun lv => lower (lvl_name lv) = lvl_name lv) levels.
Proof. repeat constructor. Qed.

Lemma find_ext_in {A} (p q : A -> bool) (l : list A) :
  Forall (fun x => p x = q x) l -> List.find p l = List.find q l.
Proof.
  induction 1 as [|x l Hx _ IH]; [reflexivity |].
  cbn [List.find]. now rewrite Hx, IH.
Qed.

(** X1.  [level_for_name name len] resolves the first [len] characters of
    [name] as a case-insensitive abbreviation: the result is the first level
    of the table whose name starts with them (so the empty abbreviation
    gives "default"), and when no name does, the null result with the
    configuration error that quotes [name] and the valid names. *)
Theorem level_for_name_resolves_abbreviations (name : string) (len : nat)
    (s : state) :
  (len <= strlen name)%nat ->
  no_nul (String.substring 0 len name) = true ->
  level_for_name name len s
  = match first_level_with_prefix (lower (String.substring 0 len name)) with
    | Some lv => Ret (Some lv) s
    | None =>
        Ret None
          (with_qd_error_slot
             (Some (QD_ERROR_CONFIG,
                    unknown_level_message name (level_names s))) s)
    end.
Proof.
  intros Hlen Hnul. unfold first_level_with_prefix.
  rewrite <- (find_ext_in
                (fun lv => (strncasecmp (lvl_name lv) name len =? 0)%Z)).
  2:{ eapply Forall_impl; [exact lower_levels |]. intros lv Hlv. cbv beta.
      rewrite strncasecmp_is_prefix by assumption. now rewrite Hlv. }
  rewrite <- scan_levels_find. cbv zeta. unfold level_for_name.
  destruct (_ =? N_LEVELS)%nat; reflexivity.
Qed.

(** X2.  A source whose own mask is the at-or-above mask of a severity
    (what "name+" contributes) lets through exactly the severities at or
    above it; one whose mask is the bit of a severity (what a bare name
    contributes) lets through exactly that severity. *)
Theorem mask_thresholds (s : state) (h : nat) (src : qd_log_source_t)
    (i j : nat) :
  source_list s !! h = Some src ->
  (TRACE <= i <= CRITICAL)%nat -> (TRACE <= j <= CRITICAL)%nat ->
  (src_mask src = lvl_mask (levels_at i) ->
   qd_log_enabled (Some h) (lvl_bit (levels_at j)) s = Ret (i <=? j)%nat s) /\
  (src_mask src = lvl_bit (levels_at i) ->
   qd_log_enabled (Some h) (lvl_bit (levels_at j)) s = Ret (i =? j)%nat s).
Proof.
  intros Hs Hi Hj. unfold TRACE, CRITICAL in *.
  assert (Hcases : forall k, (2 <= k <= 8)%nat ->
            k = 2%nat \/ k = 3%nat \/ k = 4%nat \/ k = 5%nat \/ k = 6%nat \/
            k = 7%nat \/ k = 8%nat) by (intros; lia).
  split; intros Hm; unfold qd_log_enabled;
    rewrite (bind_ret _ _ _ _ _ (load_source_eq _ _ _ Hs)), Hm;
    destruct (Hcases i Hi) as [-> | [-> | [-> | [-> | [-> | [-> | ->]]]]]];
    destruct (Hcases j Hj) as [-> | [-> | [-> | [-> | [-> | [-> | ->]]]]]];
    reflexivity.
Qed.

(** ** Enable strings: range, order, errors *)

Lemma enable_mask_tokens (lead : string) (toks : list enable_token)
    (st : state) :
  all_delims SEPARATORS lead = true -> tokens_ok toks ->
  enable_mask (lead +++ enable_text toks) st
  = Ret (fold_left Z.lor (map contribution toks) 0%Z) st.
Proof.
  intros Hlead Hok. unfold enable_mask, strtok_all, strlen.
  rewrite strtok_loop_enable_text by (try assumption; lia).
  apply enable_mask_loop_tokens. now apply tokens_ok_Forall.
Qed.

Lemma contribution_range (t : enable_token) :
  token_ok t -> Z.land (contribution t) ALL_BITS = contribution t.
Proof.
  intros (Hi & _). unfold contribution, NONE, CRITICAL in *.
  destruct (tok_level t) as [|i]; [lia |].
  do 8 (destruct i as [|i]; [destruct (tok_plus t); reflexivity |]). lia.
Qed.

Lemma fold_lor_range (l : list Z) :
  forall m : Z,
    Z.land m ALL_BITS = m ->
    Forall (fun x => Z.land x ALL_BITS = x) l ->
    Z.land (fold_left Z.lor l m) ALL_BITS = fold_left Z.lor l m.
Proof.
  induction l as [|x l IH]; intros m Hm Hl; [exact Hm |].
  inversion Hl as [|? ? Hx Hl']; subst. cbn [fold_left]. apply IH; [| exact Hl'].
  now rewrite Z.land_lor_distr_l, Hm, Hx.
Qed.

Lemma land_all_bits_range (m : Z) :
  Z.land m ALL_BITS = m -> (0 <= m <= ALL_BITS)%Z.
Proof.
  intros H. change ALL_BITS with (Z.ones 7) in H.
  rewrite Z.land_ones in H by lia.
  pose proof (Z.mod_pos_bound m (2 ^ 7) ltac:(lia)) as B.
  rewrite H in B. change ALL_BITS with 127%Z. lia.
Qed.

(** X3.  The mask of an enable string made of the names "none" to
    "critical" (any letter-case, with or without [+]) lies within
    [0 .. ALL_BITS]: it is never the value -1 that marks a mask as not
    set, and the call sets no error. *)
Theorem enable_mask_of_names_in_range (lead : string)
    (toks : list enable_token) (st : state) :
  all_delims SEPARATORS lead = true -> tokens_ok toks ->
  exists m,
    enable_mask (lead +++ enable_text toks) st = Ret m st /\
    (0 <= m <= ALL_BITS)%Z /\ m <> (-1)%Z.
Proof.
  intros Hlead Hok. eexists. split; [now apply enable_mask_tokens |].
  assert (R : (0 <= fold_left Z.lor (map contribution toks) 0 <= ALL_BITS)%Z).
  { apply land_all_bits_range, fold_lor_range; [reflexivity |].
    apply Forall_forall. intros x Hx. apply list_elem_of_In in Hx.
    apply in_map_iff in Hx as (t & <- & Ht). apply contribution_range.
    apply tokens_ok_Forall in Hok. rewrite Forall_forall in Hok.
    apply Hok. now apply list_elem_of_In. }
  split; [exact R | lia].
Qed.

Lemma fold_lor_testbit (l : list Z) :
  forall (m n : Z),
    Z.testbit (fold_left Z.lor l m) n
    = Z.testbit m n || existsb (fun x => Z.testbit x n) l.
Proof.
  induction l as [|x l IH]; intros m n; cbn [fold_left existsb].
  - now rewrite orb_false_r.
  - now rewrite IH, Z.lor_spec, orb_assoc.
Qed.

Lemma existsb_same_members {A} (p : A -> bool) (l l' : list A) :
  (forall x, In x l <-> In x l') -> existsb p l = existsb p l'.
Proof.
  intros H. apply eq_true_iff_eq. rewrite !existsb_exists.
  split; intros (x & Hx & Hp); exists x; split; try assumption; now apply H.
Qed.

(** X4.  Neither the order of the tokens of an enable string, nor their
    repetition, nor the separators used matter: two strings of level names
    whose tokens contribute the same set of values give the same mask. *)
Theorem enable_mask_ignores_order (lead lead' : string)
    (toks toks' : list enable_token) (st : state) :
  all_delims SEPARATORS lead = true -> tokens_ok toks ->
  all_delims SEPARATORS lead' = true -> tokens_ok toks' ->
  (forall x, In x (map contribution toks) <-> In x (map contribution toks')) ->
  enable_mask (lead +++ enable_text toks) st
  = enable_mask (lead' +++ enable_text toks') st.
Proof.
  intros Hl Hok Hl' Hok' Hsame.
  rewrite !enable_mask_tokens by assumption. f_equal.
  apply Z.bits_inj. intros n. rewrite !fold_lor_testbit. f_equal.
  now apply existsb_same_members.
Qed.

Lemma enable_mask_loop_recognized (tokens : list string) :
  List.find (fun t => negb (recognized t)) tokens = None ->
  forall (mask : Z) (s : state),
    exists m, enable_mask_loop tokens mask s = Ret m s.
Proof.
  induction tokens as [|t tokens IH]; intros H mask s.
  - now exists mask.
  - cbn [List.find] in H. cbn [enable_mask_loop]. fold (token_plus t).
    destruct (recognized t) eqn:Er; cbn [negb] in H; [| discriminate].
    destruct (level_for_name_recognized t s Er) as (lv & E).
    rewrite (bind_ret _ _ _ _ _ E). now apply IH.
Qed.

(** X5.  [enable_mask] fails exactly when some token of the string resolves
    to no level: it then returns -1 and leaves the configuration error that
    quotes the first such token and the valid names.  Otherwise it returns
    a mask and touches neither the error slot nor anything else. *)
Theorem enable_mask_fails_on_first_unrecognized (enable : string) (s : state) :
  match first_unrecognized enable with
  | Some token =>
      enable_mask enable s
      = Ret (-1)%Z
          (with_qd_error_slot
             (Some (QD_ERROR_CONFIG,
                    unknown_level_message token (level_names s))) s)
  | None => exists m, enable_mask enable s = Ret m s
  end.
Proof.
  unfold first_unrecognized, enable_mask.
  destruct (List.find _ _) as [token|] eqn:E.
  - now apply enable_mask_loop_unrecognized.
  - now apply enable_mask_loop_recognized.
Qed.

(** ** Sources: case-insensitive identity *)

Lemma strcasecmp_lower_l (a : string) : forall b,
  strcasecmp (lower a) b = strcasecmp a b.
Proof.
  induction a as [|x a IH]; intros [|y b]; cbn [lower strcasecmp];
    rewrite ?tolower_idem; try reflexivity.
  destruct (Ascii.eqb (tolower x) (tolower y)); [apply IH | reflexivity].
Qed.

Lemma strcasecmp_lower_r (b : string) : forall a,
  strcasecmp a (lower b) = strcasecmp a b.
Proof.
  induction b as [|y b IH]; intros [|x a]; cbn [lower strcasecmp];
    rewrite ?tolower_idem; try reflexivity.
  destruct (Ascii.eqb (tolower x) (tolower y)); [apply IH | reflexivity].
Qed.

Lemma find_source_lower (module module' : string)
    (l : list qd_log_source_t) :
  lower module = lower module' ->
  forall i, find_source i l module = find_source i l module'.
Proof.
  intros E. induction l as [|x l IH]; intros i; [reflexivity |].
  cbn [find_source].
  rewrite <- (strcasecmp_lower_l module), <- (strcasecmp_lower_l module'), E.
  destruct (_ =? 0)%Z; [reflexivity | apply IH].
Qed.

Lemma lookup_log_source_lh_lower (module module' : string) (s : state) :
  lower module = lower module' ->
  lookup_log_source_lh module s = lookup_log_source_lh module' s.
Proof.
  intros E. unfold lookup_log_source_lh.
  rewrite <- (strcasecmp_lower_l module), <- (strcasecmp_lower_l module'), E.
  now rewrite (find_source_lower module module' _ E).
Qed.

(** X6.  A module name identifies its source whatever the letter-case: the
    first call of [qd_log_source] registers the source if need be, and a
    call with any name that differs only in letter-case then returns the
    same handle and leaves the state as it is.  Sources registered before
    keep their handles and records. *)
Theorem qd_log_source_is_idempotent (s : state) (module module' : string) :
  wf_state s -> lower module = lower module' ->
  exists h s1,
    qd_log_source module s = Ret h s1 /\
    qd_log_source module' s1 = Ret h s1 /\
    (forall j x, source_list s !! j = Some x -> source_list s1 !! j = Some x).
Proof.
  intros Hwf E.
  destruct (qd_log_source_lh_eq module s Hwf)
    as (h & s1 & src & E1 & _ & Hl & _ & _ & _ & Hkeep).
  exists h, s1. split; [exact E1 |]. split; [| exact Hkeep].
  unfold qd_log_source, qd_log_source_lh.
  rewrite (lookup_log_source_lh_lower module module' s1 E) in Hl.
  now rewrite (bind_ret _ _ _ _ _ Hl).
Qed.

(** ** The sink registry: sharing, round trips, failures *)

Lemma find_sink_Some (l : list (nat * log_sink_t)) (name : string) (a : nat) :
  NoDup (map fst l) -> find_sink l name = Some a ->
  exists sk, sink_at l a = Some sk /\ strcmp (sink_name sk) name = 0%Z.
Proof.
  induction l as [|[b x] l IH]; intros Hnd H; [discriminate |].
  cbn [map fst] in Hnd. apply NoDup_cons in Hnd as (Hnot & Hnd).
  cbn [find_sink] in H. cbn [sink_at].
  destruct (Z.eqb_spec (strcmp (sink_name x) name) 0) as [E | _].
  - injection H as <-. rewrite Nat.eqb_refl. now exists x.
  - destruct (IH Hnd H) as (sk & Hat & Hn).
    destruct (Nat.eqb_spec b a) as [-> | _]; [| now exists sk].
    exfalso. apply Hnot. apply sink_at_In in Hat.
    apply list_elem_of_In. now apply (in_map fst) in Hat.
Qed.

Lemma set_sink_id (l : list (nat * log_sink_t)) (a : nat) (sk : log_sink_t) :
  sink_at l a = Some sk -> set_sink a sk l = l.
Proof.
  induction l as [|[b x] l IH]; intros H; [reflexivity |].
  cbn [sink_at set_sink] in *. destruct (b =? a)%nat.
  - now injection H as ->.
  - now rewrite IH.
Qed.

Lemma set_sink_set (l : list (nat * log_sink_t)) (a : nat)
    (x y : log_sink_t) :
  set_sink a x (set_sink a y l) = set_sink a x l.
Proof.
  induction l as [|[b z] l IH]; [reflexivity |].
  cbn [set_sink]. destruct (Nat.eqb_spec b a) as [-> | Hne]; cbn [set_sink].
  - now rewrite Nat.eqb_refl.
  - destruct (Nat.eqb_spec b a); [contradiction | now rewrite IH].
Qed.

Lemma remove_sink_app_fresh (l : list (nat * log_sink_t)) (a : nat)
    (sk : log_sink_t) :
  Forall (fun p => (p.1 < a)%nat) l -> remove_sink a (l ++ [(a, sk)]) = l.
Proof.
  induction l as [|[b x] l IH]; intros H; cbn [app remove_sink].
  - now rewrite Nat.eqb_refl.
  - inversion H as [|? ? Hb Hl]; subst. cbn [fst] in Hb.
    destruct (Nat.eqb_spec b a); [lia | now rewrite IH].
Qed.

Lemma with_refcount_undo (sk : log_sink_t) :
  with_refcount
    (sink_refcount (with_refcount (sink_refcount sk + 1) sk) - 1)
    (with_refcount (sink_refcount sk + 1) sk)
  = sk.
Proof.
  destruct sk as [rc n sl f]. unfold with_refcount. cbn. f_equal. lia.
Qed.

(** Acquiring a registered name. *)
Lemma log_sink_lh_shared (s : state) (name : string) (fopen_ok : bool)
    (a : nat) (sk : log_sink_t) :
  find_sink (sink_list s) name = Some a ->
  sink_at (sink_list s) a = Some sk ->
  sink_refcount sk <> INT_MAX ->
  log_sink_lh name fopen_ok s
  = Ret (Some a)
      (with_sink_list
         (set_sink a (with_refcount (sink_refcount sk + 1) sk) (sink_list s))
         s).
Proof.
  intros Hf Hat Hrc. unfold log_sink_lh, find_log_sink_lh.
  unfold bind at 1. rewrite Hf.
  unfold bind at 1. unfold get at 1. unfold bind at 1. rewrite Hat.
  cbn [deref]. unfold ret at 1.
  destruct (Z.eqb_spec (sink_refcount sk) INT_MAX); [contradiction |].
  reflexivity.
Qed.

(** X7.  Acquiring a name that is registered shares the sink: the call
    returns the address of the registered sink with its reference count
    raised by one; no sink is added, none of the others changes, and
    nothing is opened. *)
Theorem acquire_shares_registered_sink (s : state) (name : string)
    (fopen_ok : bool) (a : nat) :
  registry_ok s -> find_sink (sink_list s) name = Some a ->
  (forall sk, sink_at (sink_list s) a = Some sk -> sink_refcount sk <> INT_MAX) ->
  exists sk s',
    sink_at (sink_list s) a = Some sk /\
    log_sink_lh name fopen_ok s = Ret (Some a) s' /\
    sink_at (sink_list s') a
    = Some (with_refcount (sink_refcount sk + 1) sk) /\
    (forall b, b <> a -> sink_at (sink_list s') b = sink_at (sink_list s) b) /\
    length (sink_list s') = length (sink_list s) /\
    io_trace s' = io_trace s /\ qd_error_slot s' = qd_error_slot s.
Proof.
  intros (Hnd & _ & _) Hf Hmax.
  destruct (find_sink_Some _ _ _ Hnd Hf) as (sk & Hat & _).
  exists sk. eexists. split; [exact Hat |].
  split; [exact (log_sink_lh_shared s name fopen_ok a sk Hf Hat (Hmax sk Hat)) |].
  state_cbn. split; [now apply (sink_at_set _ _ sk) |].
  split; [intros b Hb; now apply sink_at_set_other |].
  split; [| now split].
  rewrite <- !(length_map fst), set_sink_addresses. reflexivity.
Qed.

(** X8.  Acquire followed by release is a round trip on the registry: when
    [log_sink_lh] returns a sink, releasing that sink returns and leaves the
    list of registered sinks exactly as it was before the acquire. *)
Theorem acquire_release_round_trip (s s1 : state) (name : string)
    (fopen_ok : bool) (a : nat) :
  registry_ok s ->
  log_sink_lh name fopen_ok s = Ret (Some a) s1 ->
  exists s2,
    log_sink_free_lh (Some a) s1 = Ret tt s2 /\
    sink_list s2 = sink_list s.
Proof.
  intros (Hnd & Hu & Hall) E.
  destruct (find_sink (sink_list s) name) as [a0|] eqn:Hf.
  - destruct (find_sink_Some _ _ _ Hnd Hf) as (sk & Hat & _).
    assert (Hrc : (1 <= sink_refcount sk)%Z).
    { apply sink_at_In, list_elem_of_In in Hat.
      rewrite Forall_forall in Hall. apply (Hall _ Hat). }
    destruct (Z.eq_dec (sink_refcount sk) INT_MAX) as [Hmax | Hmax].
    { unfold log_sink_lh, find_log_sink_lh in E. unfold bind at 1 in E.
      rewrite Hf in E. unfold bind at 1 in E. unfold get at 1 in E.
      unfold bind at 1 in E. rewrite Hat in E. cbn [deref] in E.
      unfold ret at 1 in E. rewrite Hmax, Z.eqb_refl in E. discriminate. }
    rewrite (log_sink_lh_shared s name fopen_ok a0 sk Hf Hat Hmax) in E.
    injection E as <- <-. eexists. split.
    + apply (log_sink_free_lh_shared _ a0
               (with_refcount (sink_refcount sk + 1) sk)).
      * state_cbn. now apply (sink_at_set _ _ sk).
      * cbn [with_refcount sink_refcount]. lia.
    + cbn [sink_list with_sink_list].
      rewrite set_sink_set, with_refcount_undo. now apply set_sink_id.
  - assert (Hlt : Forall (fun p : nat * log_sink_t => (p.1 < sink_next s)%nat)
                    (sink_list s)).
    { eapply Forall_impl; [exact Hall |]. now intros p (_ & ?). }
    assert (Hshape : exists syslog file evs,
              a = sink_next s /\
              s1 = with_sink_next (S (sink_next s))
                     (with_sink_list
                        (sink_list s
                         ++ [(sink_next s, mk_sink 1 name syslog file)])
                        (with_io_trace (io_trace s ++ evs) s))).
    { unfold log_sink_lh, find_log_sink_lh in E. unfold bind at 1 in E.
      rewrite Hf in E.
      destruct (strcmp name SINK_STDERR =? 0)%Z.
      { cbv [bind ret get modify] in E. state_cbn. injection E as <- <-.
        exists false, (Some stderr), []. split; [reflexivity |].
        now rewrite app_nil_r. }
      destruct (strcmp name SINK_STDOUT =? 0)%Z.
      { cbv [bind ret get modify] in E. state_cbn. injection E as <- <-.
        exists false, (Some stdout), []. split; [reflexivity |].
        now rewrite app_nil_r. }
      destruct (strcmp name SINK_SYSLOG =? 0)%Z.
      { cbv [bind ret get modify emit_event] in E. state_cbn.
        injection E as <- <-. now exists true, None, [ev_openlog]. }
      destruct fopen_ok.
      - cbv [bind ret get modify emit_event] in E. state_cbn.
        injection E as <- <-.
        now exists false, (Some (fopened name)), [ev_fopen name true].
      - cbv [bind ret get modify emit_event qd_error deref fault] in E.
        state_cbn. destruct (printf_no_args _) in E; discriminate. }
    destruct Hshape as (syslog & file & evs & -> & ->).
    eexists. split.
    + apply (log_sink_free_lh_last _ _ (mk_sink 1 name syslog file));
        [| reflexivity].
      state_cbn. now apply sink_at_app_fresh.
    + state_cbn. now apply remove_sink_app_fresh.
Qed.

Lemma printf_no_args_plain (s : string) :
  no_percent s = true -> printf_no_args s = Some s.
Proof.
  induction s as [|c s IH]; [reflexivity |].
  cbn [no_percent printf_no_args]. intros H.
  apply andb_true_iff in H as (Hc & Hs). apply negb_true_iff in Hc.
  rewrite Hc, (IH Hs). reflexivity.
Qed.

Lemma no_percent_append (a b : string) :
  no_percent (a +++ b) = no_percent a && no_percent b.
Proof.
  induction a as [|c a IH]; [reflexivity |].
  rewrite append_cons. cbn [no_percent]. now rewrite IH, andb_assoc.
Qed.

Lemma no_percent_substring (s : string) :
  no_percent s = true ->
  forall n m, no_percent (substring n m s) = true.
Proof.
  induction s as [|c s IH]; intros H n m; [now destruct n, m |].
  cbn [no_percent] in H. apply andb_true_iff in H as (Hc & Hs).
  destruct n as [|n], m as [|m]; cbn [substring no_percent];
    try reflexivity; [| now apply IH | now apply IH].
  now rewrite Hc, (IH Hs).
Qed.

(** The message of a failed open: for a name without [%] it is the text
    itself. *)
Lemma open_failure_message_plain (name : string) :
  no_percent name = true ->
  open_failure_message name
  = Some (snprintf TEXT_MAX ("Failed to open log file '" +++ name +++ "'")).
Proof.
  intros H. unfold open_failure_message. apply printf_no_args_plain.
  unfold snprintf. apply no_percent_substring.
  rewrite !no_percent_append, H. reflexivity.
Qed.

Lemma log_sink_lh_failed (s : state) (name text : string) :
  find_sink (sink_list s) name = None ->
  sink_opens name false = false ->
  open_failure_message name = Some text ->
  exists s',
    log_sink_lh name false s = Ret None s' /\
    qd_error_slot s' = Some (QD_ERROR_CONFIG, text) /\
    sink_list s' = sink_list s /\ sink_next s' = sink_next s /\
    source_list s' = source_list s /\
    entity_cache s' = entity_cache s /\
    default_log_source s' = default_log_source s /\
    entries s' = entries s /\
    io_trace s' = io_trace s ++ [ev_fopen name false].
Proof.
  intros Hf Hopen Hmsg. unfold sink_opens in Hopen.
  rewrite !orb_false_r in Hopen.
  apply orb_false_elim in Hopen as [Hopen H3].
  apply orb_false_elim in Hopen as [H1 H2].
  unfold open_failure_message in Hmsg.
  unfold log_sink_lh, find_log_sink_lh. unfold bind at 1. rewrite Hf.
  rewrite H1, H2, H3.
  cbv [bind ret get modify emit_event qd_error deref]. state_cbn.
  rewrite Hmsg. eexists. split; [reflexivity |]. state_cbn.
  now repeat split.
Qed.

(** A name that asks [printf] for an argument: the call is undefined. *)
Lemma log_sink_lh_undefined (s : state) (name : string) :
  find_sink (sink_list s) name = None ->
  sink_opens name false = false ->
  open_failure_message name = None ->
  log_sink_lh name false s = Fault.
Proof.
  intros Hf Hopen Hmsg. unfold sink_opens in Hopen.
  rewrite !orb_false_r in Hopen.
  apply orb_false_elim in Hopen as [Hopen H3].
  apply orb_false_elim in Hopen as [H1 H2].
  unfold open_failure_message in Hmsg.
  unfold log_sink_lh, find_log_sink_lh. unfold bind at 1. rewrite Hf.
  rewrite H1, H2, H3.
  cbv [bind ret get modify emit_event qd_error deref]. state_cbn.
  now rewrite Hmsg.
Qed.

(** X9.  [log_sink_lh] returns the null pointer only when the name is not
    registered, is none of "stderr", "stdout" and "syslog", and the file
    does not open.  The error it then leaves is what [printf] makes of the
    text [Failed to open log file '<name>'] used as the format with no
    arguments: that text itself when the name holds no percent sign, the
    text with every [%%] turned into [%] otherwise.  It registers nothing:
    the sink list, the next address and the sources are as before. *)
Theorem acquire_fails_without_registering (s s' : state) (name : string)
    (fopen_ok : bool) :
  registry_ok s ->
  log_sink_lh name fopen_ok s = Ret None s' ->
  find_sink (sink_list s) name = None /\ sink_opens name fopen_ok = false /\
  (exists text,
     printf_no_args
       (snprintf TEXT_MAX ("Failed to open log file '" +++ name +++ "'"))
     = Some text /\
     qd_error_slot s' = Some (QD_ERROR_CONFIG, text)) /\
  (no_percent name = true ->
   qd_error_slot s'
   = Some (QD_ERROR_CONFIG,
           snprintf TEXT_MAX ("Failed to open log file '" +++ name +++ "'")))
  /\
  sink_list s' = sink_list s /\ sink_next s' = sink_next s /\
  source_list s' = source_list s.
Proof.
  intros (Hnd & _ & _) E.
  destruct (find_sink (sink_list s) name) as [a|] eqn:Hf.
  { exfalso. destruct (find_sink_Some _ _ _ Hnd Hf) as (sk & Hat & _).
    unfold log_sink_lh, find_log_sink_lh in E. unfold bind at 1 in E.
    rewrite Hf in E. unfold bind at 1 in E. unfold get at 1 in E.
    unfold bind at 1 in E. rewrite Hat in E. cbn [deref] in E.
    unfold ret at 1 in E.
    destruct (sink_refcount sk =? INT_MAX)%Z; discriminate. }
  split; [reflexivity |].
  destruct (sink_opens name fopen_ok) eqn:Hopen.
  { exfalso. unfold sink_opens in Hopen.
    unfold log_sink_lh, find_log_sink_lh in E. unfold bind at 1 in E.
    rewrite Hf in E.
    destruct (strcmp name SINK_STDERR =? 0)%Z;
      [cbv [bind ret get modify] in E; discriminate |].
    destruct (strcmp name SINK_STDOUT =? 0)%Z;
      [cbv [bind ret get modify] in E; discriminate |].
    destruct (strcmp name SINK_SYSLOG =? 0)%Z;
      [cbv [bind ret get modify emit_event] in E; discriminate |].
    cbn [orb] in Hopen. subst fopen_ok.
    cbv [bind ret get modify emit_event] in E. discriminate. }
  split; [reflexivity |].
  assert (fopen_ok = false) as ->.
  { unfold sink_opens in Hopen. destruct fopen_ok; [| reflexivity].
    now rewrite !orb_true_r in Hopen. }
  destruct (open_failure_message name) as [text|] eqn:Hmsg.
  2:{ rewrite (log_sink_lh_undefined s name Hf Hopen Hmsg) in E.
      discriminate. }
  destruct (log_sink_lh_failed s name text Hf Hopen Hmsg)
    as (s1 & E1 & He & Hk & Hn & Hs & _).
  rewrite E1 in E. injection E as <-.
  split; [exists text; split; [exact Hmsg | exact He] |].
  split; [| now repeat split].
  intros Hplain. rewrite He. do 2 f_equal.
  rewrite (open_failure_message_plain name Hplain) in Hmsg.
  now injection Hmsg.
Qed.

(** X10.  The registry invariant (addresses and names unique, every
    reference count at least one, fresh addresses beyond those in use) is
    kept by every acquire and every release that returns. *)
Theorem registry_invariant_is_kept (s s' : state) :
  registry_ok s ->
  (forall name fopen_ok sink,
     log_sink_lh name fopen_ok s = Ret sink s' -> registry_ok s') /\
  (forall sink, log_sink_free_lh sink s = Ret tt s' -> registry_ok s').
Proof.
  intros Hok. split.
  - intros name fopen_ok sink E.
    exact (log_sink_lh_registry_ok name fopen_ok sink s s' Hok E).
  - intros sink E. exact (log_sink_free_lh_registry_ok sink s s' Hok E).
Qed.

(** ** Emission: what it leaves alone *)

Lemma count_event_rest (h : nat) (level : Z) (s : state) :
  let s1 := count_event h level s in
  logging_log_source s1 = logging_log_source s /\
  level_names s1 = level_names s /\ entity_cache s1 = entity_cache s.
Proof.
  unfold count_event.
  destruct (bool_decide (valid_level level)); [| now repeat split].
  destruct (source_list s !! h); now repeat split.
Qed.

Lemma after_level_lookup_rest (bit : Z) (s : state) :
  let s' := after_level_lookup bit s in
  logging_log_source s' = logging_log_source s /\
  level_names s' = level_names s /\ entity_cache s' = entity_cache s /\
  sink_next s' = sink_next s.
Proof.
  unfold after_level_lookup. destruct (known_bit bit); now repeat split.
Qed.

(** The final state of an emission in terms of the histogram step. *)
Lemma emit_shape (h : nat) (level : Z) (file : option string) (line : Z)
    (text : string) (env : emit_env) (src dsrc : qd_log_source_t) (s : state) :
  wf_state s -> source_list s !! h = Some src ->
  default_source s = Some dsrc ->
  let s1 := count_event h level s in
  exists s',
    final_state (qd_vlog_impl (Some h) level file line text env s) = Some s' /\
    source_list s' = source_list s1 /\
    default_log_source s' = default_log_source s1 /\
    logging_log_source s' = logging_log_source s1 /\
    sink_list s' = sink_list s1 /\ sink_next s' = sink_next s1 /\
    level_names s' = level_names s1 /\ entity_cache s' = entity_cache s1 /\
    (qd_error_slot s' = qd_error_slot s1 \/ qd_error_slot s' = None).
Proof.
  intros Hwf Hs Hd s1.
  destruct (emit_cases h level file line text env _ _ _ Hwf Hs Hd)
    as [(_ & ->) | [(_ & _ & ->) | (_ & a & sk & _ & _ & ->)]].
  - eexists. split; [reflexivity |]. repeat split. now left.
  - eexists. split; [reflexivity |]. state_cbn. repeat split. now left.
  - match goal with |- context [dispatch ?k ?e ?t ?d ?v ?x] =>
      destruct (dispatch_cases k e t d v x) as [(-> & _) | (msg & -> & _)];
      destruct (after_level_lookup_frame (entry_level e) x)
        as (A1 & A2 & A3 & _ & _ & A4);
      destruct (after_level_lookup_rest (entry_level e) x)
        as (B1 & B2 & B3 & B4)
    end; (eexists; split; [reflexivity |]); state_cbn;
      now repeat split.
Qed.

(** X11.  An emission whose level is none of the seven severity bits counts
    nothing: every source, histograms included, is as before.  It ends with
    the error slot cleared, whatever error was pending before the call. *)
Theorem invalid_level_is_not_counted (s : state) (h : nat)
    (src : qd_log_source_t) (level : Z) (file : option string) (line : Z)
    (text : string) (env : emit_env) :
  wf_state s -> source_list s !! h = Some src -> ~ valid_level level ->
  exists s',
    final_state (qd_vlog_impl (Some h) level file line text env s) = Some s' /\
    source_list s' = source_list s /\ qd_error_slot s' = None.
Proof.
  intros Hwf Hs Hv. destruct (wf_default _ Hwf) as (dsrc & Hd & _).
  destruct (emit_shape h level file line text env _ _ _ Hwf Hs Hd)
    as (s' & E & Es & _ & _ & _ & _ & _ & _ & He).
  exists s'. split; [exact E |].
  unfold count_event in Es, He.
  rewrite bool_decide_eq_false_2 in Es, He by assumption. state_cbn.
  split; [exact Es | now destruct He].
Qed.

(** X12.  An emission configures nothing.  Whether it returns or exits,
    every source is still registered under its handle with its module,
    mask, timestamp and call-site flags and sink pointer; the default and
    logging sources, the sink registry and its next address, the
    level-name text and the entity cache are as before. *)
Theorem emission_changes_no_configuration (s : state) (h : nat)
    (src : qd_log_source_t) (level : Z) (file : option string) (line : Z)
    (text : string) (env : emit_env) :
  wf_state s -> source_list s !! h = Some src ->
  exists s',
    final_state (qd_vlog_impl (Some h) level file line text env s) = Some s' /\
    settings_preserved s s' /\
    length (source_list s') = length (source_list s) /\
    logging_log_source s' = logging_log_source s /\
    sink_list s' = sink_list s /\ sink_next s' = sink_next s /\
    level_names s' = level_names s /\ entity_cache s' = entity_cache s.
Proof.
  intros Hwf Hs. destruct (wf_default _ Hwf) as (dsrc & Hd & _).
  destruct (emit_shape h level file line text env _ _ _ Hwf Hs Hd)
    as (s' & E & Es & Ed & El & Ek & En & Ev & Ec & _).
  destruct (count_event_frame h level s) as (Fd & Fk & _ & _ & Fn & Fl).
  destruct (count_event_rest h level s) as (Rl & Rv & Rc).
  exists s'. split; [exact E |].
  split.
  { split; [now rewrite Ed |]. intros j x Hj. rewrite Es.
    now apply count_event_source. }
  rewrite Es, El, Ek, En, Ev, Ec. now repeat split.
Qed.

(** X13.  Well-formedness is an invariant of the interface, and on a
    well-formed state the calls do not go wrong: initialisation returns a
    well-formed state, and from a well-formed state looking up or creating
    a source and resetting a source return one, and an emission on a
    registered source ends in one, whether it returns or exits. *)
Theorem wf_state_is_invariant :
  (exists s0, qd_log_initialize initial_state = Ret tt s0 /\ wf_state s0) /\
  (forall s module, wf_state s ->
     exists h s', qd_log_source module s = Ret h s' /\ wf_state s') /\
  (forall s module, wf_state s ->
     exists h s', qd_log_source_reset module s = Ret h s' /\ wf_state s') /\
  (forall s h src level file line text env,
     wf_state s -> source_list s !! h = Some src ->
     exists s',
       final_state (qd_vlog_impl (Some h) level file line text env s)
       = Some s' /\ wf_state s').
Proof.
  split; [| split; [| split]].
  - destruct qd_log_initialize_wf as (s0 & E & Hwf & _).
    exists s0. split; assumption.
  - intros s module Hwf.
    destruct (qd_log_source_lh_wf module s Hwf) as (h & s' & _ & E & _ & H).
    now exists h, s'.
  - intros s module Hwf. now apply qd_log_source_reset_wf.
  - intros s h src level file line text env Hwf Hs.
    now apply (qd_vlog_impl_wf h level file line text env src).
Qed.

(** ** The history *)

Lemma length_substring (s : string) : forall n m,
  (String.length (substring n m s) <= m)%nat.
Proof.
  induction s as [|c s IH]; intros [|n] [|m]; cbn; try lia.
  - specialize (IH 0%nat m). lia.
  - apply IH.
  - apply IH.
Qed.

Lemma append_entry_sub (e x : qd_log_entry_t) (l : list qd_log_entry_t) :
  In x (append_entry e l) -> x = e \/ In x l.
Proof.
  unfold append_entry. intros H.
  assert (H' : In x (l ++ [e])).
  { destruct (LIST_MAX <? length (l ++ [e]))%nat; [| exact H].
    destruct (l ++ [e]); [exact H | now right]. }
  apply in_app_or in H' as [? | [-> | []]]; tauto.
Qed.

(** X14.  No record of the history holds more than [TEXT_MAX - 1]
    characters of text: an emission keeps this bound, since it stores the
    message cut to that length. *)
Theorem history_texts_are_bounded (s : state) (h : nat)
    (src : qd_log_source_t) (level : Z) (file : option string) (line : Z)
    (text : string) (env : emit_env) :
  wf_state s -> source_list s !! h = Some src ->
  texts_bounded (entries s) ->
  exists s',
    final_state (qd_vlog_impl (Some h) level file line text env s) = Some s' /\
    texts_bounded (entries s').
Proof.
  intros Hwf Hs Hb. destruct (wf_default _ Hwf) as (dsrc & Hd & _).
  destruct (emit_entries h level file line text env _ _ _ Hwf Hs Hd)
    as (s' & E & He).
  exists s'. split; [exact E |].
  destruct He as [-> | ->]; [exact Hb |].
  unfold texts_bounded in *. rewrite Forall_forall in *.
  intros x Hx. apply list_elem_of_In, append_entry_sub in Hx as [-> | Hx].
  - cbn [entry_of entry_text]. unfold snprintf, strlen.
    apply length_substring.
  - apply Hb. now apply list_elem_of_In.
Qed.

(** X15.  Emissions and the query compose: after a run of emissions that
    all pass the filter, the history is the last [LIST_MAX] of the old
    records followed by the new ones in emission order, and a query with a
    positive limit no larger than the number of calls and the capacity
    returns exactly the records of the last [limit] calls, oldest first. *)
Theorem recent_after_emissions (s : state) (calls : list emit_call)
    (limit : nat) :
  wf_state s ->
  Forall (fun c => call_passes s c = true) calls ->
  Forall (fun c => env_fputs_ok (call_env c) = true) calls ->
  (0 < limit <= length calls)%nat -> (limit <= LIST_MAX)%nat ->
  exists s' emitted,
    emit_all calls s = Ret tt s' /\
    Forall2 (fun c e => call_entry s c = Some e) calls emitted /\
    entries s'
    = drop (length (entries s) + length emitted - LIST_MAX)
        (entries s ++ emitted) /\
    qd_log_recent_py false (Z.of_nat limit) s'
    = Ret (Some (map py_entry_of (drop (length emitted - limit) emitted))) s'.
Proof.
  intros Hwf Hpass Hok Hlim Hcap.
  destruct (emit_all_passing calls s Hwf Hpass Hok)
    as (s' & emitted & E & Hem & He & _ & _).
  pose proof (Forall2_length _ _ _ Hem) as Hlen.
  rewrite append_entries_drop in He by apply Hwf.
  exists s', emitted. split; [exact E |]. split; [exact Hem |].
  split; [exact He |].
  rewrite recent_query_eq. do 3 f_equal.
  unfold most_recent, recent_count.
  destruct (Z.ltb_spec (Z.of_nat limit) 0) as [? | _]; [lia |].
  rewrite Nat2Z.id, He, length_drop, length_app, drop_drop.
  destruct Hwf as (_ & _ & Hsize).
  rewrite drop_app_ge by lia. f_equal. lia.
Qed.

(** X16.  The level field of a returned tuple is the name of the table row
    whose index equals the severity bit, not the name of the severity: a
    TRACE record reads "none", a DEBUG record "trace", an INFO record
    "info", a NOTICE record "critical", and WARNING, ERROR and CRITICAL
    records carry no level name at all. *)
Theorem recent_names_level_by_table_index (s : state) (limit : Z)
    (rows : list (list PyObject)) (row : list PyObject) :
  qd_log_recent_py false limit s = Ret (Some rows) s -> In row rows ->
  exists e,
    In e (entries s) /\ row = py_entry_of e /\
    (entry_level e = QD_LOG_TRACE -> level_field row = PyString "none") /\
    (entry_level e = QD_LOG_DEBUG -> level_field row = PyString "trace") /\
    (entry_level e = QD_LOG_INFO -> level_field row = PyString "info") /\
    (entry_level e = QD_LOG_NOTICE -> level_field row = PyString "critical") /\
    (entry_level e = QD_LOG_WARNING \/ entry_level e = QD_LOG_ERROR \/
     entry_level e = QD_LOG_CRITICAL -> level_field row = Py_None).
Proof.
  rewrite recent_query_eq. intros E Hin. injection E as <-.
  apply in_map_iff in Hin as (e & <- & He).
  exists e. split.
  { unfold most_recent in He. apply list_elem_of_In in He.
    apply list_elem_of_In. eapply subseteq_drop, He. }
  split; [reflexivity |].
  unfold level_field, py_entry_of. cbn [nth].
  repeat split; intros Hl; [| | | | destruct Hl as [Hl | [Hl | Hl]]];
    rewrite Hl; reflexivity.
Qed.

(** ** The administrative update, field by field *)

Lemma qd_log_entity_fields (entity : qd_entity_t) (fopen_ok : bool) :
  qd_log_entity entity fopen_ok
  = (do _ <- qd_error_clear;
     do _ <-
       QD_ERROR_BREAK (
       do src <- qd_log_source_lh (ent_module entity);
       match ent_output entity with
       | Some output =>
           QD_ERROR_BREAK (
           do sink <- log_sink_lh output fopen_ok;
           QD_ERROR_BREAK (
           do cur <- load_source src;
           do _ <- log_sink_free_lh (src_sink cur);
           do _ <- store_source src (with_src_sink sink);
           do s <- get;
           do a <- deref sink;
           do sk <- deref (sink_at (sink_list s) a);
           do _ <-
             (if sink_syslog sk then store_source src (with_src_timestamp 0)
              else ret tt);
           entity_fields entity src))
       | None => entity_fields entity src
       end);
     qd_error_code).
Proof. reflexivity. Qed.

Lemma break_ok {k : M unit} (s : state) :
  qd_error_slot s = None -> QD_ERROR_BREAK k s = k s.
Proof.
  intros H. unfold QD_ERROR_BREAK, bind, qd_error_code. now rewrite H.
Qed.

Lemma break_error {k : M unit} (s : state) (msg : string) :
  qd_error_slot s = Some (QD_ERROR_CONFIG, msg) ->
  QD_ERROR_BREAK k s = Ret tt s.
Proof.
  intros H. unfold QD_ERROR_BREAK, bind, qd_error_code. now rewrite H.
Qed.

Lemma rest_same_refl (s : state) : rest_same s s.
Proof. now repeat split. Qed.

Lemma rest_same_trans (s1 s2 s3 : state) :
  rest_same s1 s2 -> rest_same s2 s3 -> rest_same s1 s3.
Proof.
  unfold rest_same.
  intros (A1 & A2 & A3 & A4 & A5 & A6 & A7 & A8 & A9)
         (B1 & B2 & B3 & B4 & B5 & B6 & B7 & B8 & B9).
  rewrite B1, B2, B3, B4, B5, B6, B7, B8, B9. now repeat split.
Qed.

(** A store, as a step from [s]: the record at [h] is replaced. *)
Lemma store_step (h : nat) (f : qd_log_source_t -> qd_log_source_t)
    (src : qd_log_source_t) (s : state) :
  source_list s !! h = Some src ->
  exists s',
    store_source h f s = Ret tt s' /\
    source_list s' = <[h := f src]> (source_list s) /\
    source_list s' !! h = Some (f src) /\ rest_same s s'.
Proof.
  intros Hs. eexists. split; [exact (store_source_eq h f src s Hs) |].
  state_cbn.
  split; [reflexivity |]. split; [| unfold rest_same; now repeat split].
  apply list_lookup_insert_eq. now apply lookup_lt_Some in Hs.
Qed.

(** An optional store. *)
Lemma opt_store_step {A} (o : option A) (h : nat)
    (f : A -> qd_log_source_t -> qd_log_source_t)
    (src : qd_log_source_t) (s : state) :
  source_list s !! h = Some src ->
  let src' := match o with Some b => f b src | None => src end in
  exists s',
    match o with
    | Some b => store_source h (f b)
    | None => ret tt
    end s = Ret tt s' /\
    source_list s' = <[h := src']> (source_list s) /\
    source_list s' !! h = Some src' /\ rest_same s s'.
Proof.
  intros Hs src'. destruct o as [b|]; [now apply store_step |].
  exists s. split; [reflexivity |]. subst src'.
  split; [now rewrite list_insert_id |].
  split; [assumption | apply rest_same_refl].
Qed.

Lemma level_for_name_recognized_at (token : string) :
  recognized token = true ->
  exists lv, forall s : state,
    level_for_name token (strlen token - token_plus token) s = Ret (Some lv) s.
Proof.
  unfold recognized, level_for_name. intros H.
  apply negb_true_iff in H. rewrite H. eexists. reflexivity.
Qed.

Lemma enable_mask_recognized (enable : string) :
  first_unrecognized enable = None ->
  exists m, forall s : state, enable_mask enable s = Ret m s.
Proof.
  unfold first_unrecognized, enable_mask. intros H.
  generalize 0%Z as mask.
  induction (strtok_all enable SEPARATORS) as [|t tokens IH]; intros mask.
  - now exists mask.
  - cbn [List.find] in H.
    destruct (recognized t) eqn:Er; cbn [negb] in H; [| discriminate].
    destruct (level_for_name_recognized_at t Er) as (lv & E).
    destruct (IH H (Z.lor mask
                      (if (token_plus t =? 1)%nat then lvl_mask lv
                       else lvl_bit lv))) as (m & Hm).
    exists m. intros s. cbn [enable_mask_loop]. fold (token_plus t).
    rewrite (bind_ret _ _ _ _ _ (E s)). apply Hm.
Qed.

(** The fields after [output], on a state without a pending error. *)
Lemma entity_fields_eq (entity : qd_entity_t) (h : nat)
    (src : qd_log_source_t) (s : state) :
  qd_error_slot s = None -> source_list s !! h = Some src ->
  enable_ok (ent_enable entity) ->
  exists s' src',
    entity_fields entity h s = Ret tt s' /\
    source_list s' = <[h := src']> (source_list s) /\
    rest_same s s' /\
    fields_applied s (ent_enable entity) (ent_timestamp entity)
      (ent_source entity) src src' /\
    src_timestamp src'
    = match ent_timestamp entity with
      | Some b => Z_of_bool b
      | None => src_timestamp src
      end /\
    src_sink src' = src_sink src.
Proof.
  intros He Hs Hen. unfold entity_fields.
  (* enable *)
  assert (H1 : exists s1 src1,
             match ent_enable entity with
             | Some enable =>
                 QD_ERROR_BREAK (
                   do mask <- enable_mask enable;
                   store_source h (with_src_mask mask))
             | None => ret tt
             end s = Ret tt s1 /\
             source_list s1 = <[h := src1]> (source_list s) /\
             source_list s1 !! h = Some src1 /\ rest_same s s1 /\
             match ent_enable entity with
             | Some e => enable_mask e s = Ret (src_mask src1) s
             | None => src_mask src1 = src_mask src
             end /\
             src_timestamp src1 = src_timestamp src /\
             src_source src1 = src_source src /\
             src_sink src1 = src_sink src /\
             src_module src1 = src_module src /\
             src_syslog src1 = src_syslog src /\
             src_severity_histogram src1 = src_severity_histogram src).
  { destruct (ent_enable entity) as [e|].
    - destruct (enable_mask_recognized e Hen) as (m & Hm).
      specialize (Hm s).
      destruct (store_step h (with_src_mask m) src s Hs)
        as (s1 & E1 & L1 & K1 & R1).
      exists s1, (with_src_mask m src).
      rewrite (break_ok s He), (bind_ret _ _ _ _ _ Hm).
      split; [exact E1 |]. split; [exact L1 |]. split; [exact K1 |].
      split; [exact R1 |]. split; [exact Hm |]. now repeat split.
    - exists s, src. split; [reflexivity |].
      split; [now rewrite list_insert_id |].
      split; [assumption |]. split; [apply rest_same_refl |].
      now repeat split. }
  destruct H1 as (s1 & src1 & E1 & L1 & K1 & R1 & M1 & T1 & S1 & N1 & O1
                  & Y1 & G1).
  rewrite (bind_ret _ _ _ _ _ E1).
  assert (He1 : qd_error_slot s1 = None).
  { destruct R1 as (_ & _ & _ & _ & _ & _ & -> & _). exact He. }
  rewrite (break_ok s1 He1).
  (* timestamp *)
  destruct (opt_store_step (ent_timestamp entity) h
              (fun b => with_src_timestamp (Z_of_bool b)) src1 s1 K1)
    as (s2 & E2 & L2 & K2 & R2).
  rewrite (bind_ret _ _ _ _ _ E2).
  assert (He2 : qd_error_slot s2 = None).
  { destruct R2 as (_ & _ & _ & _ & _ & _ & -> & _). exact He1. }
  rewrite (break_ok s2 He2).
  (* source *)
  match type of K2 with _ = Some ?x => set (src2 := x) in * end.
  destruct (opt_store_step (ent_source entity) h
              (fun b => with_src_source (Z_of_bool b)) src2 s2 K2)
    as (s3 & E3 & L3 & K3 & R3).
  rewrite (bind_ret _ _ _ _ _ E3).
  assert (He3 : qd_error_slot s3 = None).
  { destruct R3 as (_ & _ & _ & _ & _ & _ & -> & _). exact He2. }
  rewrite (break_ok s3 He3).
  match type of K3 with _ = Some ?x => set (src3 := x) in * end.
  exists s3, src3. split; [reflexivity |].
  split.
  { rewrite L3, L2, L1, !list_insert_insert_eq. reflexivity. }
  split; [exact (rest_same_trans _ _ _ (rest_same_trans _ _ _ R1 R2) R3) |].
  subst src3 src2.
  destruct (ent_timestamp entity), (ent_source entity);
    cbn [src_mask src_timestamp src_source src_sink src_module src_syslog
         src_severity_histogram with_src_timestamp with_src_source];
    unfold fields_applied;
    cbn [src_mask src_timestamp src_source src_sink src_module src_syslog
         src_severity_histogram with_src_timestamp with_src_source];
    now repeat split.
Qed.


(** The lookup of the request, which may create the source: it is the one
    of [qd_log_source], on the state with the error slot cleared. *)
Lemma qd_log_source_lh_cleared (module : string) (h : nat) (s s1 : state) :
  qd_log_source_lh module s = Ret h s1 ->
  qd_log_source_lh module (with_qd_error_slot None s)
  = Ret h (with_qd_error_slot None s1).
Proof.
  intros E. unfold qd_log_source_lh in *.
  unfold bind at 1 in E. unfold lookup_log_source_lh at 1 in E.
  unfold bind at 1. unfold lookup_log_source_lh at 1. state_cbn.
  destruct (if (strcasecmp module SOURCE_DEFAULT =? 0)%Z
            then default_log_source s
            else find_source 0 (source_list s) module) as [h0|].
  - injection E as <- <-. reflexivity.
  - cbv [bind get modify ret qd_entity_cache_add] in E |- *. state_cbn.
    injection E as <- <-. reflexivity.
Qed.

Lemma qd_log_source_lh_frame (module : string) (h : nat) (s s1 : state) :
  qd_log_source_lh module s = Ret h s1 ->
  sink_list s1 = sink_list s /\ sink_next s1 = sink_next s /\
  io_trace s1 = io_trace s /\ qd_error_slot s1 = qd_error_slot s.
Proof.
  unfold qd_log_source_lh. unfold bind at 1.
  unfold lookup_log_source_lh at 1.
  destruct (if (strcasecmp module SOURCE_DEFAULT =? 0)%Z
            then default_log_source s
            else find_source 0 (source_list s) module) as [h0|].
  - intros E. injection E as <- <-. now repeat split.
  - cbv [bind get modify ret qd_entity_cache_add]. state_cbn.
    intros E. injection E as <- <-. now repeat split.
Qed.

(** X17.  Without an [output] field, a request whose enable string (if any)
    holds recognized tokens only succeeds.  It looks the source of the
    module up as [qd_log_source] does, which registers the source, with
    nothing set, when the module is new; beyond that it changes exactly the
    record of that source, and there exactly the fields the request
    carries: the mask becomes what [enable_mask] returns, the flags become
    the requested booleans, and all that is not in the request stays.  The
    sink registry and the outside world are untouched; an error pending
    before the call is cleared. *)
Theorem update_applies_given_fields (s : state) (module : string)
    (enable : option string) (timestamp source : option bool)
    (fopen_ok : bool) :
  wf_state s -> enable_ok enable ->
  exists h s1 src s' src',
    qd_log_source module s = Ret h s1 /\
    source_list s1 !! h = Some src /\
    qd_log_entity (mk_entity module None enable timestamp source) fopen_ok s
    = Ret QD_ERROR_NONE s' /\
    source_list s' = <[h := src']> (source_list s1) /\
    fields_applied s enable timestamp source src src' /\
    src_timestamp src'
    = match timestamp with
      | Some b => Z_of_bool b
      | None => src_timestamp src
      end /\
    src_sink src' = src_sink src /\
    entity_cache s' = entity_cache s1 /\
    sink_list s' = sink_list s /\ io_trace s' = io_trace s /\
    qd_error_slot s' = None.
Proof.
  intros Hwf Hen.
  destruct (qd_log_source_lh_eq module s Hwf)
    as (h & s1 & src & E1 & Hs & _).
  destruct (qd_log_source_lh_frame module h s s1 E1) as (Fk & _ & Fi & _).
  pose proof (qd_log_source_lh_cleared module h s s1 E1) as E0.
  rewrite qd_log_entity_fields.
  cbn [ent_module ent_output].
  unfold bind at 1. unfold qd_error_clear at 1. unfold modify at 1.
  set (s0 := with_qd_error_slot None s) in *.
  set (s1c := with_qd_error_slot None s1) in *.
  assert (He0 : qd_error_slot s0 = None) by reflexivity.
  assert (He1 : qd_error_slot s1c = None) by reflexivity.
  assert (Hs1 : source_list s1c !! h = Some src) by exact Hs.
  destruct (entity_fields_eq (mk_entity module None enable timestamp source)
              h src s1c He1 Hs1 Hen)
    as (s' & src' & E & L & R & F & T & K).
  cbn [ent_enable ent_timestamp ent_source] in F, T.
  unfold bind at 1. rewrite (break_ok s0 He0).
  rewrite (bind_ret _ _ _ _ _ E0).
  cbv beta. rewrite E.
  destruct R as (_ & _ & Rk & _ & _ & _ & Re & Rc & Ri).
  unfold qd_error_code. rewrite Re, He1. cbn [error_code_of].
  exists h, s1, src, s', src'. split; [exact E1 |]. split; [exact Hs |].
  split; [reflexivity |]. split; [exact L |]. split.
  { unfold fields_applied in *. destruct enable as [e|]; [| exact F].
    destruct F as (Fm & F'). split; [| exact F'].
    destruct (enable_mask_recognized e Hen) as (m & Hm).
    rewrite (Hm s1c) in Fm. injection Fm as <-.
    apply (Hm s). }
  split; [exact T |]. split; [exact K |]. split; [exact Rc |].
  split; [now rewrite Rk |]. split; [now rewrite Ri |].
  now rewrite Re.
Qed.

(** X18.  A request whose [output] cannot be opened fails before any of its
    fields is applied.  The call returns the configuration error whose
    message [printf] makes of [Failed to open log file '<output>'] (the
    text itself when the name holds no percent sign).  The sink registry is
    as before, and so is the record of every source that was registered:
    the one change the call leaves behind is that of its lookup, which, as
    [qd_log_source] does, registers the module's source with nothing set
    when the module is new.  This holds whatever [enable], [timestamp] and
    [source] fields the request carries. *)
Theorem failed_output_aborts_update (s : state) (module output : string)
    (enable : option string) (timestamp source : option bool)
    (text : string) :
  wf_state s ->
  find_sink (sink_list s) output = None ->
  sink_opens output false = false ->
  open_failure_message output = Some text ->
  exists h s1 s',
    qd_log_source module s = Ret h s1 /\
    qd_log_entity (mk_entity module (Some output) enable timestamp source)
      false s
    = Ret QD_ERROR_CONFIG s' /\
    qd_error_slot s' = Some (QD_ERROR_CONFIG, text) /\
    source_list s' = source_list s1 /\
    entity_cache s' = entity_cache s1 /\
    sink_list s' = sink_list s /\ sink_next s' = sink_next s /\
    (forall j x, source_list s !! j = Some x -> source_list s' !! j = Some x).
Proof.
  intros Hwf Hf Hopen Hmsg.
  destruct (qd_log_source_lh_eq module s Hwf)
    as (h & s1 & src & E1 & Hs & _ & _ & _ & _ & Hkeep).
  destruct (qd_log_source_lh_frame module h s s1 E1) as (Fk & Fn & _ & _).
  pose proof (qd_log_source_lh_cleared module h s s1 E1) as E0.
  rewrite qd_log_entity_fields.
  cbn [ent_module ent_output].
  unfold bind at 1. unfold qd_error_clear at 1. unfold modify at 1.
  set (s0 := with_qd_error_slot None s) in *.
  set (s1c := with_qd_error_slot None s1) in *.
  assert (He0 : qd_error_slot s0 = None) by reflexivity.
  assert (He1 : qd_error_slot s1c = None) by reflexivity.
  assert (Hf1 : find_sink (sink_list s1c) output = None)
    by (subst s1c; state_cbn; now rewrite Fk).
  destruct (log_sink_lh_failed s1c output text Hf1 Hopen Hmsg)
    as (s2 & E2 & He2 & Hk2 & Hn2 & Hs2 & Hc2 & _).
  unfold bind at 1. rewrite (break_ok s0 He0).
  rewrite (bind_ret _ _ _ _ _ E0).
  cbv beta. rewrite (break_ok s1c He1).
  rewrite (bind_ret _ _ _ _ _ E2).
  rewrite (break_error s2 _ He2).
  unfold qd_error_code. rewrite He2. cbn [error_code_of].
  exists h, s1, s2. split; [exact E1 |]. split; [reflexivity |].
  split; [exact He2 |]. split; [exact Hs2 |]. split; [exact Hc2 |].
  split; [now rewrite Hk2 |]. split; [now rewrite Hn2 |].
  intros j x Hj. rewrite Hs2. now apply Hkeep.
Qed.

(** ** The administrative update: assigning an output *)

Lemma sink_at_app_other (l : list (nat * log_sink_t)) (a b : nat)
    (sk : log_sink_t) :
  a <> b -> sink_at (l ++ [(a, sk)]) b = sink_at l b.
Proof.
  intros Hne. induction l as [|[c x] l IH]; cbn [app sink_at].
  - destruct (Nat.eqb_spec a b); [contradiction | reflexivity].
  - now rewrite IH.
Qed.

Lemma sink_at_remove_other (l : list (nat * log_sink_t)) (a b : nat) :
  a <> b -> sink_at (remove_sink a l) b = sink_at l b.
Proof.
  intros Hne. induction l as [|[c x] l IH]; [reflexivity |].
  cbn [remove_sink]. destruct (Nat.eqb_spec c a) as [-> | Hc]; cbn [sink_at].
  - destruct (Nat.eqb_spec a b); [contradiction | reflexivity].
  - now rewrite IH.
Qed.

Lemma sink_at_beyond (l : list (nat * log_sink_t)) (n : nat) :
  Forall (fun p => (p.1 < n)%nat) l -> sink_at l n = None.
Proof.
  induction l as [|[c x] l IH]; intros H; [reflexivity |].
  inversion H as [|? ? Hc Hl]; subst. cbn [fst] in Hc. cbn [sink_at].
  destruct (Nat.eqb_spec c n); [lia | now apply IH].
Qed.

(** Acquiring a name that opens afresh. *)
Lemma log_sink_lh_opens (s : state) (name : string) (fopen_ok : bool) :
  find_sink (sink_list s) name = None ->
  sink_opens name fopen_ok = true ->
  exists syslog file evs,
    log_sink_lh name fopen_ok s
    = Ret (Some (sink_next s))
        (with_sink_next (S (sink_next s))
           (with_sink_list
              (sink_list s ++ [(sink_next s, mk_sink 1 name syslog file)])
              (with_io_trace (io_trace s ++ evs) s))).
Proof.
  intros Hf Hopen. unfold sink_opens in Hopen.
  unfold log_sink_lh, find_log_sink_lh. unfold bind at 1. rewrite Hf.
  destruct (strcmp name SINK_STDERR =? 0)%Z.
  { exists false, (Some stderr), []. cbv [bind ret get modify]. state_cbn.
    now rewrite app_nil_r. }
  destruct (strcmp name SINK_STDOUT =? 0)%Z.
  { exists false, (Some stdout), []. cbv [bind ret get modify]. state_cbn.
    now rewrite app_nil_r. }
  destruct (strcmp name SINK_SYSLOG =? 0)%Z.
  { exists true, None, [ev_openlog]. reflexivity. }
  cbn [orb] in Hopen. subst fopen_ok.
  exists false, (Some (fopened name)), [ev_fopen name true]. reflexivity.
Qed.

Lemma registry_ok_frame (s s' : state) :
  sink_list s' = sink_list s -> sink_next s' = sink_next s ->
  registry_ok s -> registry_ok s'.
Proof. unfold registry_ok. now intros -> ->. Qed.






(** ** Out of the box *)

Lemma append_entry_first (e : qd_log_entry_t) : append_entry e [] = [e].
Proof. reflexivity. Qed.

(** An emission on a source whose effective settings are those
    initialisation gives the default source. *)
Lemma emit_on_defaults (s : state) (h : nat) (src dsrc : qd_log_source_t)
    (level : Z) (file : option string) (line : Z) (text : string)
    (env : emit_env) :
  source_list s !! h = Some src -> default_source s = Some dsrc ->
  length (src_severity_histogram src) = N_LEVEL_INDICES ->
  effective_mask src dsrc = lvl_mask (levels_at INFO) ->
  effective_sink src dsrc = Some 0%nat ->
  effective_timestamp src dsrc = true ->
  effective_display src dsrc = false ->
  sink_list s = [(0%nat, mk_sink 1 SINK_STDERR false (Some stderr))] ->
  io_trace s = [] -> entries s = [] ->
  valid_level level -> env_fputs_ok env = true ->
  exists s',
    qd_vlog_impl (Some h) level file line text env s = Ret tt s' /\
    let entry := entry_of src level file line text env in
    if (QD_LOG_INFO <=? level)%Z then
      io_trace s'
      = [ev_fputs stderr (render_line true false entry (env_time_text env));
         ev_fflush stderr] /\
      entries s' = [entry]
    else io_trace s' = [] /\ entries s' = [].
Proof.
  intros Hs Hd Hlen Hm Hk Ht Hdisp Hsinks Hio Hent Hv Hok.
  rewrite (qd_vlog_impl_eq _ _ _ _ _ _ _ _ _ Hs Hd Hlen).
  unfold emit_result.
  destruct (count_event_frame h level s) as (_ & Fk & Fe & Fi & _).
  assert (Hp : passes_filter level src dsrc = (QD_LOG_INFO <=? level)%Z).
  { unfold passes_filter. rewrite Hm.
    destruct (valid_level_cases level Hv)
      as [-> | [-> | [-> | [-> | [-> | [-> | ->]]]]]]; reflexivity. }
  rewrite Hp. destruct (QD_LOG_INFO <=? level)%Z.
  - rewrite Hk, Fk, Hsinks. cbn [sink_at Nat.eqb].
    rewrite Ht, Hdisp.
    match goal with |- context [dispatch ?k ?e ?t ?d ?v ?x] =>
      destruct (dispatch_cases k e t d v x) as [(-> & _) | (msg & _ & Hf & _)];
      [destruct (after_level_lookup_frame (entry_level e) x)
         as (_ & _ & _ & Ae & _) | congruence]
    end.
    eexists. split; [reflexivity |]. state_cbn.
    rewrite Ae, Fe, Fi, Hio, Hent. split; reflexivity.
  - eexists. split; [reflexivity |]. cbv zeta. now rewrite Fe, Fi.
Qed.

(** X20.  Out of the box every module logs INFO and above to the
    standard-error stream with a timestamp and without the call site, and
    drops TRACE and DEBUG: after [qd_log_initialize], an emission on the
    source [qd_log_source] returns for any module name writes and records
    exactly one line when its severity is INFO or above, and nothing
    otherwise. *)
Theorem out_of_the_box_logging (module : string) (level : Z)
    (file : option string) (line : Z) (text : string) (env : emit_env) :
  valid_level level -> env_fputs_ok env = true ->
  exists s0 h s1 src s2,
    qd_log_initialize initial_state = Ret tt s0 /\
    qd_log_source module s0 = Ret h s1 /\
    source_list s1 !! h = Some src /\
    qd_vlog_impl (Some h) level file line text env s1 = Ret tt s2 /\
    let entry := entry_of src level file line text env in
    if (QD_LOG_INFO <=? level)%Z then
      io_trace s2
      = [ev_fputs stderr (render_line true false entry (env_time_text env));
         ev_fflush stderr] /\
      entries s2 = [entry]
    else io_trace s2 = [] /\ entries s2 = [].
Proof.
  intros Hv Hok.
  set (s0 := run qd_log_initialize initial_state).
  assert (E0 : qd_log_initialize initial_state = Ret tt s0)
    by (vm_compute; reflexivity).
  assert (Hsrc0 : source_list s0
                  = [ mk_source SOURCE_DEFAULT (lvl_mask (levels_at INFO)) 1 0
                        false (Some 0%nat) (replicate N_LEVEL_INDICES 0%Z);
                      mk_source SOURCE_LOGGING (-1) (-1) (-1) false None
                        (replicate N_LEVEL_INDICES 0%Z) ])
    by (vm_compute; reflexivity).
  assert (Hd0 : default_log_source s0 = Some 0%nat)
    by (vm_compute; reflexivity).
  assert (Hk0 : sink_list s0
                = [(0%nat, mk_sink 1 SINK_STDERR false (Some stderr))])
    by (vm_compute; reflexivity).
  assert (Hi0 : io_trace s0 = []) by (vm_compute; reflexivity).
  assert (He0 : entries s0 = []) by (vm_compute; reflexivity).
  clearbody s0.
  assert (Hcases :
    exists h s1 src,
      qd_log_source module s0 = Ret h s1 /\
      source_list s1 !! h = Some src /\
      default_source s1 = source_list s0 !! 0%nat /\
      sink_list s1 = sink_list s0 /\ io_trace s1 = [] /\ entries s1 = [] /\
      length (src_severity_histogram src) = N_LEVEL_INDICES /\
      (src_mask src = lvl_mask (levels_at INFO) \/ src_mask src = (-1)%Z) /\
      (src_timestamp src = 1%Z \/ src_timestamp src = (-1)%Z) /\
      (src_source src = 0%Z \/ src_source src = (-1)%Z) /\
      (src_sink src = Some 0%nat \/ src_sink src = None)).
  { unfold qd_log_source, qd_log_source_lh. unfold bind at 1.
    unfold lookup_log_source_lh at 1. rewrite Hd0, Hsrc0.
    cbn [find_source src_module].
    destruct (strcasecmp module SOURCE_DEFAULT =? 0)%Z.
    - eexists 0%nat, s0, _. split; [reflexivity |].
      rewrite Hsrc0. split; [reflexivity |].
      unfold default_source. rewrite Hd0, Hsrc0.
      split; [reflexivity |]. split; [reflexivity |].
      split; [exact Hi0 |]. split; [exact He0 |].
      split; [reflexivity |]. repeat split; now left.
    - destruct (strcasecmp module SOURCE_LOGGING =? 0)%Z.
      + eexists 1%nat, s0, _. split; [reflexivity |].
        rewrite Hsrc0. split; [reflexivity |].
        unfold default_source. rewrite Hd0, Hsrc0.
        split; [reflexivity |]. split; [reflexivity |].
        split; [exact Hi0 |]. split; [exact He0 |].
        split; [reflexivity |]. repeat split; now right.
      + eexists _, _, _. split; [run_io |]. state_cbn.
        rewrite Hsrc0. cbn [length app].
        split; [reflexivity |].
        unfold default_source. state_cbn. rewrite Hd0.
        split; [reflexivity |]. split; [reflexivity |].
        split; [exact Hi0 |]. split; [exact He0 |].
        split; [reflexivity |]. repeat split; now right. }
  destruct Hcases as (h & s1 & src & E1 & Hs1 & Hd1 & Hk1 & Hi1 & He1 & Hlen
                      & Hm & Ht & Hsite & Hsink).
  rewrite Hsrc0 in Hd1. cbn [lookup list_lookup] in Hd1.
  destruct (emit_on_defaults s1 h src _ level file line text env Hs1 Hd1 Hlen)
    as (s2 & E2 & H2); try assumption.
  - unfold effective_mask, resolve, tri_state. cbn [src_mask].
    now destruct Hm as [-> | ->].
  - unfold effective_sink. cbn [src_sink]. now destruct Hsink as [-> | ->].
  - unfold effective_timestamp, resolve, tri_state. cbn [src_timestamp].
    now destruct Ht as [-> | ->].
  - unfold effective_display, resolve, tri_state. cbn [src_source].
    now destruct Hsite as [-> | ->].
  - now rewrite Hk1.
  - exists s0, h, s1, src, s2. now repeat split.
Qed.

(** ** Statistics *)

Lemma histogram_seven (l : list Z) :
  length l = N_LEVEL_INDICES ->
  exists c0 c1 c2 c3 c4 c5 c6, l = [c0; c1; c2; c3; c4; c5; c6].
Proof.
  intros H.
  destruct l as [|c0 [|c1 [|c2 [|c3 [|c4 [|c5 [|c6 [|c7 l]]]]]]]];
    try discriminate.
  now exists c0, c1, c2, c3, c4, c5, c6.
Qed.

(** The refreshed entity of a source with its seven counters. *)
Lemma qd_entity_refresh_logStats_eq (s : state) (h : nat)
    (src : qd_log_source_t) (c0 c1 c2 c3 c4 c5 c6 : Z) :
  source_list s !! h = Some src ->
  src_severity_histogram src = [c0; c1; c2; c3; c4; c5; c6] ->
  qd_entity_refresh_logStats [] h s
  = Ret ([ ("traceCount", attr_long (long_of_uint64 c0));
           ("debugCount", attr_long (long_of_uint64 c1));
           ("infoCount", attr_long (long_of_uint64 c2));
           ("noticeCount", attr_long (long_of_uint64 c3));
           ("warningCount", attr_long (long_of_uint64 c4));
           ("errorCount", attr_long (long_of_uint64 c5));
           ("criticalCount", attr_long (long_of_uint64 c6));
           ("name", attr_string (src_module src));
           ("identity",
            attr_string
              (snprintf (TEXT_MAX - 1) ("logStats/" +++ src_module src))) ],
         QD_ERROR_NONE) s.
Proof.
  intros Hs Hh. unfold qd_entity_refresh_logStats.
  rewrite (bind_ret _ _ _ _ _ (load_source_eq _ _ _ Hs)). rewrite Hh.
  reflexivity.
Qed.

(** The refreshed entity is a function of the source record. *)
Lemma refresh_depends_on_record (s s' : state) (h : nat) :
  source_list s !! h = source_list s' !! h ->
  qd_entity_refresh_logStats [] h s'
  = match qd_entity_refresh_logStats [] h s with
    | Ret r _ => Ret r s'
    | Exit code _ => Exit code s'
    | Fault => Fault
    end.
Proof.
  intros H. unfold qd_entity_refresh_logStats, load_source.
  cbv [bind get]. rewrite H.
  destruct (source_list s' !! h) as [x|]; [| reflexivity].
  cbn [deref]. cbv [ret].
  destruct (src_severity_histogram x)
    as [|d0 [|d1 [|d2 [|d3 [|d4 [|d5 [|d6 l]]]]]]]; reflexivity.
Qed.

(** X21.  The statistics follow the emissions: after an emission with a
    valid severity on a source, the refreshed statistics of that source
    differ from those before in the count of that severity only, which is
    the old counter plus one (modulo 2^64, read as a [long]); name and
    identity are the module name and "logStats/" followed by it.  The
    statistics of every other source are as before. *)
Theorem stats_follow_emissions (s : state) (h : nat) (src : qd_log_source_t)
    (level : Z) (file : option string) (line : Z) (text : string)
    (env : emit_env) :
  wf_state s -> source_list s !! h = Some src -> valid_level level ->
  exists s' e e',
    final_state (qd_vlog_impl (Some h) level file line text env s) = Some s' /\
    qd_entity_refresh_logStats [] h s = Ret (e, QD_ERROR_NONE) s /\
    qd_entity_refresh_logStats [] h s' = Ret (e', QD_ERROR_NONE) s' /\
    attr (count_key level) e'
    = Some (attr_long
              (long_of_uint64
                 (uint64_incr
                    (src_severity_histogram src !!! bucket_of level)))) /\
    (forall key, key <> count_key level -> attr key e' = attr key e) /\
    attr "name" e' = Some (attr_string (src_module src)) /\
    attr "identity" e'
    = Some (attr_string
              (snprintf (TEXT_MAX - 1) ("logStats/" +++ src_module src))) /\
    (forall h' r, h' <> h ->
       qd_entity_refresh_logStats [] h' s = Ret r s ->
       qd_entity_refresh_logStats [] h' s' = Ret r s').
Proof.
  intros Hwf Hs Hv. destruct (wf_default _ Hwf) as (dsrc & Hd & _).
  destruct (wf_source _ _ _ Hwf Hs) as (Hlen & _).
  destruct (emit_final h level file line text env _ _ _ Hwf Hs Hd)
    as (s' & E & Es & _).
  rewrite (count_event_valid h level s src Hv Hs) in Es.
  destruct (histogram_seven _ Hlen) as (c0 & c1 & c2 & c3 & c4 & c5 & c6 & Hh).
  assert (Hs' : source_list s' !! h
                = Some (with_src_severity_histogram
                          (<[bucket_of level :=
                               uint64_incr
                                 (src_severity_histogram src
                                  !!! bucket_of level)]>
                             (src_severity_histogram src)) src)).
  { rewrite Es. apply list_lookup_insert_eq. now apply lookup_lt_Some in Hs. }
  assert (Hother : forall h' r, h' <> h ->
            qd_entity_refresh_logStats [] h' s = Ret r s ->
            qd_entity_refresh_logStats [] h' s' = Ret r s').
  { intros h' r Hne Hr.
    rewrite (refresh_depends_on_record s s' h'), Hr; [reflexivity |].
    rewrite Es. now rewrite list_lookup_insert_ne by congruence. }
  pose proof (qd_entity_refresh_logStats_eq s h src _ _ _ _ _ _ _ Hs Hh) as R.
  rewrite Hh in Hs' |- *.
  destruct (valid_level_cases level Hv)
    as [-> | [-> | [-> | [-> | [-> | [-> | ->]]]]]];
    (exists s'; eexists _, _; split; [exact E |]; split; [exact R |];
     split;
     [ eapply qd_entity_refresh_logStats_eq; [exact Hs' | reflexivity]
     | split; [reflexivity |];
       split;
       [ intros key Hkey; unfold attr; cbn [List.find fst snd];
         repeat match goal with
                | |- context [String.eqb ?a key] =>
                    destruct (String.eqb_spec a key);
                    [ try reflexivity; try (exfalso; apply Hkey; subst key;
                                            reflexivity) |]
                end; reflexivity
       | split; [reflexivity |]; split; [reflexivity | exact Hother] ] ]).
Qed.

(** ** Shutdown *)

Lemma holders_cons (a : nat) (src : qd_log_source_t)
    (l : list qd_log_source_t) :
  holders a (src :: l)
  = ((if bool_decide (src_sink src = Some a) then 1 else 0) + holders a l)%nat.
Proof.
  unfold holders. cbn [List.filter].
  destruct (bool_decide (src_sink src = Some a)); reflexivity.
Qed.

Lemma holders_pos (a : nat) (src : qd_log_source_t)
    (l : list qd_log_source_t) :
  In src l -> src_sink src = Some a -> (1 <= holders a l)%nat.
Proof.
  induction l as [|x l IH]; intros Hin Hs; [contradiction |].
  rewrite holders_cons. destruct Hin as [-> | Hin].
  - rewrite bool_decide_eq_true_2 by assumption. lia.
  - specialize (IH Hin Hs). lia.
Qed.

Lemma closes_cons (a : nat) (x : log_sink_t) (l : list (nat * log_sink_t)) :
  closes ((a, x) :: l) = close_events x ++ closes l.
Proof. reflexivity. Qed.

Lemma closes_remove (l : list (nat * log_sink_t)) (a : nat) (x : log_sink_t) :
  sink_at l a = Some x ->
  Permutation (close_events x ++ closes (remove_sink a l)) (closes l).
Proof.
  induction l as [|[b y] l IH]; intros H; [discriminate |].
  cbn [sink_at remove_sink] in *. destruct (b =? a)%nat.
  - injection H as ->. reflexivity.
  - rewrite !closes_cons. rewrite <- (IH H).
    rewrite !app_assoc. apply Permutation_app_tail, Permutation_app_comm.
Qed.

Lemma closes_set (l : list (nat * log_sink_t)) (a : nat) (x x' : log_sink_t) :
  sink_at l a = Some x -> close_events x' = close_events x ->
  closes (set_sink a x' l) = closes l.
Proof.
  intros H Hc. induction l as [|[b y] l IH]; [reflexivity |].
  cbn [sink_at set_sink] in *. destruct (b =? a)%nat.
  - injection H as ->. now rewrite !closes_cons, Hc.
  - rewrite !closes_cons. now rewrite IH.
Qed.

Lemma total_refs_cons (a : nat) (x : log_sink_t)
    (l : list (nat * log_sink_t)) :
  total_refs ((a, x) :: l)
  = (Z.to_nat (sink_refcount x) + total_refs l)%nat.
Proof. reflexivity. Qed.

(** The release in the body of the first loop, with the head of the source
    list already taken off. *)
Lemma release_step (s : state) (src : qd_log_source_t) :
  registry_ok s ->
  Forall (fun p => (Z.of_nat (holders (fst p) (src :: source_list s))
                    <= sink_refcount (snd p))%Z) (sink_list s) ->
  sink_ref_ok s (src_sink src) ->
  Forall (fun x => sink_ref_ok s (src_sink x)) (source_list s) ->
  exists s' evs,
    log_sink_free_lh (src_sink src) s = Ret tt s' /\
    source_list s' = source_list s /\ entries s' = entries s /\
    io_trace s' = io_trace s ++ evs /\
    Permutation (evs ++ closes (sink_list s')) (closes (sink_list s)) /\
    registry_ok s' /\ refcounts_cover s' /\
    Forall (fun x => sink_ref_ok s' (src_sink x)) (source_list s').
Proof.
  intros Hok Hcov Href Hrefs. pose proof Hok as (Hnd & Hu & Hall).
  assert (Hweak : forall p : nat * log_sink_t,
            (Z.of_nat (holders (fst p) (src :: source_list s))
             <= sink_refcount (snd p))%Z ->
            (Z.of_nat (holders (fst p) (source_list s))
             <= sink_refcount (snd p))%Z).
  { intros p Hp. rewrite holders_cons in Hp. lia. }
  destruct (src_sink src) as [a|] eqn:Hsink.
  2:{ exists s, []. split; [reflexivity |]. rewrite !app_nil_r. cbn [app].
      split; [reflexivity |]. split; [reflexivity |]. split; [reflexivity |].
      split; [reflexivity |]. split; [exact Hok |].
      split; [| exact Hrefs].
      eapply Forall_impl; [exact Hcov | exact Hweak]. }
  destruct Href as [x Hx].
  assert (Hin : (a, x) ∈ sink_list s)
    by (now apply list_elem_of_In, sink_at_In).
  assert (Hrc : (1 <= sink_refcount x)%Z).
  { rewrite Forall_forall in Hall. apply (Hall _ Hin). }
  assert (Hca : (Z.of_nat (S (holders a (source_list s)))
                 <= sink_refcount x)%Z).
  { rewrite Forall_forall in Hcov. specialize (Hcov _ Hin).
    cbn [fst snd] in Hcov. rewrite holders_cons in Hcov.
    rewrite bool_decide_eq_true_2 in Hcov by assumption. exact Hcov. }
  destruct (Z.eq_dec (sink_refcount x) 1%Z) as [H1 | H1].
  - pose proof (log_sink_free_lh_last s a x Hx H1) as E.
    eexists _, (close_events x). split; [exact E |]. state_cbn.
    split; [reflexivity |]. split; [reflexivity |].
    split; [reflexivity |].
    split; [now apply closes_remove |].
    split; [exact (log_sink_free_lh_registry_ok _ s _ Hok E) |].
    split.
    + unfold refcounts_cover. state_cbn. apply remove_sink_incl.
      eapply Forall_impl; [exact Hcov | exact Hweak].
    + rewrite Forall_forall in Hrefs |- *. intros y Hy.
      specialize (Hrefs y Hy). destruct (src_sink y) as [b|] eqn:Hb;
        [| exact I].
      cbn [sink_ref_ok] in *. state_cbn.
      assert (b <> a).
      { intros ->. apply list_elem_of_In in Hy.
        pose proof (holders_pos a y _ Hy Hb). lia. }
      rewrite sink_at_remove_other by congruence. exact Hrefs.
  - assert (Hgt : (1 < sink_refcount x)%Z) by lia.
    pose proof (log_sink_free_lh_shared s a x Hx Hgt) as E.
    eexists _, []. split; [exact E |]. state_cbn.
    split; [reflexivity |]. split; [reflexivity |].
    split; [now rewrite app_nil_r |].
    split; [cbn [app]; now rewrite (closes_set _ _ x) |].
    split; [exact (log_sink_free_lh_registry_ok _ s _ Hok E) |].
    split.
    + unfold refcounts_cover. state_cbn. apply set_sink_Forall.
      * cbn [fst snd with_refcount sink_refcount]. lia.
      * eapply Forall_impl; [exact Hcov | exact Hweak].
    + rewrite Forall_forall in Hrefs |- *. intros y Hy.
      specialize (Hrefs y Hy). destruct (src_sink y) as [b|] eqn:Hb;
        [| exact I].
      cbn [sink_ref_ok] in *. state_cbn.
      destruct (Nat.eq_dec a b) as [<- | Hne].
      * rewrite (sink_at_set _ _ x) by assumption. now eexists.
      * now rewrite sink_at_set_other.
Qed.

(** The first loop: every source is freed, and with it its hold on a
    sink. *)
Lemma free_all_sources_eq (srcs : list qd_log_source_t) :
  forall s : state,
    source_list s = srcs ->
    registry_ok s -> refcounts_cover s ->
    Forall (fun x => sink_ref_ok s (src_sink x)) (source_list s) ->
    exists s' evs,
      (forall fuel, (length srcs <= fuel)%nat ->
                    free_all_sources fuel s = Ret tt s') /\
      source_list s' = [] /\ entries s' = entries s /\
      io_trace s' = io_trace s ++ evs /\
      Permutation (evs ++ closes (sink_list s')) (closes (sink_list s)) /\
      registry_ok s'.
Proof.
  induction srcs as [|src rest IH]; intros s Hsrcs Hok Hcov Hrefs.
  - exists s, []. split.
    { intros fuel _. destruct fuel; cbn [free_all_sources];
        unfold bind, get; rewrite Hsrcs; reflexivity. }
    rewrite !app_nil_r. cbn [app].
    split; [exact Hsrcs |]. split; [reflexivity |]. split; [reflexivity |].
    split; [reflexivity | exact Hok].
  - set (sa := with_source_list rest s).
    assert (Hok_a : registry_ok sa) by exact Hok.
    assert (Hcov_a :
      Forall (fun p => (Z.of_nat (holders (fst p) (src :: source_list sa))
                        <= sink_refcount (snd p))%Z) (sink_list sa)).
    { subst sa. state_cbn. unfold refcounts_cover in Hcov.
      now rewrite Hsrcs in Hcov. }
    rewrite Hsrcs in Hrefs. inversion Hrefs as [|? ? Hr1 Hr2]; subst.
    destruct (release_step sa src Hok_a Hcov_a Hr1 Hr2)
      as (sb & evs1 & E1 & Hs1 & He1 & Hi1 & Hp1 & Hok1 & Hcov1 & Hrefs1).
    destruct (IH sb Hs1 Hok1 Hcov1 Hrefs1)
      as (s' & evs2 & E2 & Hs2 & He2 & Hi2 & Hp2 & Hok2).
    exists s', (evs1 ++ evs2). split.
    { intros fuel Hfuel. destruct fuel as [|fuel]; [cbn in Hfuel; lia |].
      cbn [free_all_sources]. unfold bind at 1. unfold get at 1.
      rewrite Hsrcs. unfold qd_log_source_free_lh.
      assert (Hload : load_source 0 s = Ret src s).
      { apply load_source_eq. now rewrite Hsrcs. }
      unfold bind at 1. unfold bind at 1. rewrite Hload.
      unfold bind at 1. unfold modify at 1. rewrite Hsrcs. cbn [tail].
      fold sa. rewrite E1. apply E2. cbn [length] in Hfuel. lia. }
    split; [exact Hs2 |]. split; [now rewrite He2, He1 |].
    split; [now rewrite Hi2, Hi1, app_assoc |].
    split; [| exact Hok2].
    change (closes (sink_list sa)) with (closes (sink_list s)) in Hp1.
    etransitivity; [| exact Hp1]. rewrite <- app_assoc.
    apply Permutation_app_head. exact Hp2.
Qed.

(** The second loop: the history is emptied. *)
Lemma free_all_entries_eq (l : list qd_log_entry_t) :
  forall s : state,
    entries s = l ->
    exists s',
      (forall fuel, (length l <= fuel)%nat ->
                    free_all_entries fuel s = Ret tt s') /\
      entries s' = [] /\ source_list s' = source_list s /\
      sink_list s' = sink_list s /\ io_trace s' = io_trace s.
Proof.
  induction l as [|e l IH]; intros s Hl.
  - exists s. split; [| now repeat split].
    intros fuel _. destruct fuel; cbn [free_all_entries];
      unfold bind, get; rewrite Hl; reflexivity.
  - destruct (IH (with_entries l s) eq_refl) as (s' & E & He & Hs & Hk & Hi).
    exists s'. split; [| now repeat split].
    intros fuel Hfuel. destruct fuel as [|fuel]; [cbn in Hfuel; lia |].
    cbn [free_all_entries]. unfold bind at 1. unfold get at 1. rewrite Hl.
    unfold bind at 1. unfold qd_log_entry_free_lh, modify. rewrite Hl.
    apply E. cbn [length] in Hfuel. lia.
Qed.

(** The third loop: the sinks that are left are released until they are
    gone, the head first. *)
Lemma free_all_sinks_eq (n : nat) :
  forall s : state,
    total_refs (sink_list s) = n ->
    Forall (fun p : nat * log_sink_t => (1 <= sink_refcount (snd p))%Z)
      (sink_list s) ->
    exists s',
      (forall fuel, (n <= fuel)%nat -> free_all_sinks fuel s = Ret tt s') /\
      sink_list s' = [] /\ source_list s' = source_list s /\
      entries s' = entries s /\
      io_trace s' = io_trace s ++ closes (sink_list s).
Proof.
  induction n as [|n IH]; intros s Hn Hall.
  - destruct (sink_list s) as [|[a x] l] eqn:Hl.
    + exists s. split.
      { intros fuel _. destruct fuel; cbn [free_all_sinks];
          unfold bind, get; rewrite Hl; reflexivity. }
      rewrite app_nil_r. now repeat split.
    + exfalso. inversion Hall as [|? ? Hx _]; subst. cbn [snd] in Hx.
      rewrite total_refs_cons in Hn. lia.
  - destruct (sink_list s) as [|[a x] l] eqn:Hl; [discriminate |].
    inversion Hall as [|? ? Hx Hrest]; subst. cbn [snd] in Hx.
    rewrite total_refs_cons in Hn.
    assert (Hat : sink_at (sink_list s) a = Some x).
    { rewrite Hl. cbn [sink_at]. now rewrite Nat.eqb_refl. }
    assert (Hstep : exists sb,
              log_sink_free_lh (Some a) s = Ret tt sb /\
              total_refs (sink_list sb) = n /\
              Forall (fun p : nat * log_sink_t =>
                        (1 <= sink_refcount (snd p))%Z) (sink_list sb) /\
              source_list sb = source_list s /\ entries sb = entries s /\
              io_trace sb ++ closes (sink_list sb)
              = io_trace s ++ closes (sink_list s)).
    { destruct (Z.eq_dec (sink_refcount x) 1%Z) as [H1 | H1].
      - eexists. split; [exact (log_sink_free_lh_last s a x Hat H1) |].
        state_cbn. rewrite Hl. cbn [remove_sink]. rewrite Nat.eqb_refl.
        split; [lia |]. split; [exact Hrest |].
        split; [reflexivity |]. split; [reflexivity |].
        now rewrite closes_cons, app_assoc.
      - assert (Hgt : (1 < sink_refcount x)%Z) by lia.
        eexists. split; [exact (log_sink_free_lh_shared s a x Hat Hgt) |].
        state_cbn. rewrite Hl. cbn [set_sink]. rewrite Nat.eqb_refl.
        rewrite total_refs_cons. cbn [with_refcount sink_refcount].
        split; [lia |].
        split; [constructor; [cbn [snd sink_refcount with_refcount]; lia
                            | exact Hrest] |].
        split; [reflexivity |]. split; [reflexivity |].
        reflexivity. }
    destruct Hstep as (sb & E1 & Hn1 & Hall1 & Hs1 & He1 & Hi1).
    destruct (IH sb Hn1 Hall1) as (s' & E2 & Hk2 & Hs2 & He2 & Hi2).
    exists s'. split.
    { intros fuel Hfuel. destruct fuel as [|fuel]; [lia |].
      cbn [free_all_sinks]. unfold bind at 1. unfold get at 1. rewrite Hl.
      rewrite (bind_ret _ _ _ _ _ E1). apply E2. lia. }
    split; [exact Hk2 |]. split; [now rewrite Hs2 |].
    split; [now rewrite He2 |]. now rewrite Hi2, Hi1, Hl.
Qed.

(** X22.  Shutdown releases everything.  From a state that is well formed,
    whose registry is in order and whose reference counts cover the sources
    that hold each sink, [qd_log_finalize] returns (whatever fuel at or
    above some bound it is given) with no source, no history record and no
    sink left, and the only I/O it performs is to close the resource of
    every registered sink exactly once, the standard-error stream
    excepted. *)
Theorem finalize_releases_everything (s : state) :
  sound s ->
  exists n s' evs,
    (forall fuel, (n <= fuel)%nat -> qd_log_finalize fuel s = Ret tt s') /\
    source_list s' = [] /\ entries s' = [] /\ sink_list s' = [] /\
    io_trace s' = io_trace s ++ evs /\
    Permutation evs (closes (sink_list s)).
Proof.
  intros ((_ & Hsrc & _) & Hok & Hcov).
  assert (Hrefs : Forall (fun x => sink_ref_ok s (src_sink x)) (source_list s)).
  { eapply Forall_impl; [exact Hsrc |]. now intros x (_ & ?). }
  destruct (free_all_sources_eq _ s eq_refl Hok Hcov Hrefs)
    as (s1 & evs1 & E1 & Hs1 & He1 & Hi1 & Hp1 & Hok1).
  destruct (free_all_entries_eq _ s1 eq_refl)
    as (s2 & E2 & He2 & Hs2 & Hk2 & Hi2).
  assert (Hall2 : Forall (fun p : nat * log_sink_t =>
                            (1 <= sink_refcount (snd p))%Z) (sink_list s2)).
  { rewrite Hk2. destruct Hok1 as (_ & _ & Hall).
    eapply Forall_impl; [exact Hall |]. now intros p (? & _). }
  destruct (free_all_sinks_eq _ s2 eq_refl Hall2)
    as (s3 & E3 & Hk3 & Hs3 & He3 & Hi3).
  exists (Nat.max (length (source_list s))
            (Nat.max (length (entries s1)) (total_refs (sink_list s2)))),
    s3, (evs1 ++ closes (sink_list s1)).
  split.
  { intros fuel Hfuel. unfold qd_log_finalize.
    rewrite (bind_ret _ _ _ _ _ (E1 fuel ltac:(lia))).
    rewrite (bind_ret _ _ _ _ _ (E2 fuel ltac:(lia))).
    apply E3. lia. }
  split; [now rewrite Hs3, Hs2 |]. split; [now rewrite He3 |].
  split; [exact Hk3 |].
  split; [now rewrite Hi3, Hi2, Hi1, Hk2, app_assoc |].
  exact Hp1.
Qed.

(** ** Reference counts stay sound *)

Lemma bind_inv {A B} (m : M A) (k : A -> M B) (s s' : state) (b : B) :
  bind m k s = Ret b s' ->
  exists a s1, m s = Ret a s1 /\ k a s1 = Ret b s'.
Proof.
  unfold bind. destruct (m s) as [a s1| |]; try discriminate.
  intros E. now exists a, s1.
Qed.

Lemma holders_insert (b : nat) (x' : qd_log_source_t)
    (l : list qd_log_source_t) :
  forall (h : nat) (x : qd_log_source_t),
    l !! h = Some x ->
    (holders b (<[h := x']> l)
     + (if bool_decide (src_sink x = Some b) then 1 else 0)
     = holders b l
       + (if bool_decide (src_sink x' = Some b) then 1 else 0))%nat.
Proof.
  induction l as [|y l IH]; intros h x Hx; [discriminate |].
  destruct h as [|h].
  - injection Hx as ->.
    change (<[0%nat := x']> (x :: l)) with (x' :: l).
    rewrite !holders_cons. lia.
  - change (<[S h := x']> (y :: l)) with (y :: <[h := x']> l).
    rewrite !holders_cons. specialize (IH h x Hx). lia.
Qed.

Lemma holders_app (b : nat) (l l' : list qd_log_source_t) :
  holders b (l ++ l') = (holders b l + holders b l')%nat.
Proof.
  induction l as [|y l IH]; [reflexivity |].
  cbn [app]. rewrite !holders_cons, IH. lia.
Qed.

Lemma In_insert (l : list qd_log_source_t) (x' y : qd_log_source_t) :
  forall h, In y (<[h := x']> l) -> y = x' \/ In y l.
Proof.
  induction l as [|z l IH]; intros h Hy; [contradiction |].
  destruct h as [|h].
  - destruct Hy as [<- | Hy]; [now left | right; now right].
  - destruct Hy as [<- | Hy]; [right; now left |].
    destruct (IH h Hy) as [-> | Hin]; [now left | right; now right].
Qed.

Lemma In_sink_at (l : list (nat * log_sink_t)) (a : nat) (x : log_sink_t) :
  NoDup (map fst l) -> In (a, x) l -> sink_at l a = Some x.
Proof.
  induction l as [|[b y] l IH]; intros Hnd Hin; [contradiction |].
  cbn [map fst] in Hnd. apply NoDup_cons in Hnd as (Hnot & Hnd).
  cbn [sink_at]. destruct Hin as [[= -> ->] | Hin].
  - now rewrite Nat.eqb_refl.
  - destruct (Nat.eqb_spec b a) as [-> | _]; [| now apply IH].
    exfalso. apply Hnot. apply list_elem_of_In.
    now apply (in_map fst) in Hin.
Qed.

(** The cover, read through [sink_at]. *)
Lemma cover_at (srcs : list qd_log_source_t) (l : list (nat * log_sink_t))
    (slack : nat -> Z) :
  NoDup (map fst l) ->
  (Forall (fun p => (Z.of_nat (holders (fst p) srcs) + slack (fst p)
                     <= sink_refcount (snd p))%Z) l
   <-> forall a x, sink_at l a = Some x ->
                   (Z.of_nat (holders a srcs) + slack a <= sink_refcount x)%Z).
Proof.
  intros Hnd. rewrite Forall_forall. split.
  - intros H a x Hat. apply sink_at_In, list_elem_of_In in Hat.
    apply (H _ Hat).
  - intros H [a x] Hin. apply list_elem_of_In in Hin.
    apply (H a x). now apply In_sink_at.
Qed.

Lemma refcounts_cover_at (s : state) :
  NoDup (map fst (sink_list s)) ->
  (refcounts_cover s
   <-> forall a x, sink_at (sink_list s) a = Some x ->
                   (Z.of_nat (holders a (source_list s))
                    <= sink_refcount x)%Z).
Proof.
  intros Hnd. unfold refcounts_cover. rewrite Forall_forall. split.
  - intros H a x Hat. apply sink_at_In, list_elem_of_In in Hat.
    apply (H _ Hat).
  - intros H [a x] Hin. apply list_elem_of_In in Hin.
    apply (H a x). now apply In_sink_at.
Qed.

(** *** Steps that change settings only *)

Lemma settings_step_refl (h : nat) (s : state) : settings_step h s s.
Proof. unfold settings_step. repeat split. now left. Qed.

Lemma settings_step_trans (h : nat) (s1 s2 s3 : state) :
  settings_step h s1 s2 -> settings_step h s2 s3 -> settings_step h s1 s3.
Proof.
  intros (A1 & A2 & A3 & A4 & A5) (B1 & B2 & B3 & B4 & B5).
  unfold settings_step. rewrite B1, B2, B3, B4.
  do 4 (split; [assumption |]).
  destruct A5 as [A5 | (x & x' & Hx & Hl & Hk & Hh)];
    destruct B5 as [B5 | (y & y' & Hy & Hl' & Hk' & Hh')].
  - left. now rewrite B5.
  - right. rewrite A5 in Hy, Hl'. now exists y, y'.
  - right. rewrite B5. now exists x, x'.
  - right. exists x, y'. split; [assumption |].
    rewrite Hl in Hy.
    rewrite list_lookup_insert_eq in Hy by (now apply lookup_lt_Some in Hx).
    injection Hy as <-.
    split; [now rewrite Hl', Hl, list_insert_insert_eq |].
    split; [now rewrite Hk' | now rewrite Hh'].
Qed.

Lemma store_settings (h : nat) (f : qd_log_source_t -> qd_log_source_t)
    (s s' : state) :
  (forall x, src_sink (f x) = src_sink x /\
             length (src_severity_histogram (f x))
             = length (src_severity_histogram x)) ->
  store_source h f s = Ret tt s' -> settings_step h s s'.
Proof.
  intros Hf E. destruct (source_list s !! h) as [x|] eqn:Hx.
  - rewrite (store_source_eq _ _ _ _ Hx) in E. injection E as <-.
    unfold settings_step. state_cbn. do 4 (split; [reflexivity |]).
    right. exists x, (f x). destruct (Hf x) as (Hk & Hh). now repeat split.
  - unfold store_source, load_source, bind, get, deref in E.
    rewrite Hx in E. discriminate.
Qed.

Lemma break_settings (h : nat) (k : M unit) (s s' : state) :
  (forall s1 s2, k s1 = Ret tt s2 -> settings_step h s1 s2) ->
  QD_ERROR_BREAK k s = Ret tt s' -> settings_step h s s'.
Proof.
  intros Hk E. unfold QD_ERROR_BREAK, bind, qd_error_code in E.
  destruct (error_code_of (qd_error_slot s)).
  - now apply Hk.
  - injection E as <-. apply settings_step_refl.
Qed.

Lemma error_only_settings (h : nat) (slot : option (qd_error_t * string))
    (s : state) :
  settings_step h s (with_qd_error_slot slot s).
Proof. unfold settings_step. repeat split. now left. Qed.

Lemma enable_mask_settings (h : nat) (enable : string) (m : Z)
    (s s' : state) :
  enable_mask enable s = Ret m s' -> settings_step h s s'.
Proof.
  intros E. destruct (first_unrecognized enable) as [token|] eqn:Hf.
  - unfold first_unrecognized in Hf. unfold enable_mask in E.
    rewrite (enable_mask_loop_unrecognized _ token Hf) in E.
    injection E as _ <-. apply error_only_settings.
  - destruct (enable_mask_recognized enable Hf) as (m' & Hm).
    rewrite Hm in E. injection E as _ <-. apply settings_step_refl.
Qed.

Lemma unit_eta (u : unit) : u = tt.
Proof. now destruct u. Qed.

Lemma entity_fields_settings (entity : qd_entity_t) (h : nat)
    (s s' : state) :
  entity_fields entity h s = Ret tt s' -> settings_step h s s'.
Proof.
  intros E. unfold entity_fields in E.
  apply bind_inv in E as (u1 & s1 & E1 & E).
  assert (H1 : settings_step h s s1).
  { rewrite (unit_eta u1) in E1. destruct (ent_enable entity) as [e|].
    - apply (break_settings h _ _ _) in E1; [exact E1 |].
      intros sa sb Ek. apply bind_inv in Ek as (m & sc & Em & Ek).
      apply (settings_step_trans h _ sc).
      + exact (enable_mask_settings h e m _ _ Em).
      + apply (store_settings h _ _ _) in Ek; [exact Ek |]. now intros x.
    - injection E1 as <-. apply settings_step_refl. }
  apply (settings_step_trans h _ s1); [exact H1 |].
  apply (break_settings h _ _ _) in E; [exact E |]. clear.
  intros sa sb E. apply bind_inv in E as (u2 & s2 & E2 & E).
  assert (H2 : settings_step h sa s2).
  { rewrite (unit_eta u2) in E2. destruct (ent_timestamp entity) as [b|].
    - apply (store_settings h _ _ _) in E2; [exact E2 |]. now intros x.
    - injection E2 as <-. apply settings_step_refl. }
  apply (settings_step_trans h _ s2); [exact H2 |].
  apply (break_settings h _ _ _) in E; [exact E |]. clear.
  intros sa sb E. apply bind_inv in E as (u3 & s3 & E3 & E).
  assert (H3 : settings_step h sa s3).
  { rewrite (unit_eta u3) in E3. destruct (ent_source entity) as [b|].
    - apply (store_settings h _ _ _) in E3; [exact E3 |]. now intros x.
    - injection E3 as <-. apply settings_step_refl. }
  apply (settings_step_trans h _ s3); [exact H3 |].
  apply (break_settings h _ _ _) in E; [exact E |]. clear.
  intros sa sb E. injection E as <-. apply settings_step_refl.
Qed.

Lemma sound_settings_step (h : nat) (s s' : state) :
  sound s -> settings_step h s s' -> sound s'.
Proof.
  intros (Hwf & Hok & Hcov) (Ed & Ek & En & Ee & Hl).
  pose proof Hwf as (Hd & Hall & Hlen).
  assert (Hok' : registry_ok s') by (now apply (registry_ok_frame s)).
  destruct Hl as [Hl | (x & x' & Hx & Hl & Hsink & Hhist)].
  - split; [| split; [exact Hok' |]].
    + apply (wf_state_frame s); try assumption. now rewrite Ee.
    + unfold refcounts_cover in *. now rewrite Hl, Ek.
  - assert (Hx_ok : source_ok s x).
    { rewrite Forall_forall in Hall. apply Hall.
      now apply (list_elem_of_lookup_2 _ h). }
    split; [| split; [exact Hok' |]].
    + split; [| split].
      * destruct Hd as [dsrc Hd].
        apply default_source_eq in Hd as (d & Hd & Hds).
        unfold default_source. rewrite Ed, Hd, Hl.
        destruct (decide (h = d)) as [-> | Hne].
        -- rewrite list_lookup_insert_eq by (now apply lookup_lt_Some in Hds).
           now eexists.
        -- rewrite list_lookup_insert_ne by assumption. now exists dsrc.
      * rewrite Hl. apply Forall_insert.
        -- eapply Forall_impl; [exact Hall |]. intros y Hy.
           now apply (source_ok_frame s).
        -- destruct Hx_ok as (Hxl & Hxk). split; [now rewrite Hhist |].
           unfold sink_ref_ok in *. now rewrite Hsink, Ek.
      * now rewrite Ee.
    + unfold refcounts_cover in *. rewrite Hl, Ek.
      eapply Forall_impl; [exact Hcov |]. intros p Hp. cbv beta in *.
      pose proof (holders_insert (fst p) x' _ h x Hx) as Hh.
      rewrite Hsink in Hh. lia.
Qed.

(** *** Creating and resetting a source *)

Lemma qd_log_source_lh_inv (module : string) (s s1 : state) (h : nat) :
  wf_state s -> qd_log_source_lh module s = Ret h s1 ->
  (s1 = s /\ is_Some (source_list s !! h)) \/
  (h = length (source_list s) /\
   exists fresh,
     src_sink fresh = None /\
     length (src_severity_histogram fresh) = N_LEVEL_INDICES /\
     source_list s1 = source_list s ++ [fresh] /\
     default_log_source s1 = default_log_source s /\
     sink_list s1 = sink_list s /\ sink_next s1 = sink_next s /\
     entries s1 = entries s).
Proof.
  intros (Hd & _) E. destruct Hd as [dsrc Hd].
  apply default_source_eq in Hd as (d & Hd & Hds).
  unfold qd_log_source_lh in E. unfold bind at 1 in E.
  unfold lookup_log_source_lh at 1 in E.
  destruct (if (strcasecmp module SOURCE_DEFAULT =? 0)%Z
            then default_log_source s
            else find_source 0 (source_list s) module) as [h0|] eqn:El.
  - injection E as <- <-. left. split; [reflexivity |].
    destruct (strcasecmp module SOURCE_DEFAULT =? 0)%Z.
    + rewrite Hd in El. injection El as <-. now exists dsrc.
    + apply find_source_lt in El. apply lookup_lt_is_Some. lia.
  - cbv [bind get modify ret qd_entity_cache_add] in E. state_cbn.
    injection E as <- <-. right. split; [reflexivity |].
    eexists. state_cbn. split; [| split; [| now repeat split]].
    + reflexivity.
    + apply length_replicate.
Qed.

Lemma sound_source (module : string) (s s1 : state) (h : nat) :
  sound s -> qd_log_source_lh module s = Ret h s1 ->
  sound s1 /\ is_Some (source_list s1 !! h).
Proof.
  intros Hsound E. pose proof Hsound as (Hwf & Hok & Hcov).
  destruct (qd_log_source_lh_inv module s s1 h Hwf E)
    as [(-> & Hh) | (-> & fresh & Hk & Hhist & Hl & Ed & Ek & En & Ee)];
    [now split |].
  split.
  2:{ rewrite Hl. exists fresh. now apply list_lookup_middle. }
  destruct (qd_log_source_lh_wf module s Hwf) as (h' & s' & _ & E' & _ & Hwf').
  rewrite E in E'. injection E' as _ <-.
  split; [exact Hwf' |]. split; [now apply (registry_ok_frame s) |].
  unfold refcounts_cover in *. rewrite Hl, Ek.
  eapply Forall_impl; [exact Hcov |]. intros p Hp. cbv beta in *.
  rewrite holders_app, holders_cons.
  rewrite bool_decide_eq_false_2 by (rewrite Hk; discriminate).
  unfold holders at 2. cbn [List.filter length]. lia.
Qed.

Lemma sound_reset (module : string) (s s' : state) (h : nat) :
  sound s -> qd_log_source_reset module s = Ret h s' -> sound s'.
Proof.
  intros Hsound E. pose proof Hsound as (Hwf & _).
  destruct (qd_log_source_reset_wf module s Hwf) as (h0 & s0 & E0 & Hwf').
  rewrite E in E0. injection E0 as _ <-. clear h0.
  unfold qd_log_source_reset in E.
  apply bind_inv in E as (h1 & s1 & E1 & E).
  apply bind_inv in E as (u & s2 & E2 & E). injection E as _ <-.
  destruct (sound_source module s s1 h1 Hsound E1)
    as ((_ & Hok1 & Hcov1) & [x Hx]).
  rewrite (store_source_eq _ _ _ _ Hx) in E2. injection E2 as _ <-.
  split; [exact Hwf' |]. split; [exact Hok1 |].
  unfold refcounts_cover in *. state_cbn.
  eapply Forall_impl; [exact Hcov1 |]. intros p Hp. cbv beta in *.
  pose proof (holders_insert (fst p) (qd_log_source_defaults x) _ h1 x Hx)
    as Hh.
  cbn [qd_log_source_defaults src_sink] in Hh.
  rewrite (bool_decide_eq_false_2 (None = Some p.1)) in Hh by discriminate.
  lia.
Qed.

(** *** Emitting *)

Lemma count_event_settings (h : nat) (level : Z) (s : state) :
  settings_step h s (count_event h level s).
Proof.
  unfold count_event.
  destruct (bool_decide (valid_level level));
    [| apply error_only_settings].
  destruct (source_list s !! h) as [x|] eqn:Hx; [| apply settings_step_refl].
  unfold settings_step. state_cbn. do 4 (split; [reflexivity |]).
  right. eexists x, _. split; [exact Hx |]. split; [reflexivity |].
  split; [reflexivity |]. cbn [src_severity_histogram
                                with_src_severity_histogram].
  apply length_insert.
Qed.

Lemma sound_emit (h : nat) (level : Z) (file : option string) (line : Z)
    (text : string) (env : emit_env) (s s' : state) :
  sound s -> is_Some (source_list s !! h) ->
  final_state (qd_vlog_impl (Some h) level file line text env s) = Some s' ->
  sound s'.
Proof.
  intros Hsound [src Hs] E. pose proof Hsound as (Hwf & Hok & Hcov).
  destruct (wf_default _ Hwf) as (dsrc & Hd & _).
  destruct (qd_vlog_impl_wf h level file line text env src s Hwf Hs)
    as (s0 & E0 & Hwf').
  rewrite E in E0. injection E0 as <-.
  destruct (emit_shape h level file line text env _ _ _ Hwf Hs Hd)
    as (s0 & E0 & Es & _ & _ & Ek & En & _).
  rewrite E in E0. injection E0 as <-.
  destruct (sound_settings_step h s _ Hsound (count_event_settings h level s))
    as (_ & Hok1 & Hcov1).
  split; [exact Hwf' |].
  split; [now apply (registry_ok_frame (count_event h level s)) |].
  unfold refcounts_cover in *. now rewrite Es, Ek.
Qed.

(** *** Acquire and release, read backwards *)

Lemma log_sink_lh_inv (name : string) (fopen_ok : bool) (sink : option nat)
    (s s1 : state) :
  registry_ok s -> log_sink_lh name fopen_ok s = Ret sink s1 ->
  source_list s1 = source_list s /\
  default_log_source s1 = default_log_source s /\
  entries s1 = entries s /\ registry_ok s1 /\
  match sink with
  | None => sink_list s1 = sink_list s /\ sink_next s1 = sink_next s
  | Some a =>
      exists x,
        sink_at (sink_list s1) a = Some x /\
        (forall b, b <> a ->
                   sink_at (sink_list s1) b = sink_at (sink_list s) b) /\
        match sink_at (sink_list s) a with
        | Some x0 => sink_refcount x = (sink_refcount x0 + 1)%Z
        | None => sink_refcount x = 1%Z
        end
  end.
Proof.
  intros Hok E.
  pose proof (log_sink_lh_registry_ok name fopen_ok sink s s1 Hok E) as Hok1.
  pose proof Hok as (Hnd & Hu & Hall).
  destruct (find_sink (sink_list s) name) as [a|] eqn:Hf.
  - destruct (find_sink_Some _ _ _ Hnd Hf) as (sk & Hat & _).
    destruct (Z.eq_dec (sink_refcount sk) INT_MAX) as [Hmax | Hmax].
    { unfold log_sink_lh, find_log_sink_lh in E. unfold bind at 1 in E.
      rewrite Hf in E. unfold bind at 1 in E. unfold get at 1 in E.
      unfold bind at 1 in E. rewrite Hat in E. cbn [deref] in E.
      unfold ret at 1 in E. rewrite Hmax, Z.eqb_refl in E. discriminate. }
    rewrite (log_sink_lh_shared s name fopen_ok a sk Hf Hat Hmax) in E.
    injection E as <- <-. state_cbn.
    do 3 (split; [reflexivity |]). split; [exact Hok1 |].
    eexists. split; [now apply (sink_at_set _ _ sk) |].
    split; [intros b Hb; apply sink_at_set_other; congruence |].
    now rewrite Hat.
  - assert (Hlt : Forall (fun p : nat * log_sink_t => (p.1 < sink_next s)%nat)
                    (sink_list s)).
    { eapply Forall_impl; [exact Hall |]. now intros p (_ & ?). }
    destruct (sink_opens name fopen_ok) eqn:Hopen.
    + destruct (log_sink_lh_opens s name fopen_ok Hf Hopen)
        as (syslog & file & evs & E').
      rewrite E' in E. injection E as <- <-. state_cbn.
      do 3 (split; [reflexivity |]). split; [exact Hok1 |].
      eexists. split; [now apply sink_at_app_fresh |].
      split; [intros b Hb; apply sink_at_app_other; congruence |].
      now rewrite (sink_at_beyond _ _ Hlt).
    + assert (fopen_ok = false) as ->.
      { unfold sink_opens in Hopen. destruct fopen_ok; [| reflexivity].
        now rewrite !orb_true_r in Hopen. }
      unfold sink_opens in Hopen. rewrite !orb_false_r in Hopen.
      apply orb_false_elim in Hopen as [Hopen H3].
      apply orb_false_elim in Hopen as [H1 H2].
      unfold log_sink_lh, find_log_sink_lh in E. unfold bind at 1 in E.
      rewrite Hf, H1, H2, H3 in E.
      cbv [bind ret get modify emit_event qd_error deref fault] in E.
      state_cbn. destruct (printf_no_args _) in E; [| discriminate].
      injection E as <- <-. state_cbn. now repeat split.
Qed.

Lemma log_sink_free_lh_inv (b : nat) (s s2 : state) :
  registry_ok s -> log_sink_free_lh (Some b) s = Ret tt s2 ->
  source_list s2 = source_list s /\
  default_log_source s2 = default_log_source s /\
  entries s2 = entries s /\ registry_ok s2 /\
  exists x,
    sink_at (sink_list s) b = Some x /\
    ((sink_refcount x = 1%Z /\ sink_list s2 = remove_sink b (sink_list s)) \/
     ((1 < sink_refcount x)%Z /\
      sink_list s2
      = set_sink b (with_refcount (sink_refcount x - 1) x) (sink_list s))).
Proof.
  intros Hok E.
  pose proof (log_sink_free_lh_registry_ok (Some b) s s2 Hok E) as Hok2.
  pose proof Hok as (Hnd & Hu & Hall).
  destruct (sink_at (sink_list s) b) as [x|] eqn:Hat.
  2:{ unfold log_sink_free_lh, bind, get, deref in E.
      rewrite Hat in E. discriminate. }
  assert (Hrc : (1 <= sink_refcount x)%Z).
  { apply sink_at_In, list_elem_of_In in Hat.
    rewrite Forall_forall in Hall. apply (Hall _ Hat). }
  destruct (Z.eq_dec (sink_refcount x) 1%Z) as [H1 | H1].
  - rewrite (log_sink_free_lh_last s b x Hat H1) in E. injection E as <-.
    state_cbn. do 3 (split; [reflexivity |]). split; [exact Hok2 |].
    exists x. split; [reflexivity |]. left. now split.
  - assert (Hgt : (1 < sink_refcount x)%Z) by lia.
    rewrite (log_sink_free_lh_shared s b x Hat Hgt) in E. injection E as <-.
    state_cbn. do 3 (split; [reflexivity |]). split; [exact Hok2 |].
    exists x. split; [reflexivity |]. right. now split.
Qed.

Lemma holders_none (a : nat) (l : list qd_log_source_t) :
  (forall y, In y l -> src_sink y <> Some a) -> holders a l = 0%nat.
Proof.
  induction l as [|y l IH]; intros H; [reflexivity |].
  rewrite holders_cons, IH by (intros z Hz; apply H; now right).
  rewrite bool_decide_eq_false_2 by (apply H; now left). reflexivity.
Qed.

Lemma sound_acquire (name : string) (fopen_ok : bool) (sink : option nat)
    (s s1 : state) :
  sound s -> log_sink_lh name fopen_ok s = Ret sink s1 ->
  source_list s1 = source_list s /\
  wf_state s1 /\ registry_ok s1 /\
  forall b y,
    sink_at (sink_list s1) b = Some y ->
    (Z.of_nat (holders b (source_list s))
     + (if bool_decide (sink = Some b) then 1 else 0)
     <= sink_refcount y)%Z.
Proof.
  intros (Hwf & Hok & Hcov) E.
  destruct (log_sink_lh_inv name fopen_ok sink s s1 Hok E)
    as (Es & Ed & Ee & Hok1 & Hsink).
  pose proof Hok as (Hnd & _). pose proof Hwf as (Hd & Hall & Hlen).
  rewrite (refcounts_cover_at s Hnd) in Hcov.
  assert (Hvalid : forall y b, In y (source_list s) -> src_sink y = Some b ->
                               is_Some (sink_at (sink_list s) b)).
  { intros y b Hy Hb. rewrite Forall_forall in Hall.
    apply list_elem_of_In in Hy. destruct (Hall y Hy) as (_ & Hr).
    now rewrite Hb in Hr. }
  split; [exact Es |].
  destruct sink as [a|].
  - destruct Hsink as (x & Hx & Hoth & Hrc).
    split; [| split; [exact Hok1 |]].
    + split; [| split].
      * unfold default_source in *. now rewrite Ed, Es.
      * rewrite Es. eapply Forall_impl; [exact Hall |].
        intros y (Hy1 & Hy2). split; [exact Hy1 |].
        destruct (src_sink y) as [b|]; [| exact I]. cbn [sink_ref_ok] in *.
        destruct (Nat.eq_dec b a) as [-> | Hne]; [now rewrite Hx |].
        now rewrite Hoth.
      * now rewrite Ee.
    + intros b y Hy. destruct (Nat.eq_dec b a) as [-> | Hne].
      * rewrite bool_decide_eq_true_2 by reflexivity.
        rewrite Hx in Hy. injection Hy as <-.
        destruct (sink_at (sink_list s) a) as [x0|] eqn:H0.
        -- specialize (Hcov a x0 H0). lia.
        -- rewrite holders_none; [lia |].
           intros z Hz Hza. destruct (Hvalid z a Hz Hza) as [? Hq].
           rewrite H0 in Hq. discriminate.
      * rewrite bool_decide_eq_false_2 by congruence.
        rewrite Hoth in Hy by assumption. specialize (Hcov b y Hy). lia.
  - destruct Hsink as (Ek & En).
    split; [| split; [exact Hok1 |]].
    + apply (wf_state_frame s); try assumption. now rewrite Ee.
    + intros b y Hy. rewrite bool_decide_eq_false_2 by discriminate.
      rewrite Ek in Hy. specialize (Hcov b y Hy). lia.
Qed.

(** The counting argument of an output assignment: the new sink [a] has
    been acquired, the sink the source [h] held is released, and [h] is made
    to hold [a]. *)
Ltac split_ifs :=
  repeat match goal with
         | H : context [if bool_decide ?p then _ else _] |- _ =>
             destruct (bool_decide p)
         | |- context [if bool_decide ?p then _ else _] =>
             destruct (bool_decide p)
         end.

Lemma rebind_counts (srcs : list qd_log_source_t) (h a : nat)
    (cur : qd_log_source_t) (l2 l3 : list (nat * log_sink_t)) :
  srcs !! h = Some cur ->
  NoDup (map fst l2) ->
  (forall b y, sink_at l2 b = Some y ->
               (Z.of_nat (holders b srcs)
                + (if bool_decide (Some a = Some b) then 1 else 0)
                <= sink_refcount y)%Z) ->
  (forall y b, In y srcs -> src_sink y = Some b -> is_Some (sink_at l2 b)) ->
  is_Some (sink_at l2 a) ->
  match src_sink cur with
  | None => l3 = l2
  | Some o =>
      exists x,
        sink_at l2 o = Some x /\
        ((sink_refcount x = 1%Z /\ l3 = remove_sink o l2) \/
         ((1 < sink_refcount x)%Z /\
          l3 = set_sink o (with_refcount (sink_refcount x - 1) x) l2))
  end ->
  let srcs' := <[h := with_src_sink (Some a) cur]> srcs in
  (forall b y, sink_at l3 b = Some y ->
               (Z.of_nat (holders b srcs') <= sink_refcount y)%Z) /\
  (forall y b, In y srcs' -> src_sink y = Some b -> is_Some (sink_at l3 b)).
Proof.
  intros Hcur Hnd I1 Hvalid Ha Hrel srcs'.
  assert (Hcount : forall b,
            (holders b srcs'
             + (if bool_decide (src_sink cur = Some b) then 1 else 0)
             = holders b srcs
               + (if bool_decide (Some a = Some b) then 1 else 0))%nat).
  { intros b. exact (holders_insert b (with_src_sink (Some a) cur) srcs h cur
                       Hcur). }
  assert (Hvalid' : forall y b, In y srcs' -> src_sink y = Some b ->
                                is_Some (sink_at l2 b)).
  { intros y b Hy Hb. apply In_insert in Hy as [-> | Hy].
    - cbn [with_src_sink src_sink] in Hb. injection Hb as <-. exact Ha.
    - now apply (Hvalid y). }
  destruct (src_sink cur) as [o|] eqn:Hold.
  2:{ subst l3. split; [| exact Hvalid'].
      intros b y Hy. specialize (I1 b y Hy). specialize (Hcount b).
      rewrite (bool_decide_eq_false_2 (None = Some b)) in Hcount
        by discriminate.
      split_ifs; lia. }
  destruct Hrel as (x & Hx & [(H1 & ->) | (Hgt & ->)]).
  - (* the released sink goes away *)
    assert (Ho : holders o srcs' = 0%nat).
    { specialize (I1 o x Hx). specialize (Hcount o).
      rewrite (bool_decide_eq_true_2 (Some o = Some o)) in Hcount
        by reflexivity.
      split_ifs; lia. }
    split.
    + intros b y Hy. destruct (Nat.eq_dec o b) as [<- | Hne].
      * rewrite remove_sink_gone in Hy by assumption. discriminate.
      * rewrite sink_at_remove_other in Hy by assumption.
        specialize (I1 b y Hy). specialize (Hcount b).
        rewrite (bool_decide_eq_false_2 (Some o = Some b)) in Hcount
          by congruence.
        split_ifs; lia.
    + intros y b Hy Hb. destruct (Nat.eq_dec o b) as [<- | Hne].
      * pose proof (holders_pos o y srcs' Hy Hb). lia.
      * rewrite sink_at_remove_other by assumption.
        now apply (Hvalid' y).
  - (* the released sink stays, with one reference less *)
    split.
    + intros b y Hy. destruct (Nat.eq_dec o b) as [<- | Hne].
      * rewrite (sink_at_set _ _ x) in Hy by assumption.
        injection Hy as <-. cbn [with_refcount sink_refcount].
        specialize (I1 o x Hx). specialize (Hcount o).
        rewrite (bool_decide_eq_true_2 (Some o = Some o)) in Hcount
          by reflexivity.
        split_ifs; lia.
      * rewrite sink_at_set_other in Hy by assumption.
        specialize (I1 b y Hy). specialize (Hcount b).
        rewrite (bool_decide_eq_false_2 (Some o = Some b)) in Hcount
          by congruence.
        split_ifs; lia.
    + intros y b Hy Hb. destruct (Nat.eq_dec o b) as [<- | Hne].
      * rewrite (sink_at_set _ _ x) by assumption. now eexists.
      * rewrite sink_at_set_other by assumption. now apply (Hvalid' y).
Qed.

Lemma sound_rebind (name : string) (fopen_ok : bool) (h a : nat)
    (cur : qd_log_source_t) (s s2 s3 : state) :
  sound s -> source_list s !! h = Some cur ->
  log_sink_lh name fopen_ok s = Ret (Some a) s2 ->
  log_sink_free_lh (src_sink cur) s2 = Ret tt s3 ->
  source_list s3 = source_list s /\
  sound (with_source_list
           (<[h := with_src_sink (Some a) cur]> (source_list s3)) s3).
Proof.
  intros Hsound Hcur Eacq Efree.
  destruct (sound_acquire name fopen_ok (Some a) s s2 Hsound Eacq)
    as (Es2 & Hwf2 & Hok2 & I1).
  pose proof Hok2 as (Hnd2 & _).
  pose proof Hwf2 as (Hd2 & Hall2 & Hlen2).
  assert (Hvalid2 : forall y b, In y (source_list s) -> src_sink y = Some b ->
                                is_Some (sink_at (sink_list s2) b)).
  { intros y b Hy Hb. rewrite Forall_forall in Hall2. rewrite Es2 in Hall2.
    apply list_elem_of_In in Hy. destruct (Hall2 y Hy) as (_ & Hr).
    now rewrite Hb in Hr. }
  assert (Ha2 : is_Some (sink_at (sink_list s2) a)).
  { destruct (log_sink_lh_inv name fopen_ok (Some a) s s2
                (proj1 (proj2 Hsound)) Eacq) as (_ & _ & _ & _ & x & Hx & _).
    now exists x. }
  assert (Hrel :
    source_list s3 = source_list s2 /\
    default_log_source s3 = default_log_source s2 /\
    entries s3 = entries s2 /\ registry_ok s3 /\
    match src_sink cur with
    | None => sink_list s3 = sink_list s2
    | Some o =>
        exists x,
          sink_at (sink_list s2) o = Some x /\
          ((sink_refcount x = 1%Z /\
            sink_list s3 = remove_sink o (sink_list s2)) \/
           ((1 < sink_refcount x)%Z /\
            sink_list s3
            = set_sink o (with_refcount (sink_refcount x - 1) x)
                (sink_list s2)))
    end).
  { destruct (src_sink cur) as [o|].
    - exact (log_sink_free_lh_inv o s2 s3 Hok2 Efree).
    - injection Efree as <-. do 3 (split; [reflexivity |]).
      split; [exact Hok2 | reflexivity]. }
  destruct Hrel as (Es3 & Ed3 & Ee3 & Hok3 & Hrel).
  destruct (rebind_counts (source_list s) h a cur (sink_list s2) (sink_list s3)
              Hcur Hnd2 I1 Hvalid2 Ha2 Hrel) as (Hcov & Hvalid).
  split; [now rewrite Es3 |].
  rewrite Es3, Es2.
  split; [| split].
  - split; [| split]; state_cbn.
    + destruct Hd2 as [dsrc Hd2].
      apply default_source_eq in Hd2 as (d & Hd & Hds).
      unfold default_source. state_cbn. rewrite Ed3, Hd.
      rewrite Es2 in Hds.
      destruct (decide (h = d)) as [-> | Hne].
      * rewrite list_lookup_insert_eq by (now apply lookup_lt_Some in Hds).
        now eexists.
      * rewrite list_lookup_insert_ne by assumption. now exists dsrc.
    + rewrite Forall_forall. intros y Hy. apply list_elem_of_In in Hy.
      split.
      * apply In_insert in Hy as [-> | Hy].
        -- cbn [with_src_sink src_severity_histogram].
           rewrite Forall_forall in Hall2. rewrite Es2 in Hall2.
           apply (Hall2 cur). now apply (list_elem_of_lookup_2 _ h).
        -- rewrite Forall_forall in Hall2. rewrite Es2 in Hall2.
           apply (Hall2 y). now apply list_elem_of_In.
      * destruct (src_sink y) as [b|] eqn:Hb; [| exact I].
        cbn [sink_ref_ok]. state_cbn. now apply (Hvalid y).
    + now rewrite Ee3.
  - now apply (registry_ok_frame s3).
  - apply refcounts_cover_at; state_cbn; [apply Hok3 | exact Hcov].
Qed.

Lemma break_inv (k : M unit) (s s' : state) :
  QD_ERROR_BREAK k s = Ret tt s' -> s' = s \/ k s = Ret tt s'.
Proof.
  unfold QD_ERROR_BREAK, bind, qd_error_code.
  destruct (error_code_of (qd_error_slot s)); intros E.
  - now right.
  - injection E as <-. now left.
Qed.

Lemma sound_entity (entity : qd_entity_t) (fopen_ok : bool)
    (code : qd_error_t) (s s' : state) :
  sound s -> qd_log_entity entity fopen_ok s = Ret code s' -> sound s'.
Proof.
  intros Hsound E. rewrite qd_log_entity_fields in E.
  apply bind_inv in E as (u0 & s0 & E0 & E).
  injection E0 as _ <-.
  assert (Hsound0 : sound (with_qd_error_slot None s)).
  { exact (sound_settings_step 0 _ _ Hsound (error_only_settings 0 None s)). }
  apply bind_inv in E as (u1 & s1 & E1 & E).
  injection E as _ <-. rewrite (unit_eta u1) in E1.
  apply break_inv in E1 as [-> | E1]; [exact Hsound0 |].
  apply bind_inv in E1 as (h & sa & Esrc & E1).
  destruct (sound_source _ _ _ _ Hsound0 Esrc) as (Hsa & [cur Hcur]).
  destruct (ent_output entity) as [output|].
  2:{ exact (sound_settings_step h _ _ Hsa
               (entity_fields_settings entity h _ _ E1)). }
  apply break_inv in E1 as [-> | E1]; [exact Hsa |].
  apply bind_inv in E1 as (sink & s2 & Eacq & E1).
  apply break_inv in E1 as [-> | E1].
  { destruct (sound_acquire _ _ _ _ _ Hsa Eacq) as (Es2 & Hwf2 & Hok2 & I1).
    split; [exact Hwf2 |]. split; [exact Hok2 |].
    apply refcounts_cover_at; [apply Hok2 |].
    intros b y Hy. specialize (I1 b y Hy). rewrite Es2.
    destruct (bool_decide (sink = Some b)); lia. }
  apply bind_inv in E1 as (cur' & s2' & Eload & E1).
  assert (Hs2 : source_list s2 = source_list sa)
    by (apply (sound_acquire _ _ _ _ _ Hsa Eacq)).
  assert (Hcur2 : source_list s2 !! h = Some cur) by (now rewrite Hs2).
  rewrite (load_source_eq _ _ _ Hcur2) in Eload. injection Eload as <- <-.
  apply bind_inv in E1 as (u3 & s3 & Efree & E1).
  rewrite (unit_eta u3) in Efree.
  apply bind_inv in E1 as (u4 & s4 & Estore & E1).
  apply bind_inv in E1 as (sg & s4' & Eget & E1).
  injection Eget as <- <-.
  apply bind_inv in E1 as (a & s4' & Ederef & E1).
  destruct sink as [a'|]; [| discriminate].
  injection Ederef as <- <-.
  destruct (sound_rebind output fopen_ok h a' cur sa s2 s3 Hsa Hcur Eacq Efree)
    as (Es3 & Hsound4).
  assert (Hcur3 : source_list s3 !! h = Some cur) by (now rewrite Es3).
  rewrite (store_source_eq _ _ _ _ Hcur3) in Estore.
  injection Estore as _ <-.
  apply bind_inv in E1 as (sk & s4' & Esk & E1).
  destruct (sink_at _ a') as [sk'|]; [| discriminate].
  injection Esk as <- <-.
  apply bind_inv in E1 as (u5 & s5 & Ets & E1).
  rewrite (unit_eta u5) in Ets.
  assert (H5 : settings_step h
                 (with_source_list
                    (<[h := with_src_sink (Some a') cur]> (source_list s3)) s3)
                 s5).
  { destruct (sink_syslog sk').
    - apply (store_settings h _ _ _) in Ets; [exact Ets |]. now intros x.
    - injection Ets as <-. apply settings_step_refl. }
  exact (sound_settings_step h _ _
           (sound_settings_step h _ _ Hsound4 H5)
           (entity_fields_settings entity h _ _ E1)).
Qed.

(** X23.  The reference counting is sound throughout the interface.
    Initialisation ends in a state that is well formed, whose registry is
    in order and where every sink counts at least the sources that hold
    it; creating or looking up a source, resetting a source, emitting, and
    every administrative update that returns - whatever its fields, and
    whether it succeeds or fails - lead from such a state to such a
    state. *)
Theorem reference_counts_stay_sound :
  (exists s0, qd_log_initialize initial_state = Ret tt s0 /\ sound s0) /\
  (forall s module h s',
     sound s -> qd_log_source module s = Ret h s' -> sound s') /\
  (forall s module h s',
     sound s -> qd_log_source_reset module s = Ret h s' -> sound s') /\
  (forall s h level file line text env s',
     sound s -> is_Some (source_list s !! h) ->
     final_state (qd_vlog_impl (Some h) level file line text env s)
     = Some s' ->
     sound s') /\
  (forall s entity fopen_ok code s',
     sound s -> qd_log_entity entity fopen_ok s = Ret code s' -> sound s').
Proof.
  split; [| split; [| split; [| split]]].
  - exists (run qd_log_initialize initial_state). split.
    + vm_compute. reflexivity.
    + apply (bool_decide_unpack _). vm_compute. exact I.
  - intros s module h s' Hs E.
    exact (proj1 (sound_source module s s' h Hs E)).
  - intros s module h s'. apply sound_reset.
  - intros s h level file line text env s'. apply sound_emit.
  - intros s entity fopen_ok code s'. apply sound_entity.
Qed.

(** ** Resetting the default source *)

(** X24.  A reset of the default source turns every filter off that relies
    on it: the default mask becomes -1, the "not set" value, which as a mask
    has every bit set, so afterwards the default source itself and every
    source without a mask of its own let every non-zero level through,
    TRACE and DEBUG included. *)
Theorem reset_of_default_enables_every_level (s : state) (h : nat)
    (src : qd_log_source_t) (level : Z) :
  wf_state s -> source_list s !! h = Some src ->
  src_mask src = (-1)%Z \/ default_log_source s = Some h ->
  level <> 0%Z ->
  exists d s' dsrc',
    qd_log_source_reset SOURCE_DEFAULT s = Ret d s' /\
    default_log_source s' = Some d /\
    source_list s' !! d = Some dsrc' /\ src_mask dsrc' = (-1)%Z /\
    qd_log_enabled (Some h) level s' = Ret true s'.
Proof.
  intros Hwf Hs Hmask Hlevel. destruct (wf_default _ Hwf) as (dsrc & Hd & _).
  apply default_source_eq in Hd as (d & Hd & Hds).
  assert (E1 : qd_log_source_lh SOURCE_DEFAULT s = Ret d s).
  { unfold qd_log_source_lh, bind, lookup_log_source_lh.
    change (strcasecmp SOURCE_DEFAULT SOURCE_DEFAULT =? 0)%Z with true.
    cbv iota. now rewrite Hd. }
  unfold qd_log_source_reset. rewrite (bind_ret _ _ _ _ _ E1).
  unfold bind at 1. rewrite (store_source_eq _ _ _ _ Hds). unfold ret at 1.
  set (s' := with_source_list
               (<[d := qd_log_source_defaults dsrc]> (source_list s)) s).
  assert (Hds' : source_list s' !! d = Some (qd_log_source_defaults dsrc)).
  { subst s'. state_cbn. apply list_lookup_insert_eq.
    now apply lookup_lt_Some in Hds. }
  assert (Hd' : default_source s' = Some (qd_log_source_defaults dsrc)).
  { unfold default_source. subst s'. state_cbn. rewrite Hd. exact Hds'. }
  exists d, s', (qd_log_source_defaults dsrc).
  split; [reflexivity |]. split; [exact Hd |]. split; [exact Hds' |].
  split; [reflexivity |].
  assert (Hs' : exists src', source_list s' !! h = Some src' /\
                             src_mask src' = (-1)%Z).
  { destruct (decide (h = d)) as [-> | Hne].
    - now exists (qd_log_source_defaults dsrc).
    - exists src. subst s'. state_cbn.
      rewrite list_lookup_insert_ne by congruence. split; [exact Hs |].
      destruct Hmask as [Hm | Hm]; [exact Hm | congruence]. }
  destruct Hs' as (src' & Hs' & Hm').
  rewrite (qd_log_enabled_eq h level src' _ s' Hs' Hd'). f_equal.
  unfold passes_filter, effective_mask, resolve, tri_state.
  rewrite Hm'. cbn [qd_log_source_defaults src_mask Z.eqb].
  change (-1 =? -1)%Z with true. cbv iota.
  rewrite Z.land_m1_r. apply negb_true_iff. now apply Z.eqb_neq.
Qed.

End Properties.


(** ** The theorems at concrete inputs *)

Lemma wf_booted : wf_state booted.
Proof. apply (bool_decide_unpack _). vm_compute. exact I. Qed.

Lemma histogram_counts_every_emit_witness :
  (wf_state booted /\ source_list booted !! 1%nat = Some booted_logging /\
   default_source booted = Some booted_default /\
   valid_level QD_LOG_TRACE /\
   effective_mask booted_logging booted_default = lvl_mask (levels_at INFO) /\
   length five_traces = 5%nat)
  /\
  (exists s' src',
     final_state
       (qd_vlog_impl (pf := reference_platform) (Some 1%nat) QD_LOG_TRACE None
          0 "trace event" sample_env booted) = Some s' /\
     source_list s' !! 1%nat = Some src' /\
     src_severity_histogram src' = [1; 0; 0; 0; 0; 0; 0]%Z)
  /\
  (exists s' src',
     emit_all (pf := reference_platform) five_traces booted = Ret tt s' /\
     source_list s' !! 1%nat = Some src' /\
     src_severity_histogram src' !! 0%nat = Some 5%Z /\
     entries s' = [] /\ io_trace s' = []).
Proof.
  assert (Hwf : wf_state booted) by exact wf_booted.
  assert (Hs : source_list booted !! 1%nat = Some booted_logging)
    by reflexivity.
  assert (Hd : default_source booted = Some booted_default) by reflexivity.
  assert (Hv : valid_level QD_LOG_TRACE) by (now left).
  assert (Hm : effective_mask booted_logging booted_default
               = lvl_mask (levels_at INFO)) by reflexivity.
  assert (Hn : length five_traces = 5%nat) by reflexivity.
  destruct (histogram_counts_every_emit (pf := reference_platform) booted 1
              booted_logging booted_default QD_LOG_TRACE None 0 "trace event"
              sample_env five_traces Hwf Hs Hd) as (P1 & P2).
  split; [exact (conj Hwf (conj Hs (conj Hd (conj Hv (conj Hm Hn))))) |].
  split.
  - destruct (P1 Hv) as (s' & src' & E & Hs' & Hh & _).
    exists s', src'. split; [exact E |]. split; [exact Hs' |]. exact Hh.
  - apply P2; [exact Hm | exact Hn |].
    repeat constructor.
Defined.

Lemma history_never_exceeds_capacity_witness :
  (wf_state booted /\ source_list booted !! 0%nat = Some booted_default /\
   default_source booted = Some booted_default /\
   entries booted = [] /\ length numbered_calls = S LIST_MAX /\
   forallb (fun c => call_passes booted c && env_fputs_ok (call_env c))
     numbered_calls = true)
  /\
  (exists s',
     final_state
       (emit (pf := reference_platform) (sample_call 0 QD_LOG_INFO "m1")
          booted) = Some s' /\
     (length (entries s') <= LIST_MAX)%nat)
  /\
  (exists s' emitted,
     emit_all (pf := reference_platform) numbered_calls booted = Ret tt s' /\
     Forall2
       (fun c e => call_entry (pf := reference_platform) booted c = Some e)
       numbered_calls emitted /\
     length (entries s') = LIST_MAX /\
     entries s' = tail emitted /\
     option_map entry_text (head emitted) = Some "0" /\
     ~ In "0" (map entry_text (entries s'))).
Proof.
  assert (Hwf : wf_state booted) by exact wf_booted.
  assert (Hs : source_list booted !! 0%nat = Some booted_default)
    by reflexivity.
  assert (Hd : default_source booted = Some booted_default) by reflexivity.
  assert (He : entries booted = []) by reflexivity.
  assert (Hn : length numbered_calls = S LIST_MAX) by (vm_compute; reflexivity).
  assert (Hp : forallb
                 (fun c => call_passes booted c && env_fputs_ok (call_env c))
                 numbered_calls = true) by (vm_compute; reflexivity).
  destruct (history_never_exceeds_capacity (pf := reference_platform) booted
              (sample_call 0 QD_LOG_INFO "m1") booted_default booted_default
              numbered_calls Hwf) as (P1 & P2).
  split; [exact (conj Hwf (conj Hs (conj Hd (conj He (conj Hn Hp))))) |].
  split.
  - destruct (P1 Hs Hd) as (s' & E & Hlen & _).
    exists s'. split; [exact E | exact Hlen].
  - destruct (P2 He Hn Hp) as (s' & emitted & E & Hem & Hlen & Ht & _).
    exists s', emitted. split; [exact E |]. split; [exact Hem |].
    split; [exact Hlen |]. split; [exact Ht |].
    assert (H0 : Forall
                   (fun c => source_list booted !! call_source c
                             = Some booted_default) numbered_calls).
    { apply Forall_forall. intros c Hc. apply list_elem_of_In in Hc.
      apply in_map_iff in Hc as (i & <- & _). reflexivity. }
    rewrite Ht, (call_entries_of _ _ _ _ H0 Hem). split.
    + vm_compute. reflexivity.
    + rewrite tail_map, map_map, <- list_elem_of_In.
      apply (bool_decide_unpack _). vm_compute. exact I.
Defined.

(** C3, the claim as stated fails: with limit 0 and one entry in the
    history the query returns the empty list, not all available entries. *)
Lemma recent_zero_returns_nothing :
  qd_log_recent_py false 0 logged_once = Ret (Some []) logged_once /\
  qd_log_recent_py false 0 logged_once
  <> Ret (Some (map py_entry_of (entries logged_once))) logged_once.
Proof.
  split; [reflexivity |]. vm_compute. discriminate.
Qed.

Lemma invalid_enable_overwrites_mask_witness :
  (lookup_log_source_lh "ROUTER" router_info = Ret (Some 2%nat) router_info /\
   source_list router_info !! 2%nat
   = Some (mk_source "ROUTER" 4 (-1) (-1) false None
             (replicate N_LEVEL_INDICES 0%Z)) /\
   first_unrecognized "bogus" = Some "bogus")
  /\
  (exists s',
     qd_log_entity (pf := reference_platform)
       (mk_entity "ROUTER" None (Some "bogus") None None) false router_info
     = Ret QD_ERROR_CONFIG s' /\
     qd_error_slot s'
     = Some (QD_ERROR_CONFIG,
             "'bogus' is not a valid log level. Should be one of {none, trace, debug, info, notice, warning, error, critical}.") /\
     option_map src_mask (source_list s' !! 2%nat) = Some (-1)%Z /\
     option_map src_mask (source_list router_info !! 2%nat) = Some 4%Z).
Proof.
  assert (Hl : lookup_log_source_lh "ROUTER" router_info
               = Ret (Some 2%nat) router_info) by reflexivity.
  assert (Hs : source_list router_info !! 2%nat
               = Some (mk_source "ROUTER" 4 (-1) (-1) false None
                         (replicate N_LEVEL_INDICES 0%Z))) by reflexivity.
  assert (Ht : first_unrecognized "bogus" = Some "bogus") by reflexivity.
  split; [exact (conj Hl (conj Hs Ht)) |].
  destruct (invalid_enable_overwrites_mask (pf := reference_platform)
              router_info "ROUTER" "bogus" None None false 2 _ "bogus"
              Hl Hs Ht) as (s' & E & He & Hm).
  exists s'. split; [exact E |]. split; [exact He |].
  split; [now rewrite Hm | reflexivity].
Defined.

Lemma emit_uses_effective_settings_witness :
  (wf_state booted /\ source_list booted !! 1%nat = Some booted_logging /\
   default_source booted = Some booted_default /\
   Z.land QD_LOG_TRACE 124 = 0%Z /\ Z.land QD_LOG_INFO 124 <> 0%Z /\
   env_fputs_ok sample_env = true /\
   sink_at (sink_list booted) 0 = Some stderr_sink)
  /\
  (exists s',
     qd_vlog_impl (pf := reference_platform) (Some 1%nat) QD_LOG_TRACE
       (Some "router.c") 42 "quiet" sample_env booted = Ret tt s' /\
     entries s' = entries booted /\ io_trace s' = io_trace booted)
  /\
  (exists s',
     qd_vlog_impl (pf := reference_platform) (Some 1%nat) QD_LOG_INFO
       (Some "router.c") 42 "loud" sample_env booted = Ret tt s' /\
     io_trace s'
     = [ ev_fputs stderr
           ("2023-11-14 22:13:20.000 +0000 LOGGING (info) loud"
            +++ String "010" EmptyString);
         ev_fflush stderr ])
  /\
  (wf_state default_trace /\
   source_list default_trace !! 1%nat = Some booted_logging /\
   default_source default_trace
   = Some (mk_source "DEFAULT" 127 1 0 false (Some 0%nat)
             (replicate N_LEVEL_INDICES 0%Z)) /\
   qd_log_enabled (Some 1%nat) QD_LOG_TRACE booted = Ret false booted /\
   qd_log_enabled (Some 1%nat) QD_LOG_TRACE default_trace
   = Ret true default_trace).
Proof.
  assert (Hwf : wf_state booted) by exact wf_booted.
  assert (Hs : source_list booted !! 1%nat = Some booted_logging)
    by reflexivity.
  assert (Hd : default_source booted = Some booted_default) by reflexivity.
  assert (Hz : Z.land QD_LOG_TRACE 124 = 0%Z) by reflexivity.
  assert (Hnz : Z.land QD_LOG_INFO 124 <> 0%Z) by (vm_compute; discriminate).
  assert (Hok : env_fputs_ok sample_env = true) by reflexivity.
  assert (Hk : sink_at (sink_list booted) 0 = Some stderr_sink)
    by reflexivity.
  split; [exact (conj Hwf (conj Hs (conj Hd (conj Hz (conj Hnz
                   (conj Hok Hk)))))) |].
  split; [| split].
  - destruct (emit_uses_effective_settings (pf := reference_platform) booted
                1 booted_logging booted_default QD_LOG_TRACE (Some "router.c")
                42 "quiet" sample_env Hwf Hs Hd) as (_ & P & _).
    exact (P Hz).
  - destruct (emit_uses_effective_settings (pf := reference_platform) booted
                1 booted_logging booted_default QD_LOG_INFO (Some "router.c")
                42 "loud" sample_env Hwf Hs Hd) as (_ & _ & P).
    exact (P Hnz Hok 0%nat stderr_sink eq_refl Hk).
  - assert (Hwf' : wf_state default_trace).
    { apply (bool_decide_unpack _). vm_compute. exact I. }
    assert (Hs' : source_list default_trace !! 1%nat = Some booted_logging)
      by reflexivity.
    assert (Hd' : default_source default_trace
                  = Some (mk_source "DEFAULT" 127 1 0 false (Some 0%nat)
                            (replicate N_LEVEL_INDICES 0%Z))) by reflexivity.
    split; [exact Hwf' |]. split; [exact Hs' |]. split; [exact Hd' |].
    split.
    + exact (proj1 (emit_uses_effective_settings (pf := reference_platform)
                      booted 1 booted_logging booted_default QD_LOG_TRACE
                      None 0 "" sample_env Hwf Hs Hd)).
    + exact (proj1 (emit_uses_effective_settings (pf := reference_platform)
                      default_trace 1 booted_logging _ QD_LOG_TRACE
                      None 0 "" sample_env Hwf' Hs' Hd')).
Defined.

Lemma enable_mask_spec_witness :
  (all_delims SEPARATORS " " = true /\ tokens_ok sample_tokens)
  /\ enable_mask " Info+, DEBUG" booted = Ret 126%Z booted.
Proof.
  assert (Hl : all_delims SEPARATORS " " = true) by reflexivity.
  assert (Ht : tokens_ok sample_tokens).
  { assert (Hok : forall t, In t sample_tokens -> token_ok t).
    { intros t [<- | [<- | []]];
        (split; [unfold NONE, INFO, DEBUG, CRITICAL; simpl; lia |
                 split; reflexivity]). }
    split; [apply Hok; now left |].
    split; [intros _; discriminate |].
    split; [apply Hok; right; now left |].
    split; [intros H; now elim H | exact I]. }
  split; [exact (conj Hl Ht) |].
  exact (proj1 (enable_mask_spec " " sample_tokens booted Hl Ht)).
Defined.

Lemma release_closes_standard_output_witness :
  (registry_ok router_stdout /\
   sink_at (sink_list router_stdout) 1 = Some stdout_sink /\
   sink_refcount stdout_sink = 1%Z /\
   sink_opens (sink_name stdout_sink) false = true /\
   sink_name stdout_sink = SINK_STDOUT /\
   sink_file stdout_sink = Some stdout /\ is_stderr stdout = false)
  /\
  (exists s',
     log_sink_free_lh (Some 1%nat) router_stdout = Ret tt s' /\
     sink_at (sink_list s') 1 = None /\
     io_trace s' = [ev_fclose stdout] /\
     stream_closed stdout (io_trace s') = true /\
     exists a' s'' fresh,
       log_sink_lh (pf := reference_platform) "stdout" false s'
       = Ret (Some a') s'' /\
       sink_at (sink_list s'') a' = Some fresh /\
       sink_refcount fresh = 1%Z /\ sink_name fresh = "stdout" /\
       sink_file fresh = Some stdout /\
       io_trace s'' = [ev_fclose stdout] /\
       stream_closed stdout (io_trace s'') = true)
  /\
  (io_trace router_back_on_stderr = [ev_fclose stdout] /\
   source_list router_stdout_again !! 2%nat
   = Some (mk_source "ROUTER" (-1) (-1) (-1) false (Some 2%nat)
             (replicate N_LEVEL_INDICES 0%Z)) /\
   sink_at (sink_list router_stdout_again) 2 = Some stdout_sink /\
   io_trace router_stdout_again = [ev_fclose stdout] /\
   exists s3 line,
     qd_vlog_impl (pf := reference_platform) (Some 2%nat) QD_LOG_INFO None 0
       "after close" sample_env router_stdout_again = Ret tt s3 /\
     io_trace s3
     = [ev_fclose stdout; ev_fputs stdout line; ev_fflush stdout]).
Proof.
  assert (Hr : registry_ok router_stdout).
  { apply (bool_decide_unpack _). vm_compute. exact I. }
  assert (Hk : sink_at (sink_list router_stdout) 1 = Some stdout_sink)
    by reflexivity.
  assert (Hc : sink_refcount stdout_sink = 1%Z) by reflexivity.
  assert (Ho : sink_opens (sink_name stdout_sink) false = true)
    by reflexivity.
  assert (Hn : sink_name stdout_sink = SINK_STDOUT) by reflexivity.
  assert (Hf : sink_file stdout_sink = Some stdout) by reflexivity.
  assert (He : is_stderr stdout = false) by reflexivity.
  split; [exact (conj Hr (conj Hk (conj Hc (conj Ho (conj Hn
                   (conj Hf He)))))) |].
  split.
  - destruct (release_closes_standard_output (pf := reference_platform)
                router_stdout 1 stdout_sink false Hr Hk) as (_ & P).
    destruct (P Hc) as (s' & E & _ & Hg & _ & Hi & _ & Hcl & Hre).
    destruct (Hcl stdout Hf He) as (_ & Hclosed).
    destruct (Hre Ho) as (a' & s'' & fresh & E' & Hat & Hrc & Hname & Hstd).
    destruct (Hstd Hn Hf) as (Hfile & Hi' & Hclosed').
    exists s'. split; [exact E |]. split; [exact Hg |].
    split; [exact Hi |]. split; [exact Hclosed |].
    exists a', s'', fresh. split; [exact E' |]. split; [exact Hat |].
    split; [exact Hrc |]. split; [exact Hname |]. split; [exact Hfile |].
    split; [now rewrite Hi' | exact Hclosed'].
  - split; [reflexivity |]. split; [reflexivity |]. split; [reflexivity |].
    split; [reflexivity |].
    eexists _, _. split; vm_compute; reflexivity.
Defined.

Lemma wf_router_stdout : wf_state router_stdout.
Proof. apply (bool_decide_unpack _). vm_compute. exact I. Qed.

Lemma reset_drops_sink_without_release_witness :
  (wf_state router_stdout /\
   option_map src_sink (source_list router_stdout !! 2%nat)
   = Some (Some 1%nat) /\
   sink_at (sink_list router_stdout) 1 = Some stdout_sink)
  /\
  (exists h s' src',
     qd_log_source_reset "ROUTER" router_stdout = Ret h s' /\
     source_list s' !! h = Some src' /\
     src_sink src' = None /\
     sink_at (sink_list s') 1 = Some stdout_sink /\
     io_trace s' = []).
Proof.
  assert (Hwf : wf_state router_stdout) by exact wf_router_stdout.
  split; [exact (conj Hwf (conj eq_refl eq_refl)) |].
  destruct (reset_drops_sink_without_release router_stdout "ROUTER" Hwf)
    as (h & s' & src' & E & Hs & _ & _ & _ & Hk & _ & _ & _ & Hl & Hi).
  exists h, s', src'. split; [exact E |]. split; [exact Hs |].
  split; [exact Hk |]. split; [now rewrite Hl | exact Hi].
Defined.

Lemma wf_router_file : wf_state router_file.
Proof. apply (bool_decide_unpack _). vm_compute. exact I. Qed.

Lemma flush_failure_is_not_fatal_witness :
  (wf_state router_file /\
   source_list router_file !! 2%nat = Some router_file_source /\
   default_source router_file = Some booted_default /\
   (passes_filter QD_LOG_INFO router_file_source booted_default = true /\
    effective_sink router_file_source booted_default = Some 1%nat /\
    sink_at (sink_list router_file) 1 = Some router_file_sink /\
    sink_file router_file_sink = Some (fopened "/var/log/router.log")) /\
   env_fputs_ok flush_failing_env = true /\
   env_fflush_ok flush_failing_env = false /\
   valid_level QD_LOG_INFO)
  /\
  (exists s',
     qd_vlog_impl (pf := reference_platform) (Some 2%nat) QD_LOG_INFO None 0
       "lost" flush_failing_env router_file = Ret tt s' /\
     In (ev_fflush (fopened "/var/log/router.log")) (io_trace s') /\
     entries s'
     = [entry_of (pf := reference_platform) router_file_source QD_LOG_INFO
          None 0 "lost" flush_failing_env])
  /\
  (exists s',
     qd_vlog_impl (pf := reference_platform) (Some 2%nat) QD_LOG_INFO None 0
       "lost" failing_env router_file = Exit 1 s')
  /\
  qd_vlog_impl (pf := reference_platform) None QD_LOG_INFO None 0 "lost"
    sample_env router_file = Fault.
Proof.
  assert (Hwf : wf_state router_file) by exact wf_router_file.
  assert (Hs : source_list router_file !! 2%nat = Some router_file_source)
    by reflexivity.
  assert (Hd : default_source router_file = Some booted_default)
    by reflexivity.
  assert (Ht : passes_filter QD_LOG_INFO router_file_source booted_default
               = true /\
               effective_sink router_file_source booted_default = Some 1%nat /\
               sink_at (sink_list router_file) 1 = Some router_file_sink /\
               sink_file router_file_sink
               = Some (fopened "/var/log/router.log"))
    by (repeat split).
  assert (Hok : env_fputs_ok flush_failing_env = true) by reflexivity.
  assert (Hfl : env_fflush_ok flush_failing_env = false) by reflexivity.
  assert (Hv : valid_level QD_LOG_INFO) by (do 2 right; now left).
  split; [exact (conj Hwf (conj Hs (conj Hd (conj Ht (conj Hok
                   (conj Hfl Hv)))))) |].
  split; [| split].
  - destruct (flush_failure_is_not_fatal (pf := reference_platform)
                router_file 2 router_file_source booted_default QD_LOG_INFO
                None 0 "lost" flush_failing_env Hwf Hs Hd) as (_ & _ & P & _).
    destruct (P 1%nat router_file_sink (fopened "/var/log/router.log") Ht Hok
                Hfl) as (s' & E & _ & Hin & He).
    exists s'. split; [exact E |]. split; [exact Hin | exact He].
  - destruct (flush_failure_is_not_fatal (pf := reference_platform)
                router_file 2 router_file_source booted_default QD_LOG_INFO
                None 0 "lost" failing_env Hwf Hs Hd) as (_ & P & _).
    destruct (proj2 P) as (code & s' & E).
    { split; [reflexivity |].
      now exists 1%nat, router_file_sink, (fopened "/var/log/router.log"). }
    exists s'. rewrite E. f_equal.
    destruct (flush_failure_is_not_fatal (pf := reference_platform)
                router_file 2 router_file_source booted_default QD_LOG_INFO
                None 0 "lost" failing_env Hwf Hs Hd)
      as ((s2 & [E2 | E2] & _) & _); rewrite E in E2; congruence.
  - exact (proj2 (proj2 (proj2
             (flush_failure_is_not_fatal (pf := reference_platform)
                router_file 2 router_file_source booted_default QD_LOG_INFO
                None 0 "lost" sample_env Hwf Hs Hd))) Hv).
Defined.

Lemma wf_default_reset : wf_state default_reset.
Proof. apply (bool_decide_unpack _). vm_compute. exact I. Qed.

Lemma unsinked_emission_is_recorded_witness :
  (wf_state default_reset /\
   source_list default_reset !! 1%nat = Some booted_logging /\
   default_source default_reset
   = Some (mk_source "DEFAULT" (-1) (-1) (-1) false None
             (replicate N_LEVEL_INDICES 0%Z)) /\
   passes_filter QD_LOG_TRACE booted_logging
     (mk_source "DEFAULT" (-1) (-1) (-1) false None
        (replicate N_LEVEL_INDICES 0%Z)) = true)
  /\
  (exists s',
     qd_vlog_impl (pf := reference_platform) (Some 1%nat) QD_LOG_TRACE None 0
       "unseen" sample_env default_reset = Ret tt s' /\
     io_trace s' = [] /\
     qd_log_recent_py false 1 s'
     = Ret (Some [[ PyString "LOGGING"; PyString "none"; PyString "unseen";
                    Py_None; Py_None; PyLong 1700000000 ]]) s').
Proof.
  assert (Hwf : wf_state default_reset) by exact wf_default_reset.
  assert (Hs : source_list default_reset !! 1%nat = Some booted_logging)
    by reflexivity.
  assert (Hd : default_source default_reset
               = Some (mk_source "DEFAULT" (-1) (-1) (-1) false None
                         (replicate N_LEVEL_INDICES 0%Z))) by reflexivity.
  assert (Hp : passes_filter QD_LOG_TRACE booted_logging
                 (mk_source "DEFAULT" (-1) (-1) (-1) false None
                    (replicate N_LEVEL_INDICES 0%Z)) = true) by reflexivity.
  split; [exact (conj Hwf (conj Hs (conj Hd Hp))) |].
  destruct (unsinked_emission_is_recorded (pf := reference_platform)
              default_reset 1 booted_logging _ QD_LOG_TRACE None 0 "unseen"
              sample_env Hwf Hs Hd eq_refl eq_refl Hp)
    as (s' & E & Hi & _ & _ & Hq & _).
  exists s'. split; [exact E |]. split; [exact Hi | exact Hq].
Defined.

(** ** Further properties at concrete inputs *)

Lemma registry_booted : registry_ok booted.
Proof. apply (bool_decide_unpack _). vm_compute. exact I. Qed.

Lemma sample_tokens_ok : tokens_ok sample_tokens.
Proof.
  assert (Hok : forall t, In t sample_tokens -> token_ok t).
  { intros t [<- | [<- | []]];
      (split; [unfold NONE, INFO, DEBUG, CRITICAL; simpl; lia |
               split; reflexivity]). }
  split; [apply Hok; now left |].
  split; [intros _; discriminate |].
  split; [apply Hok; right; now left |].
  split; [intros H; now elim H | exact I].
Qed.

Lemma swapped_tokens_ok : tokens_ok swapped_tokens.
Proof.
  assert (Hok : forall t, In t swapped_tokens -> token_ok t).
  { intros t [<- | [<- | []]];
      (split; [unfold NONE, INFO, DEBUG, CRITICAL; simpl; lia |
               split; reflexivity]). }
  split; [apply Hok; now left |].
  split; [intros _; discriminate |].
  split; [apply Hok; right; now left |].
  split; [intros H; now elim H | exact I].
Qed.

Lemma level_for_name_resolves_abbreviations_witness :
  ((3 <= strlen "Inf+")%nat /\ no_nul (String.substring 0 3 "Inf+") = true)
  /\ level_for_name "Inf+" 3 booted = Ret (Some (levels_at INFO)) booted.
Proof.
  assert (H1 : (3 <= strlen "Inf+")%nat) by (simpl; lia).
  assert (H2 : no_nul (String.substring 0 3 "Inf+") = true) by reflexivity.
  split; [exact (conj H1 H2) |].
  exact (level_for_name_resolves_abbreviations "Inf+" 3 booted H1 H2).
Defined.

Lemma mask_thresholds_witness :
  (source_list booted !! 0%nat = Some booted_default /\
   (TRACE <= INFO <= CRITICAL)%nat /\ (TRACE <= WARNING <= CRITICAL)%nat /\
   src_mask booted_default = lvl_mask (levels_at INFO))
  /\ qd_log_enabled (Some 0%nat) QD_LOG_WARNING booted = Ret true booted.
Proof.
  assert (Hs : source_list booted !! 0%nat = Some booted_default)
    by reflexivity.
  assert (Hi : (TRACE <= INFO <= CRITICAL)%nat)
    by (unfold TRACE, INFO, CRITICAL; lia).
  assert (Hj : (TRACE <= WARNING <= CRITICAL)%nat)
    by (unfold TRACE, WARNING, CRITICAL; lia).
  assert (Hm : src_mask booted_default = lvl_mask (levels_at INFO))
    by reflexivity.
  split; [exact (conj Hs (conj Hi (conj Hj Hm))) |].
  exact (proj1 (mask_thresholds booted 0 booted_default INFO WARNING Hs Hi Hj)
           Hm).
Defined.

Lemma enable_mask_of_names_in_range_witness :
  (all_delims SEPARATORS " " = true /\ tokens_ok sample_tokens)
  /\
  (exists m,
     enable_mask " Info+, DEBUG" booted = Ret m booted /\
     (0 <= m <= ALL_BITS)%Z /\ m <> (-1)%Z).
Proof.
  assert (Hl : all_delims SEPARATORS " " = true) by reflexivity.
  split; [exact (conj Hl sample_tokens_ok) |].
  exact (enable_mask_of_names_in_range " " sample_tokens booted Hl
           sample_tokens_ok).
Defined.

Lemma enable_mask_ignores_order_witness :
  (all_delims SEPARATORS " " = true /\ tokens_ok sample_tokens /\
   all_delims SEPARATORS "" = true /\ tokens_ok swapped_tokens /\
   (forall x, In x (map contribution sample_tokens)
              <-> In x (map contribution swapped_tokens)))
  /\ enable_mask " Info+, DEBUG" booted = enable_mask "debug;INFO+" booted.
Proof.
  assert (Hl : all_delims SEPARATORS " " = true) by reflexivity.
  assert (Hl' : all_delims SEPARATORS "" = true) by reflexivity.
  assert (Hsame : forall x, In x (map contribution sample_tokens)
                            <-> In x (map contribution swapped_tokens)).
  { intros x. vm_compute. tauto. }
  split; [exact (conj Hl (conj sample_tokens_ok
                                (conj Hl' (conj swapped_tokens_ok Hsame)))) |].
  exact (enable_mask_ignores_order " " "" sample_tokens swapped_tokens booted
           Hl sample_tokens_ok Hl' swapped_tokens_ok Hsame).
Defined.

Lemma qd_log_source_is_idempotent_witness :
  (wf_state booted /\ lower "router" = lower "ROUTER")
  /\
  (exists h s1,
     qd_log_source "router" booted = Ret h s1 /\
     qd_log_source "ROUTER" s1 = Ret h s1 /\
     (forall j x, source_list booted !! j = Some x ->
                  source_list s1 !! j = Some x)).
Proof.
  assert (He : lower "router" = lower "ROUTER") by reflexivity.
  split; [exact (conj wf_booted He) |].
  exact (qd_log_source_is_idempotent booted
           "router" "ROUTER" wf_booted He).
Defined.

Lemma acquire_shares_registered_sink_witness :
  (registry_ok booted /\ find_sink (sink_list booted) "stderr" = Some 0%nat /\
   (forall sk, sink_at (sink_list booted) 0 = Some sk ->
               sink_refcount sk <> INT_MAX))
  /\
  (exists sk s',
     sink_at (sink_list booted) 0 = Some sk /\
     log_sink_lh (pf := reference_platform) "stderr" false booted
     = Ret (Some 0%nat) s' /\
     sink_at (sink_list s') 0
     = Some (with_refcount (sink_refcount sk + 1) sk) /\
     (forall b, b <> 0%nat ->
                sink_at (sink_list s') b = sink_at (sink_list booted) b) /\
     length (sink_list s') = length (sink_list booted) /\
     io_trace s' = io_trace booted /\
     qd_error_slot s' = qd_error_slot booted).
Proof.
  assert (Hf : find_sink (sink_list booted) "stderr" = Some 0%nat)
    by reflexivity.
  assert (Hmax : forall sk, sink_at (sink_list booted) 0 = Some sk ->
                            sink_refcount sk <> INT_MAX).
  { intros sk H. change (Some stderr_sink = Some sk) in H.
    injection H as <-. discriminate. }
  split; [exact (conj registry_booted (conj Hf Hmax)) |].
  exact (acquire_shares_registered_sink (pf := reference_platform) booted
           "stderr" false 0 registry_booted Hf Hmax).
Defined.

Lemma acquire_release_round_trip_witness :
  (registry_ok booted /\
   log_sink_lh (pf := reference_platform) "stdout" false booted
   = Ret (Some 1%nat) stdout_acquired)
  /\
  (exists s2,
     log_sink_free_lh (Some 1%nat) stdout_acquired = Ret tt s2 /\
     sink_list s2 = sink_list booted).
Proof.
  assert (E : log_sink_lh (pf := reference_platform) "stdout" false booted
              = Ret (Some 1%nat) stdout_acquired) by reflexivity.
  split; [exact (conj registry_booted E) |].
  exact (acquire_release_round_trip (pf := reference_platform) booted
           stdout_acquired "stdout" false 1 registry_booted E).
Defined.

Lemma acquire_fails_without_registering_witness :
  (registry_ok booted /\
   log_sink_lh (pf := reference_platform) "/tmp/100%%full.log" false booted
   = Ret None open_failed)
  /\
  (find_sink (sink_list booted) "/tmp/100%%full.log" = None /\
   sink_opens "/tmp/100%%full.log" false = false /\
   qd_error_slot open_failed
   = Some (QD_ERROR_CONFIG, "Failed to open log file '/tmp/100%full.log'") /\
   sink_list open_failed = sink_list booted /\
   sink_next open_failed = sink_next booted /\
   source_list open_failed = source_list booted).
Proof.
  assert (E : log_sink_lh (pf := reference_platform) "/tmp/100%%full.log"
                false booted = Ret None open_failed) by reflexivity.
  split; [exact (conj registry_booted E) |].
  destruct (acquire_fails_without_registering (pf := reference_platform)
              booted open_failed "/tmp/100%%full.log" false registry_booted E)
    as (Hf & Ho & (text & Hp & Hslot) & _ & Hk & Hn & Hs).
  split; [exact Hf |]. split; [exact Ho |].
  split; [| exact (conj Hk (conj Hn Hs))].
  rewrite Hslot. vm_compute in Hp. injection Hp as <-. reflexivity.
Defined.

Lemma registry_invariant_is_kept_witness :
  registry_ok booted /\ registry_ok stdout_acquired.
Proof.
  split; [exact registry_booted |].
  apply (proj1 (registry_invariant_is_kept (pf := reference_platform) booted
                  stdout_acquired registry_booted) "stdout" false (Some 1%nat)).
  reflexivity.
Defined.

Lemma invalid_level_is_not_counted_witness :
  (wf_state booted /\ source_list booted !! 1%nat = Some booted_logging /\
   ~ valid_level 3)
  /\
  (exists s',
     final_state
       (qd_vlog_impl (pf := reference_platform) (Some 1%nat) 3 None 0
          "bad level" sample_env booted) = Some s' /\
     source_list s' = source_list booted /\ qd_error_slot s' = None).
Proof.
  assert (Hs : source_list booted !! 1%nat = Some booted_logging)
    by reflexivity.
  assert (Hv : ~ valid_level 3).
  { unfold valid_level, severity_bits. cbn.
    intros H. repeat (destruct H as [H | H]; [discriminate |]). exact H. }
  split; [exact (conj wf_booted (conj Hs Hv)) |].
  exact (invalid_level_is_not_counted (pf := reference_platform) booted 1
           booted_logging 3 None 0 "bad level" sample_env wf_booted Hs Hv).
Defined.

Lemma emission_changes_no_configuration_witness :
  (wf_state booted /\ source_list booted !! 0%nat = Some booted_default)
  /\
  (exists s',
     final_state
       (qd_vlog_impl (pf := reference_platform) (Some 0%nat) QD_LOG_INFO None
          0 "m1" sample_env booted) = Some s' /\
     settings_preserved booted s' /\
     length (source_list s') = length (source_list booted) /\
     logging_log_source s' = logging_log_source booted /\
     sink_list s' = sink_list booted /\ sink_next s' = sink_next booted /\
     level_names s' = level_names booted /\
     entity_cache s' = entity_cache booted).
Proof.
  assert (Hs : source_list booted !! 0%nat = Some booted_default)
    by reflexivity.
  split; [exact (conj wf_booted Hs) |].
  exact (emission_changes_no_configuration (pf := reference_platform) booted 0
           booted_default QD_LOG_INFO None 0 "m1" sample_env wf_booted Hs).
Defined.

Lemma wf_logged_once : wf_state logged_once.
Proof. apply (bool_decide_unpack _). vm_compute. exact I. Qed.

Lemma history_texts_are_bounded_witness :
  (wf_state logged_once /\
   source_list logged_once !! 1%nat = Some booted_logging /\
   texts_bounded (pf := reference_platform) (entries logged_once))
  /\
  (exists s',
     final_state
       (qd_vlog_impl (pf := reference_platform) (Some 1%nat) QD_LOG_ERROR None
          0 "m2" sample_env logged_once) = Some s' /\
     texts_bounded (pf := reference_platform) (entries s')).
Proof.
  assert (Hs : source_list logged_once !! 1%nat = Some booted_logging)
    by reflexivity.
  assert (Hb : texts_bounded (pf := reference_platform) (entries logged_once)).
  { constructor; [| constructor]. vm_compute. lia. }
  split; [exact (conj wf_logged_once (conj Hs Hb)) |].
  exact (history_texts_are_bounded (pf := reference_platform) logged_once 1
           booted_logging QD_LOG_ERROR None 0 "m2" sample_env wf_logged_once
           Hs Hb).
Defined.

Lemma recent_after_emissions_witness :
  (wf_state booted /\
   Forall (fun c => call_passes booted c = true) three_calls /\
   Forall (fun c => env_fputs_ok (call_env c) = true) three_calls /\
   (0 < 2 <= length three_calls)%nat /\ (2 <= LIST_MAX)%nat)
  /\
  (exists s' emitted,
     emit_all (pf := reference_platform) three_calls booted = Ret tt s' /\
     Forall2 (fun c e => call_entry (pf := reference_platform) booted c
                         = Some e) three_calls emitted /\
     entries s'
     = drop (length (entries booted) + length emitted - LIST_MAX)
         (entries booted ++ emitted) /\
     qd_log_recent_py false 2 s'
     = Ret (Some (map py_entry_of (drop (length emitted - 2) emitted))) s').
Proof.
  assert (Hp : Forall (fun c => call_passes booted c = true) three_calls)
    by (repeat constructor).
  assert (Hk : Forall (fun c => env_fputs_ok (call_env c) = true) three_calls)
    by (repeat constructor).
  assert (Hl : (0 < 2 <= length three_calls)%nat) by (simpl; lia).
  assert (Hc : (2 <= LIST_MAX)%nat) by (unfold LIST_MAX; lia).
  split; [exact (conj wf_booted (conj Hp (conj Hk (conj Hl Hc)))) |].
  exact (recent_after_emissions (pf := reference_platform) booted three_calls
           2 wf_booted Hp Hk Hl Hc).
Defined.

Lemma recent_names_level_by_table_index_witness :
  (qd_log_recent_py false 1 traced_once = Ret (Some [traced_row]) traced_once
   /\ In traced_row [traced_row])
  /\
  (exists e,
     In e (entries traced_once) /\ traced_row = py_entry_of e /\
     (entry_level e = QD_LOG_TRACE ->
      level_field traced_row = PyString "none") /\
     (entry_level e = QD_LOG_DEBUG ->
      level_field traced_row = PyString "trace") /\
     (entry_level e = QD_LOG_INFO ->
      level_field traced_row = PyString "info") /\
     (entry_level e = QD_LOG_NOTICE ->
      level_field traced_row = PyString "critical") /\
     (entry_level e = QD_LOG_WARNING \/ entry_level e = QD_LOG_ERROR \/
      entry_level e = QD_LOG_CRITICAL -> level_field traced_row = Py_None)).
Proof.
  assert (E : qd_log_recent_py false 1 traced_once
              = Ret (Some [traced_row]) traced_once) by reflexivity.
  assert (Hin : In traced_row [traced_row]) by (now left).
  split; [exact (conj E Hin) |].
  exact (recent_names_level_by_table_index traced_once 1 [traced_row]
           traced_row E Hin).
Defined.

Lemma update_applies_given_fields_witness :
  (wf_state booted /\ enable_ok (Some "warning+"))
  /\
  (exists h s1 src s' src',
     qd_log_source "NEWMOD" booted = Ret h s1 /\
     source_list s1 !! h = Some src /\
     qd_log_entity (pf := reference_platform)
       (mk_entity "NEWMOD" None (Some "warning+") (Some false) None) false
       booted
     = Ret QD_ERROR_NONE s' /\
     source_list s' = <[h := src']> (source_list s1) /\
     fields_applied booted (Some "warning+") (Some false) None src src' /\
     src_timestamp src' = 0%Z /\
     src_sink src' = src_sink src /\
     entity_cache s' = entity_cache s1 /\
     sink_list s' = sink_list booted /\ io_trace s' = io_trace booted /\
     qd_error_slot s' = None).
Proof.
  assert (He : enable_ok (Some "warning+")) by reflexivity.
  split; [exact (conj wf_booted He) |].
  exact (update_applies_given_fields (pf := reference_platform) booted
           "NEWMOD" (Some "warning+") (Some false) None false wf_booted He).
Defined.

Lemma failed_output_aborts_update_witness :
  (wf_state booted /\
   find_sink (sink_list booted) "/no/such/dir/log" = None /\
   sink_opens "/no/such/dir/log" false = false /\
   open_failure_message (pf := reference_platform) "/no/such/dir/log"
   = Some "Failed to open log file '/no/such/dir/log'")
  /\
  (exists h s1 s',
     qd_log_source "NEWMOD" booted = Ret h s1 /\
     qd_log_entity (pf := reference_platform)
       (mk_entity "NEWMOD" (Some "/no/such/dir/log") (Some "debug") None
          None) false booted
     = Ret QD_ERROR_CONFIG s' /\
     qd_error_slot s'
     = Some (QD_ERROR_CONFIG, "Failed to open log file '/no/such/dir/log'") /\
     source_list s' = source_list s1 /\
     entity_cache s' = entity_cache s1 /\
     sink_list s' = sink_list booted /\ sink_next s' = sink_next booted /\
     (forall j x, source_list booted !! j = Some x ->
                  source_list s' !! j = Some x)).
Proof.
  assert (Hf : find_sink (sink_list booted) "/no/such/dir/log" = None)
    by reflexivity.
  assert (Ho : sink_opens "/no/such/dir/log" false = false) by reflexivity.
  assert (Hm : open_failure_message (pf := reference_platform)
                 "/no/such/dir/log"
               = Some "Failed to open log file '/no/such/dir/log'")
    by reflexivity.
  split; [exact (conj wf_booted (conj Hf (conj Ho Hm))) |].
  exact (failed_output_aborts_update (pf := reference_platform) booted
           "NEWMOD" "/no/such/dir/log" (Some "debug") None None _ wf_booted Hf
           Ho Hm).
Defined.


Lemma out_of_the_box_logging_witness :
  (valid_level QD_LOG_ERROR /\ env_fputs_ok sample_env = true)
  /\
  (exists s0 h s1 src s2,
     qd_log_initialize (pf := reference_platform) initial_state = Ret tt s0 /\
     qd_log_source "ROUTER" s0 = Ret h s1 /\
     source_list s1 !! h = Some src /\
     qd_vlog_impl (pf := reference_platform) (Some h) QD_LOG_ERROR
       (Some "router.c") 42 "link lost" sample_env s1 = Ret tt s2 /\
     let entry :=
       entry_of (pf := reference_platform) src QD_LOG_ERROR (Some "router.c")
         42 "link lost" sample_env in
     io_trace s2
     = [ev_fputs stderr
          (render_line (pf := reference_platform) true false entry
             (env_time_text sample_env));
        ev_fflush stderr] /\
     entries s2 = [entry]).
Proof.
  assert (Hv : valid_level QD_LOG_ERROR) by (do 5 right; now left).
  assert (Hk : env_fputs_ok sample_env = true) by reflexivity.
  split; [exact (conj Hv Hk) |].
  exact (out_of_the_box_logging (pf := reference_platform) "ROUTER"
           QD_LOG_ERROR (Some "router.c") 42 "link lost" sample_env Hv Hk).
Defined.

Lemma stats_follow_emissions_witness :
  (wf_state booted /\ source_list booted !! 1%nat = Some booted_logging /\
   valid_level QD_LOG_TRACE)
  /\
  (exists s' e e',
     final_state
       (qd_vlog_impl (pf := reference_platform) (Some 1%nat) QD_LOG_TRACE None
          0 "trace event" sample_env booted) = Some s' /\
     qd_entity_refresh_logStats (pf := reference_platform) [] 1 booted
     = Ret (e, QD_ERROR_NONE) booted /\
     qd_entity_refresh_logStats (pf := reference_platform) [] 1 s'
     = Ret (e', QD_ERROR_NONE) s' /\
     attr "traceCount" e' = Some (attr_long 1) /\
     (forall key, key <> "traceCount" -> attr key e' = attr key e) /\
     attr "name" e' = Some (attr_string "LOGGING") /\
     attr "identity" e' = Some (attr_string "logStats/LOGGING") /\
     (forall h' r, h' <> 1%nat ->
        qd_entity_refresh_logStats (pf := reference_platform) [] h' booted
        = Ret r booted ->
        qd_entity_refresh_logStats (pf := reference_platform) [] h' s'
        = Ret r s')).
Proof.
  assert (Hs : source_list booted !! 1%nat = Some booted_logging)
    by reflexivity.
  assert (Hv : valid_level QD_LOG_TRACE) by (now left).
  split; [exact (conj wf_booted (conj Hs Hv)) |].
  exact (stats_follow_emissions (pf := reference_platform) booted 1
           booted_logging QD_LOG_TRACE None 0 "trace event" sample_env
           wf_booted Hs Hv).
Defined.

Lemma finalize_releases_everything_witness :
  sound router_stdout
  /\
  (exists n s' evs,
     (forall fuel, (n <= fuel)%nat ->
                   qd_log_finalize fuel router_stdout = Ret tt s') /\
     source_list s' = [] /\ entries s' = [] /\ sink_list s' = [] /\
     io_trace s' = io_trace router_stdout ++ evs /\
     Permutation evs [ev_fclose stdout]).
Proof.
  assert (Hs : sound router_stdout).
  { apply (bool_decide_unpack _). vm_compute. exact I. }
  split; [exact Hs |].
  exact (finalize_releases_everything router_stdout Hs).
Defined.

Lemma reset_of_default_enables_every_level_witness :
  (wf_state booted /\ source_list booted !! 1%nat = Some booted_logging /\
   (src_mask booted_logging = (-1)%Z \/ default_log_source booted = Some 1%nat)
   /\ QD_LOG_TRACE <> 0%Z)
  /\
  (exists d s' dsrc',
     qd_log_source_reset SOURCE_DEFAULT booted = Ret d s' /\
     default_log_source s' = Some d /\
     source_list s' !! d = Some dsrc' /\ src_mask dsrc' = (-1)%Z /\
     qd_log_enabled (Some 1%nat) QD_LOG_TRACE s' = Ret true s').
Proof.
  assert (Hs : source_list booted !! 1%nat = Some booted_logging)
    by reflexivity.
  assert (Hm : src_mask booted_logging = (-1)%Z
               \/ default_log_source booted = Some 1%nat) by (now left).
  assert (Hl : QD_LOG_TRACE <> 0%Z) by discriminate.
  split; [exact (conj wf_booted (conj Hs (conj Hm Hl))) |].
  exact (reset_of_default_enables_every_level booted 1 booted_logging
           QD_LOG_TRACE wf_booted Hs Hm Hl).
Defined.
